(** * AsyncResultsMerger: a shallow embedding of
      src/mongo/s/query/async_results_merger.cpp

    The merger pulls batches from several remote cursors and hands the
    documents to one consumer, either in sort-key order (through a
    priority queue of remote indices) or remote by remote.  The C++
    object is modelled as a record, its member functions as functions in
    a state-and-abort monad over that record: [None] is a failed
    [invariant]/[fassert] (the process terminates) or an access the C++
    leaves undefined (indexing past the end of [_remotes], [front()] of
    an empty queue).

    Integers of type [long long] (cursor ids, counts, batch sizes) are
    [Z]; the code does no arithmetic on them that could wrap for the
    values a cursor can reach.  Status messages are not modelled, only
    the error code. *)

From Stdlib Require Import ZArith Lia Sorted.
From stdpp Require Import base tactics option list sorting strings.

(** ** Error codes and statuses *)

Inductive ErrorCode :=
| OK
| InternalError
| BadValue
| IllegalOperation
| HostUnreachable
| NetworkTimeout
| NotMaster
| ShutdownInProgress
| InterruptedAtShutdown
| CallbackCanceled
| FailedToParse.

#[global] Instance ErrorCode_eq_dec : EqDecision ErrorCode.
Proof. solve_decision. Defined.

Definition Status := ErrorCode.

Definition isOK (s : Status) : bool := bool_decide (s = OK).

Definition isShutdownError (c : ErrorCode) : bool :=
  match c with
  | ShutdownInProgress | InterruptedAtShutdown => true
  | _ => false
  end.

Inductive StatusWith (T : Type) :=
| SWValue (v : T)
| SWError (s : Status).
Arguments SWValue {T} v.
Arguments SWError {T} s.

Definition getStatus {T} (sw : StatusWith T) : Status :=
  match sw with SWValue _ => OK | SWError s => s end.

(** ** Documents

    A document is looked at in two ways only: the type of the element
    under [kSortKeyField], and the components of that element when it is
    an embedded object. *)

Inductive BSONElement :=
| EOO
| NumberLong (n : Z)
| Object (o : list (string * Z)).

Inductive BSONType := tEOO | tNumberLong | tObject.

#[global] Instance BSONType_eq_dec : EqDecision BSONType.
Proof. solve_decision. Defined.

Definition BSONObj := list (string * BSONElement).

Definition type (e : BSONElement) : BSONType :=
  match e with EOO => tEOO | NumberLong _ => tNumberLong | Object _ => tObject end.

(** [BSONElement::Obj()] raises on anything that is not an object. *)
Definition Obj (e : BSONElement) : option (list (string * Z)) :=
  match e with Object o => Some o | _ => None end.

(** [BSONObj::operator[]]: the first element of that name, else EOO. *)
Fixpoint getField (obj : BSONObj) (name : string) : BSONElement :=
  match obj with
  | [] => EOO
  | (n, e) :: rest => if String.eqb n name then e else getField rest name
  end.

Definition kSortKeyField : string := "$sortKey".

Definition cmpZ (x y : Z) : Z :=
  match (x ?= y)%Z with Lt => (-1)%Z | Eq => 0%Z | Gt => 1%Z end.

(** Modelled from the spec: [BSONObj::woCompare(r, idxKey, considerFieldName =
    false)] is not part of this file.  The spec has it as a field-wise
    ordering derived from the sort specification, in which field names are
    irrelevant and only positions matter: components are compared in turn,
    the sign is flipped where the sort pattern has a negative direction at
    that position, and an object that runs out first sorts first. *)
Fixpoint woCompare (l r idxKey : list (string * Z)) : Z :=
  match l, r with
  | [], [] => 0%Z
  | [], _ :: _ => (-1)%Z
  | _ :: _, [] => 1%Z
  | (_, x) :: l', (_, y) :: r' =>
      let c := cmpZ x y in
      let c := match idxKey with
               | (_, o) :: _ => if (o <? 0)%Z then (- c)%Z else c
               | [] => c
               end in
      if (c =? 0)%Z then woCompare l' r' (tail idxKey) else c
  end.

(** [ClusterQueryResult]: a document, or nothing for end of stream. *)
Definition ClusterQueryResult := option BSONObj.

(** ** Parameters of the cursor *)

Record NamespaceString := {
  db : string;
  coll : string
}.

Inductive TailableMode := kNormal | kTailable | kTailableAndAwaitData.

#[global] Instance TailableMode_eq_dec : EqDecision TailableMode.
Proof. solve_decision. Defined.

Record CursorResponse := {
  getNSS : NamespaceString;
  getCursorId : Z;
  getBatch : list BSONObj
}.

Record RemoteCursor := {
  hostAndPort : string;
  cursorResponse : CursorResponse
}.

Record ClusterClientCursorParams := {
  nsString : NamespaceString;
  remotes : list RemoteCursor;
  sort : list (string * Z);
  batchSize : option Z;
  tailableMode : TailableMode;
  isAllowPartialResults : bool;
  readPreference : option string
}.

(** ** The task executor

    Modelled from the spec: the executor is an external collaborator with
    the contract [scheduleRemoteCommand(request, callback) -> handle |
    error], [cancel(handle)], [makeEvent() -> event | shutdown-error],
    [signalEvent(event)].  Its state here is the log of the calls it
    accepted, in order; handles and events are numbers drawn from one
    counter, and it refuses new work once it is shutting down. *)

Inductive Command :=
| GetMore (nss : NamespaceString) (cursorid : Z) (batch : option Z)
          (awaitDataTimeout : option Z)
| KillCursors (nss : NamespaceString) (cursorids : list Z).

Record RemoteCommandRequest := {
  target : string;
  dbname : string;
  cmdObj : Command;
  metadata : option string;
  opCtx : option nat
}.

Definition CallbackHandle := option nat.
Definition EventHandle := option nat.

Definition isValid (h : option nat) : bool :=
  match h with Some _ => true | None => false end.

(** A call the executor has accepted. *)
Inductive Call :=
| Scheduled (handle : nat) (request : RemoteCommandRequest)
| Cancelled (handle : nat)
| MadeEvent (event : nat)
| Signalled (event : nat).

Record TaskExecutor := {
  inShutdown : bool;
  nextId : nat;
  calls : list Call
}.

(** The requests scheduled, the handles cancelled and the events
    signalled so far, each in the order of the calls. *)
Definition scheduled (ex : TaskExecutor) : list (nat * RemoteCommandRequest) :=
  omap (fun c => match c with Scheduled h req => Some (h, req) | _ => None end)
       (calls ex).

Definition cancelled (ex : TaskExecutor) : list nat :=
  omap (fun c => match c with Cancelled h => Some h | _ => None end) (calls ex).

Definition signalled (ex : TaskExecutor) : list nat :=
  omap (fun c => match c with Signalled e => Some e | _ => None end) (calls ex).

Definition accept (c : Call) (ex : TaskExecutor) : TaskExecutor :=
  {| inShutdown := inShutdown ex; nextId := nextId ex; calls := calls ex ++ [c] |}.

Definition draw (ex : TaskExecutor) : TaskExecutor :=
  {| inShutdown := inShutdown ex; nextId := S (nextId ex); calls := calls ex |}.

(** Modelled from the spec: [TaskExecutor::scheduleRemoteCommand], declared
    outside this file: a handle for the accepted request, or an error. *)
Definition scheduleRemoteCommand (req : RemoteCommandRequest) (ex : TaskExecutor)
  : StatusWith nat * TaskExecutor :=
  if inShutdown ex then (SWError ShutdownInProgress, ex)
  else (SWValue (nextId ex), draw (accept (Scheduled (nextId ex) req) ex)).

(** Modelled from the spec: [TaskExecutor::makeEvent], declared outside this
    file: a new event, or the shutdown error. *)
Definition makeEvent (ex : TaskExecutor) : StatusWith nat * TaskExecutor :=
  if inShutdown ex then (SWError ShutdownInProgress, ex)
  else (SWValue (nextId ex), draw (accept (MadeEvent (nextId ex)) ex)).

(** Modelled from the spec: [TaskExecutor::signalEvent], declared outside
    this file. *)
Definition signalEvent (ev : EventHandle) (ex : TaskExecutor) : TaskExecutor :=
  match ev with
  | Some e => accept (Signalled e) ex
  | None => ex
  end.

(** Modelled from the spec: [TaskExecutor::cancel], declared outside this
    file. *)
Definition cancel (h : CallbackHandle) (ex : TaskExecutor) : TaskExecutor :=
  match h with
  | Some c => accept (Cancelled c) ex
  | None => ex
  end.

(** Modelled from the spec: the executor begins to shut down, after which
    it reports the shutdown error. *)
Definition shutdown (ex : TaskExecutor) : TaskExecutor :=
  {| inShutdown := true; nextId := nextId ex; calls := calls ex |}.

(** What the executor hands to the completion callback.  The wire codec
    is external as well: [data] is what [CursorResponse::parseFromBSON]
    makes of the reply. *)
Record RemoteCommandResponse := {
  rstatus : Status;
  data : StatusWith CursorResponse
}.

(** ** Per-remote state *)

Record RemoteCursorData := {
  cursorId : Z;
  cursorNss : NamespaceString;
  shardHostAndPort : string;
  docBuffer : list ClusterQueryResult;
  cbHandle : CallbackHandle;
  status : Status;
  fetchedCount : Z
}.

Definition newRemoteCursorData (host : string) (nss : NamespaceString)
    (establishedCursorId : Z)
  : RemoteCursorData :=
  {| cursorId := establishedCursorId;
     cursorNss := nss;
     shardHostAndPort := host;
     docBuffer := [];
     cbHandle := None;
     status := OK;
     fetchedCount := 0 |}.

Definition getTargetHost (r : RemoteCursorData) : string := shardHostAndPort r.

Definition hasNext (r : RemoteCursorData) : bool :=
  match docBuffer r with [] => false | _ :: _ => true end.

Definition exhausted (r : RemoteCursorData) : bool := (cursorId r =? 0)%Z.

Definition with_cursorId (v : Z) (r : RemoteCursorData) : RemoteCursorData :=
  {| cursorId := v; cursorNss := cursorNss r; shardHostAndPort := shardHostAndPort r;
     docBuffer := docBuffer r; cbHandle := cbHandle r; status := status r;
     fetchedCount := fetchedCount r |}.

Definition with_docBuffer (v : list ClusterQueryResult) (r : RemoteCursorData)
  : RemoteCursorData :=
  {| cursorId := cursorId r; cursorNss := cursorNss r;
     shardHostAndPort := shardHostAndPort r;
     docBuffer := v; cbHandle := cbHandle r; status := status r;
     fetchedCount := fetchedCount r |}.

Definition with_cbHandle (v : CallbackHandle) (r : RemoteCursorData) : RemoteCursorData :=
  {| cursorId := cursorId r; cursorNss := cursorNss r;
     shardHostAndPort := shardHostAndPort r;
     docBuffer := docBuffer r; cbHandle := v; status := status r;
     fetchedCount := fetchedCount r |}.

Definition with_status (v : Status) (r : RemoteCursorData) : RemoteCursorData :=
  {| cursorId := cursorId r; cursorNss := cursorNss r;
     shardHostAndPort := shardHostAndPort r;
     docBuffer := docBuffer r; cbHandle := cbHandle r; status := v;
     fetchedCount := fetchedCount r |}.

Definition with_fetchedCount (v : Z) (r : RemoteCursorData) : RemoteCursorData :=
  {| cursorId := cursorId r; cursorNss := cursorNss r;
     shardHostAndPort := shardHostAndPort r;
     docBuffer := docBuffer r; cbHandle := cbHandle r; status := status r;
     fetchedCount := v |}.

(** ** The merger *)

Inductive LifecycleState := kAlive | kKillStarted | kKillComplete.

#[global] Instance LifecycleState_eq_dec : EqDecision LifecycleState.
Proof. solve_decision. Defined.

Record AsyncResultsMerger := {
  _opCtx : option nat;
  _executor : TaskExecutor;
  _params : ClusterClientCursorParams;
  _metadataObj : option string;
  _remotes : list RemoteCursorData;
  _mergeQueue : list nat;
  _gettingFromRemote : nat;
  _status : Status;
  _currentEvent : EventHandle;
  _eofNext : bool;
  _awaitDataTimeout : option Z;
  _lifecycleState : LifecycleState;
  _killCursorsScheduledEvent : EventHandle
}.

Definition set_opCtx (v : option nat) (s : AsyncResultsMerger) :=
  {| _opCtx := v; _executor := _executor s; _params := _params s;
     _metadataObj := _metadataObj s; _remotes := _remotes s;
     _mergeQueue := _mergeQueue s; _gettingFromRemote := _gettingFromRemote s;
     _status := _status s; _currentEvent := _currentEvent s; _eofNext := _eofNext s;
     _awaitDataTimeout := _awaitDataTimeout s; _lifecycleState := _lifecycleState s;
     _killCursorsScheduledEvent := _killCursorsScheduledEvent s |}.

Definition set_executor (v : TaskExecutor) (s : AsyncResultsMerger) :=
  {| _opCtx := _opCtx s; _executor := v; _params := _params s;
     _metadataObj := _metadataObj s; _remotes := _remotes s;
     _mergeQueue := _mergeQueue s; _gettingFromRemote := _gettingFromRemote s;
     _status := _status s; _currentEvent := _currentEvent s; _eofNext := _eofNext s;
     _awaitDataTimeout := _awaitDataTimeout s; _lifecycleState := _lifecycleState s;
     _killCursorsScheduledEvent := _killCursorsScheduledEvent s |}.

Definition set_remotes (v : list RemoteCursorData) (s : AsyncResultsMerger) :=
  {| _opCtx := _opCtx s; _executor := _executor s; _params := _params s;
     _metadataObj := _metadataObj s; _remotes := v;
     _mergeQueue := _mergeQueue s; _gettingFromRemote := _gettingFromRemote s;
     _status := _status s; _currentEvent := _currentEvent s; _eofNext := _eofNext s;
     _awaitDataTimeout := _awaitDataTimeout s; _lifecycleState := _lifecycleState s;
     _killCursorsScheduledEvent := _killCursorsScheduledEvent s |}.

Definition set_mergeQueue (v : list nat) (s : AsyncResultsMerger) :=
  {| _opCtx := _opCtx s; _executor := _executor s; _params := _params s;
     _metadataObj := _metadataObj s; _remotes := _remotes s;
     _mergeQueue := v; _gettingFromRemote := _gettingFromRemote s;
     _status := _status s; _currentEvent := _currentEvent s; _eofNext := _eofNext s;
     _awaitDataTimeout := _awaitDataTimeout s; _lifecycleState := _lifecycleState s;
     _killCursorsScheduledEvent := _killCursorsScheduledEvent s |}.

Definition set_gettingFromRemote (v : nat) (s : AsyncResultsMerger) :=
  {| _opCtx := _opCtx s; _executor := _executor s; _params := _params s;
     _metadataObj := _metadataObj s; _remotes := _remotes s;
     _mergeQueue := _mergeQueue s; _gettingFromRemote := v;
     _status := _status s; _currentEvent := _currentEvent s; _eofNext := _eofNext s;
     _awaitDataTimeout := _awaitDataTimeout s; _lifecycleState := _lifecycleState s;
     _killCursorsScheduledEvent := _killCursorsScheduledEvent s |}.

Definition set_status (v : Status) (s : AsyncResultsMerger) :=
  {| _opCtx := _opCtx s; _executor := _executor s; _params := _params s;
     _metadataObj := _metadataObj s; _remotes := _remotes s;
     _mergeQueue := _mergeQueue s; _gettingFromRemote := _gettingFromRemote s;
     _status := v; _currentEvent := _currentEvent s; _eofNext := _eofNext s;
     _awaitDataTimeout := _awaitDataTimeout s; _lifecycleState := _lifecycleState s;
     _killCursorsScheduledEvent := _killCursorsScheduledEvent s |}.

Definition set_currentEvent (v : EventHandle) (s : AsyncResultsMerger) :=
  {| _opCtx := _opCtx s; _executor := _executor s; _params := _params s;
     _metadataObj := _metadataObj s; _remotes := _remotes s;
     _mergeQueue := _mergeQueue s; _gettingFromRemote := _gettingFromRemote s;
     _status := _status s; _currentEvent := v; _eofNext := _eofNext s;
     _awaitDataTimeout := _awaitDataTimeout s; _lifecycleState := _lifecycleState s;
     _killCursorsScheduledEvent := _killCursorsScheduledEvent s |}.

Definition set_eofNext (v : bool) (s : AsyncResultsMerger) :=
  {| _opCtx := _opCtx s; _executor := _executor s; _params := _params s;
     _metadataObj := _metadataObj s; _remotes := _remotes s;
     _mergeQueue := _mergeQueue s; _gettingFromRemote := _gettingFromRemote s;
     _status := _status s; _currentEvent := _currentEvent s; _eofNext := v;
     _awaitDataTimeout := _awaitDataTimeout s; _lifecycleState := _lifecycleState s;
     _killCursorsScheduledEvent := _killCursorsScheduledEvent s |}.

Definition set_awaitDataTimeout (v : option Z) (s : AsyncResultsMerger) :=
  {| _opCtx := _opCtx s; _executor := _executor s; _params := _params s;
     _metadataObj := _metadataObj s; _remotes := _remotes s;
     _mergeQueue := _mergeQueue s; _gettingFromRemote := _gettingFromRemote s;
     _status := _status s; _currentEvent := _currentEvent s; _eofNext := _eofNext s;
     _awaitDataTimeout := v; _lifecycleState := _lifecycleState s;
     _killCursorsScheduledEvent := _killCursorsScheduledEvent s |}.

Definition set_lifecycleState (v : LifecycleState) (s : AsyncResultsMerger) :=
  {| _opCtx := _opCtx s; _executor := _executor s; _params := _params s;
     _metadataObj := _metadataObj s; _remotes := _remotes s;
     _mergeQueue := _mergeQueue s; _gettingFromRemote := _gettingFromRemote s;
     _status := _status s; _currentEvent := _currentEvent s; _eofNext := _eofNext s;
     _awaitDataTimeout := _awaitDataTimeout s; _lifecycleState := v;
     _killCursorsScheduledEvent := _killCursorsScheduledEvent s |}.

Definition set_killCursorsScheduledEvent (v : EventHandle) (s : AsyncResultsMerger) :=
  {| _opCtx := _opCtx s; _executor := _executor s; _params := _params s;
     _metadataObj := _metadataObj s; _remotes := _remotes s;
     _mergeQueue := _mergeQueue s; _gettingFromRemote := _gettingFromRemote s;
     _status := _status s; _currentEvent := _currentEvent s; _eofNext := _eofNext s;
     _awaitDataTimeout := _awaitDataTimeout s; _lifecycleState := _lifecycleState s;
     _killCursorsScheduledEvent := v |}.

(** ** The monad of member functions *)

Definition M (A : Type) : Type := AsyncResultsMerger -> option (A * AsyncResultsMerger).

Definition ret {A} (a : A) : M A := fun s => Some (a, s).

Definition bind {A B} (m : M A) (k : A -> M B) : M B :=
  fun s => match m s with
           | Some (a, s') => k a s'
           | None => None
           end.

Definition gets {A} (f : AsyncResultsMerger -> A) : M A := fun s => Some (f s, s).

Definition modify (f : AsyncResultsMerger -> AsyncResultsMerger) : M unit :=
  fun s => Some (tt, f s).

(** [invariant(cond)]: terminates the process when [cond] is false. *)
Definition invariant (cond : bool) : M unit :=
  fun s => if cond then Some (tt, s) else None.

(** Reading a value the C++ can only read when it is there. *)
Definition defined {A} (o : option A) : M A :=
  fun s => match o with Some a => Some (a, s) | None => None end.

Notation "'do' x <- m 'in' k" := (bind m (fun x => k))
  (at level 10, x name, m at level 100, k at level 200).
Notation "'run' m 'in' k" := (bind m (fun _ => k))
  (at level 10, m at level 100, k at level 200).

(** [_remotes[i]], and assignment through the reference it gives. *)
Definition remoteAt (i : nat) : M RemoteCursorData :=
  fun s => defined (_remotes s !! i) s.

Definition updRemote (i : nat) (f : RemoteCursorData -> RemoteCursorData) : M unit :=
  do r <- remoteAt i in
  modify (fun s => set_remotes (<[i := f r]> (_remotes s)) s).

Definition liftExec {A} (f : TaskExecutor -> A * TaskExecutor) : M A :=
  fun s => let (a, ex) := f (_executor s) in Some (a, set_executor ex s).

Definition when (c : bool) (m : M unit) : M unit := if c then m else ret tt.

Definition isEmpty {A} (l : list A) : bool :=
  match l with [] => true | _ :: _ => false end.

(** ** The merging comparator and the queue built on it

    [std::priority_queue<size_t, std::vector<size_t>, MergingComparator>].
    The container is kept as the list of its elements.  [top()] is an
    element that the comparator puts below no other one; which of several
    such elements it is, is the library's choice, and nothing proved below
    depends on the choice made here.  The comparator reads the head of the
    buffers it is given, so it has no value where a buffer is empty or a
    head carries no sort key object. *)

Definition sortKeyOf (res : ClusterQueryResult) : option (list (string * Z)) :=
  match res with
  | Some obj => Obj (getField obj kSortKeyField)
  | None => None
  end.

Definition MergingComparator (remotes : list RemoteCursorData) (sort : list (string * Z))
    (lhs rhs : nat) : option bool :=
  match remotes !! lhs, remotes !! rhs with
  | Some l, Some r =>
      match docBuffer l, docBuffer r with
      | leftDoc :: _, rightDoc :: _ =>
          match sortKeyOf leftDoc, sortKeyOf rightDoc with
          | Some leftDocKey, Some rightDocKey =>
              Some (woCompare leftDocKey rightDocKey sort >? 0)%Z
          | _, _ => None
          end
      | _, _ => None
      end
  | _, _ => None
  end.

Fixpoint pq_top (less : nat -> nat -> option bool) (q : list nat) : option nat :=
  match q with
  | [] => None
  | x :: q' =>
      match q' with
      | [] => Some x
      | _ :: _ =>
          match pq_top less q' with
          | Some y =>
              match less x y with
              | Some b => Some (if b then y else x)
              | None => None
              end
          | None => None
          end
      end
  end.

Fixpoint remove_one (x : nat) (q : list nat) : list nat :=
  match q with
  | [] => []
  | y :: q' => if decide (x = y) then q' else y :: remove_one x q'
  end.

Definition pq_pop (top : nat) (q : list nat) : list nat := remove_one top q.

Definition pq_push (x : nat) (q : list nat) : list nat := q ++ [x].

(** ** Member functions, in the order of the source file *)

Definition hasSortM : M bool := gets (fun s => negb (isEmpty (sort (_params s)))).

(** [_addBatchToBuffer]: the loop over the batch, then the push. *)
Fixpoint addBatch_loop (remoteIndex : nat) (batch : list BSONObj) : M bool :=
  match batch with
  | [] => ret true
  | obj :: rest =>
      do hasSort <- hasSortM in
      if hasSort && negb (bool_decide (type (getField obj kSortKeyField) = tObject)) then
        run updRemote remoteIndex (with_status InternalError) in
        ret false
      else
        run updRemote remoteIndex
              (fun r => with_fetchedCount (fetchedCount r + 1)
                          (with_docBuffer (docBuffer r ++ [Some obj]) r)) in
        addBatch_loop remoteIndex rest
  end.

Definition _addBatchToBuffer (remoteIndex : nat) (batch : list BSONObj) : M bool :=
  run remoteAt remoteIndex in
  do ok <- addBatch_loop remoteIndex batch in
  if ok then
    do hasSort <- hasSortM in
    run when (hasSort && negb (isEmpty batch))
          (modify (fun s => set_mergeQueue (pq_push remoteIndex (_mergeQueue s)) s)) in
    ret true
  else ret false.

(** The constructor. *)
Fixpoint construct_loop (remoteIndex : nat) (rs : list RemoteCursor) : M unit :=
  match rs with
  | [] => ret tt
  | remote :: rest =>
      run modify (fun s =>
            set_remotes
              (_remotes s ++
                 [newRemoteCursorData (hostAndPort remote)
                    (getNSS (cursorResponse remote))
                    (getCursorId (cursorResponse remote))]) s) in
      run _addBatchToBuffer remoteIndex (getBatch (cursorResponse remote)) in
      construct_loop (S remoteIndex) rest
  end.

Definition emptyMerger (opCtx : option nat) (executor : TaskExecutor)
    (params : ClusterClientCursorParams) : AsyncResultsMerger :=
  {| _opCtx := opCtx; _executor := executor; _params := params;
     _metadataObj := None; _remotes := []; _mergeQueue := [];
     _gettingFromRemote := 0; _status := OK; _currentEvent := None;
     _eofNext := false; _awaitDataTimeout := None; _lifecycleState := kAlive;
     _killCursorsScheduledEvent := None |}.

Definition construct (params : ClusterClientCursorParams) : M unit :=
  run construct_loop 0 (remotes params) in
  modify (fun s =>
    {| _opCtx := _opCtx s; _executor := _executor s; _params := _params s;
       _metadataObj := readPreference params; _remotes := _remotes s;
       _mergeQueue := _mergeQueue s; _gettingFromRemote := _gettingFromRemote s;
       _status := _status s; _currentEvent := _currentEvent s;
       _eofNext := _eofNext s; _awaitDataTimeout := _awaitDataTimeout s;
       _lifecycleState := _lifecycleState s;
       _killCursorsScheduledEvent := _killCursorsScheduledEvent s |}).

Definition newAsyncResultsMerger (opCtx : option nat) (executor : TaskExecutor)
    (params : ClusterClientCursorParams) : option AsyncResultsMerger :=
  match construct params (emptyMerger opCtx executor params) with
  | Some (_, s) => Some s
  | None => None
  end.

Definition _remotesExhausted : M bool :=
  gets (fun s => forallb exhausted (_remotes s)).

Definition remotesExhausted : M bool := _remotesExhausted.

(** The destructor: the process terminates unless every remote is
    exhausted or the kill has run to completion. *)
Definition destructor : M unit :=
  do allExhausted <- _remotesExhausted in
  do lc <- gets _lifecycleState in
  invariant (allExhausted || bool_decide (lc = kKillComplete)).

Definition setAwaitDataTimeout (awaitDataTimeout : Z) : M Status :=
  do tm <- gets (fun s => tailableMode (_params s)) in
  if negb (bool_decide (tm = kTailableAndAwaitData)) then ret BadValue
  else
    run modify (set_awaitDataTimeout (Some awaitDataTimeout)) in
    ret OK.

Definition detachFromOperationContext : M unit :=
  run modify (set_opCtx None) in
  modify (set_eofNext false).

Definition reattachToOperationContext (opCtx : nat) : M unit :=
  do cur <- gets _opCtx in
  run invariant (negb (isValid cur)) in
  modify (set_opCtx (Some opCtx)).

Definition _readySorted : M bool :=
  do tm <- gets (fun s => tailableMode (_params s)) in
  run invariant (bool_decide (tm = kNormal)) in
  gets (fun s =>
          forallb (fun remote => negb (negb (hasNext remote) && negb (exhausted remote)))
                  (_remotes s)).

Fixpoint readyUnsorted_loop (rs : list RemoteCursorData) (allExhausted : bool) : bool :=
  match rs with
  | [] => allExhausted
  | remote :: rest =>
      let allExhausted := if negb (exhausted remote) then false else allExhausted in
      if hasNext remote then true else readyUnsorted_loop rest allExhausted
  end.

Definition _readyUnsorted : M bool :=
  gets (fun s => readyUnsorted_loop (_remotes s) true).

(** The first remote that reported an error, as the loop of [_ready]
    finds it. *)
Fixpoint firstError (rs : list RemoteCursorData) : option Status :=
  match rs with
  | [] => None
  | remote :: rest =>
      if negb (isOK (status remote)) then Some (status remote) else firstError rest
  end.

Definition _ready : M bool :=
  do lc <- gets _lifecycleState in
  if negb (bool_decide (lc = kAlive)) then ret true
  else
    do eof <- gets _eofNext in
    if eof then ret true
    else
      do rs <- gets _remotes in
      match firstError rs with
      | Some st =>
          run modify (set_status st) in
          ret true
      | None =>
          do hasSort <- hasSortM in
          if hasSort then _readySorted else _readyUnsorted
      end.

Definition ready : M bool := _ready.

Definition _nextReadySorted : M ClusterQueryResult :=
  do tm <- gets (fun s => tailableMode (_params s)) in
  run invariant (bool_decide (tm = kNormal)) in
  do q <- gets _mergeQueue in
  if isEmpty q then ret None
  else
    do less <- gets (fun s => MergingComparator (_remotes s) (sort (_params s))) in
    do smallestRemote <- defined (pq_top less q) in
    run modify (set_mergeQueue (pq_pop smallestRemote q)) in
    do remote <- remoteAt smallestRemote in
    run invariant (negb (isEmpty (docBuffer remote))) in
    run invariant (isOK (status remote)) in
    do front <- defined (head (docBuffer remote)) in
    run updRemote smallestRemote (fun r => with_docBuffer (tail (docBuffer r)) r) in
    do remote' <- remoteAt smallestRemote in
    run when (negb (isEmpty (docBuffer remote')))
          (modify (fun s => set_mergeQueue (pq_push smallestRemote (_mergeQueue s)) s)) in
    ret front.

(** The loop of [_nextReadyUnsorted]; [todo] is [_remotes.size() -
    remotesAttempted]. *)
Fixpoint nextReadyUnsorted_loop (todo : nat) : M ClusterQueryResult :=
  match todo with
  | O => ret None
  | S todo' =>
      do g <- gets _gettingFromRemote in
      do remote <- remoteAt g in
      run invariant (isOK (status remote)) in
      if hasNext remote then
        do front <- defined (head (docBuffer remote)) in
        run updRemote g (fun r => with_docBuffer (tail (docBuffer r)) r) in
        do remote' <- remoteAt g in
        do tm <- gets (fun s => tailableMode (_params s)) in
        run when (bool_decide (tm = kTailable) && negb (hasNext remote'))
              (modify (set_eofNext true)) in
        ret front
      else
        do size <- gets (fun s => length (_remotes s)) in
        run modify (set_gettingFromRemote (if S g =? size then 0 else S g)) in
        nextReadyUnsorted_loop todo'
  end.

Definition _nextReadyUnsorted : M ClusterQueryResult :=
  do size <- gets (fun s => length (_remotes s)) in
  nextReadyUnsorted_loop size.

(** [nextReady]; the [dassert(_ready(lk))] at its head is compiled out of
    production builds and is the caller's obligation. *)
Definition nextReady : M (StatusWith ClusterQueryResult) :=
  do lc <- gets _lifecycleState in
  if negb (bool_decide (lc = kAlive)) then ret (SWError IllegalOperation)
  else
    do st <- gets _status in
    if negb (isOK st) then ret (SWError st)
    else
      do eof <- gets _eofNext in
      if eof then
        run modify (set_eofNext false) in
        ret (SWValue None)
      else
        do hasSort <- hasSortM in
        do res <- (if hasSort then _nextReadySorted else _nextReadyUnsorted) in
        ret (SWValue res).

Definition adjustBatchSize (batchSize : option Z) (fetchedCount : Z) : option Z :=
  match batchSize with
  | Some b => if (b >? fetchedCount)%Z then Some (b - fetchedCount)%Z else Some b
  | None => None
  end.

Definition _askForNextBatch (remoteIndex : nat) : M Status :=
  do remote <- remoteAt remoteIndex in
  run invariant (negb (isValid (cbHandle remote))) in
  do params <- gets _params in
  let adjustedBatchSize := adjustBatchSize (batchSize params) (fetchedCount remote) in
  do awaitDataTimeout <- gets _awaitDataTimeout in
  let cmdObj := GetMore (cursorNss remote) (cursorId remote) adjustedBatchSize
                        awaitDataTimeout in
  do metadataObj <- gets _metadataObj in
  do opCtx <- gets _opCtx in
  let request := {| target := getTargetHost remote;
                    dbname := db (nsString params);
                    cmdObj := cmdObj;
                    metadata := metadataObj;
                    opCtx := opCtx |} in
  do callbackStatus <- liftExec (scheduleRemoteCommand request) in
  match callbackStatus with
  | SWError st => ret st
  | SWValue h =>
      run updRemote remoteIndex (with_cbHandle (Some h)) in
      ret OK
  end.

Definition _signalCurrentEventIfReady : M unit :=
  do isReady <- _ready in
  do ev <- gets _currentEvent in
  when (isReady && isValid ev)
    (run liftExec (fun ex => (tt, signalEvent ev ex)) in
     modify (set_currentEvent None)).

Definition _haveOutstandingBatchRequests : M bool :=
  gets (fun s => existsb (fun remote => isValid (cbHandle remote)) (_remotes s)).

Fixpoint scheduleKillCursors_loop (opCtx : option nat) (rs : list RemoteCursorData)
  : M unit :=
  match rs with
  | [] => ret tt
  | remote :: rest =>
      run invariant (negb (isValid (cbHandle remote))) in
      run when (isOK (status remote) && negb (cursorId remote =? 0)%Z
                && negb (exhausted remote))
            (do params <- gets _params in
             let request := {| target := getTargetHost remote;
                               dbname := db (nsString params);
                               cmdObj := KillCursors (nsString params) [cursorId remote];
                               metadata := None;
                               opCtx := opCtx |} in
             run liftExec (scheduleRemoteCommand request) in
             ret tt) in
      scheduleKillCursors_loop opCtx rest
  end.

Definition _scheduleKillCursors (opCtx : option nat) : M unit :=
  do lc <- gets _lifecycleState in
  run invariant (bool_decide (lc = kKillStarted)) in
  do ev <- gets _killCursorsScheduledEvent in
  run invariant (isValid ev) in
  do rs <- gets _remotes in
  scheduleKillCursors_loop opCtx rs.

Definition _cleanUpKilledBatch : M unit :=
  do lc <- gets _lifecycleState in
  run invariant (bool_decide (lc = kKillStarted)) in
  do outstanding <- _haveOutstandingBatchRequests in
  when (negb outstanding)
    (do ev <- gets _killCursorsScheduledEvent in
     run when (isValid ev)
           (do opCtx <- gets _opCtx in
            run _scheduleKillCursors opCtx in
            liftExec (fun ex => (tt, signalEvent ev ex))) in
     modify (set_lifecycleState kKillComplete)).

Definition _cleanUpFailedBatch (st : Status) (remoteIndex : nat) : M unit :=
  run updRemote remoteIndex (with_status st) in
  do allowPartial <- gets (fun s => isAllowPartialResults (_params s)) in
  when allowPartial
    (run updRemote remoteIndex (with_status OK) in
     run updRemote remoteIndex (with_docBuffer []) in
     updRemote remoteIndex (with_cursorId 0)).

Definition _parseCursorResponse (responseObj : StatusWith CursorResponse)
    (remote : RemoteCursorData) : StatusWith CursorResponse :=
  match responseObj with
  | SWError st => SWError st
  | SWValue cursorResponse =>
      if negb (getCursorId cursorResponse =? 0)%Z
         && negb (cursorId remote =? getCursorId cursorResponse)%Z
      then SWError BadValue
      else SWValue cursorResponse
  end.

Definition _processBatchResults (response : RemoteCommandResponse) (remoteIndex : nat)
  : M unit :=
  do remote <- remoteAt remoteIndex in
  if negb (isOK (rstatus response)) then
    _cleanUpFailedBatch (rstatus response) remoteIndex
  else
    match _parseCursorResponse (data response) remote with
    | SWError st => _cleanUpFailedBatch st remoteIndex
    | SWValue cursorResponse =>
        run updRemote remoteIndex (with_cursorId (getCursorId cursorResponse)) in
        do ok <- _addBatchToBuffer remoteIndex (getBatch cursorResponse) in
        if negb ok then ret tt
        else
          do remote <- remoteAt remoteIndex in
          do tm <- gets (fun s => tailableMode (_params s)) in
          if bool_decide (tm = kTailable) && negb (hasNext remote) then
            do size <- gets (fun s => length (_remotes s)) in
            run invariant (size =? 1) in
            modify (set_eofNext true)
          else if negb (hasNext remote) && negb (exhausted remote) then
            do st <- _askForNextBatch remoteIndex in
            updRemote remoteIndex (with_status st)
          else ret tt
    end.

(** The completion callback.  The callees modelled here report failure
    through [StatusWith] and raise nothing, so the [catch] arm has no
    counterpart. *)
Definition _handleBatchResponse (response : RemoteCommandResponse) (remoteIndex : nat)
  : M unit :=
  run updRemote remoteIndex (with_cbHandle None) in
  do lc <- gets _lifecycleState in
  if negb (bool_decide (lc = kAlive)) then
    run _signalCurrentEventIfReady in
    _cleanUpKilledBatch
  else
    run _processBatchResults response remoteIndex in
    _signalCurrentEventIfReady.

(** The scheduling loop of [nextEvent], from index [i] on, for [todo]
    remotes; [Some st] is the status it returns early with. *)
Fixpoint nextEvent_loop (todo i : nat) : M (option Status) :=
  match todo with
  | O => ret None
  | S todo' =>
      do remote <- remoteAt i in
      if negb (isOK (status remote)) then ret (Some (status remote))
      else if negb (hasNext remote) && negb (exhausted remote)
              && negb (isValid (cbHandle remote)) then
        do nextBatchStatus <- _askForNextBatch i in
        if negb (isOK nextBatchStatus) then ret (Some nextBatchStatus)
        else nextEvent_loop todo' (S i)
      else nextEvent_loop todo' (S i)
  end.

Definition nextEvent : M (StatusWith EventHandle) :=
  do lc <- gets _lifecycleState in
  if negb (bool_decide (lc = kAlive)) then ret (SWError IllegalOperation)
  else
    do cur <- gets _currentEvent in
    if isValid cur then ret (SWError IllegalOperation)
    else
      do size <- gets (fun s => length (_remotes s)) in
      do early <- nextEvent_loop size 0 in
      match early with
      | Some st => ret (SWError st)
      | None =>
          do eventStatus <- liftExec makeEvent in
          match eventStatus with
          | SWError st => ret (SWError st)
          | SWValue e =>
              let eventToReturn := Some e in
              run modify (set_currentEvent eventToReturn) in
              run _signalCurrentEventIfReady in
              ret (SWValue eventToReturn)
          end
      end.

Definition cancelOutstanding : M unit :=
  modify (fun s =>
    set_executor
      (fold_left (fun ex remote =>
                    if isValid (cbHandle remote) then cancel (cbHandle remote) ex else ex)
                 (_remotes s) (_executor s)) s).

Definition kill (opCtx : option nat) : M EventHandle :=
  do ev <- gets _killCursorsScheduledEvent in
  if isValid ev then
    do lc <- gets _lifecycleState in
    run invariant (negb (bool_decide (lc = kAlive))) in
    ret ev
  else
    run modify (set_lifecycleState kKillStarted) in
    do statusWithEvent <- liftExec makeEvent in
    if isShutdownError (getStatus statusWithEvent) then
      do outstanding <- _haveOutstandingBatchRequests in
      run when (negb outstanding) (modify (set_lifecycleState kKillComplete)) in
      ret None
    else
      match statusWithEvent with
      | SWError _ => fun _ => None
      | SWValue e =>
          run modify (set_killCursorsScheduledEvent (Some e)) in
          do outstanding <- _haveOutstandingBatchRequests in
          run (if negb outstanding then
                 run _scheduleKillCursors opCtx in
                 run modify (set_lifecycleState kKillComplete) in
                 do ev <- gets _killCursorsScheduledEvent in
                 liftExec (fun ex => (tt, signalEvent ev ex))
               else cancelOutstanding) in
          gets _killCursorsScheduledEvent
      end.

(** ** The merger in use

    What can happen to a merger once it is built: the consumer calls a
    public member function, the executor runs the completion callback of
    a request it accepted earlier, or the executor begins to shut down. *)

Inductive Op :=
| OpReady
| OpNextReady
| OpNextEvent
| OpResponse (remoteIndex : nat) (response : RemoteCommandResponse)
| OpKill (opCtx : option nat)
| OpDetach
| OpReattach (opCtx : nat)
| OpSetAwaitDataTimeout (t : Z)
| OpRemotesExhausted
| OpExecutorShutdown.

Inductive Out :=
| OutBool (b : bool)
| OutNext (r : StatusWith ClusterQueryResult)
| OutEvent (e : StatusWith EventHandle)
| OutHandle (e : EventHandle)
| OutStatus (st : Status)
| OutUnit.

(** The executor calls back only for a request that is outstanding. *)
Definition callback (response : RemoteCommandResponse) (remoteIndex : nat) : M unit :=
  do remote <- remoteAt remoteIndex in
  if isValid (cbHandle remote) then _handleBatchResponse response remoteIndex
  else fun _ => None.

Definition step (o : Op) : M Out :=
  match o with
  | OpReady => do b <- ready in ret (OutBool b)
  | OpNextReady => do r <- nextReady in ret (OutNext r)
  | OpNextEvent => do e <- nextEvent in ret (OutEvent e)
  | OpResponse i response => run callback response i in ret OutUnit
  | OpKill opCtx => do e <- kill opCtx in ret (OutHandle e)
  | OpDetach => run detachFromOperationContext in ret OutUnit
  | OpReattach opCtx => run reattachToOperationContext opCtx in ret OutUnit
  | OpSetAwaitDataTimeout t => do st <- setAwaitDataTimeout t in ret (OutStatus st)
  | OpRemotesExhausted => do b <- remotesExhausted in ret (OutBool b)
  | OpExecutorShutdown => run liftExec (fun ex => (tt, shutdown ex)) in ret OutUnit
  end.

Fixpoint runOps (ops : list Op) : M (list Out) :=
  match ops with
  | [] => ret []
  | o :: rest =>
      do out <- step o in
      do outs <- runOps rest in
      ret (out :: outs)
  end.

Inductive reachable : AsyncResultsMerger -> Prop :=
| reachable_new opCtx executor params s :
    newAsyncResultsMerger opCtx executor params = Some s ->
    reachable s
| reachable_step s o out s' :
    reachable s ->
    step o s = Some (out, s') ->
    reachable s'.

(** The documents a run hands to the consumer. *)
Fixpoint documents (outs : list Out) : list BSONObj :=
  match outs with
  | [] => []
  | OutNext (SWValue (Some obj)) :: rest => obj :: documents rest
  | _ :: rest => documents rest
  end.

(** ** Notions used to state the properties *)

Definition hasSort (s : AsyncResultsMerger) : bool :=
  negb (isEmpty (sort (_params s))).

(** A document that [_addBatchToBuffer] lets through. *)
Definition wellFormedFor (sorted : bool) (obj : BSONObj) : bool :=
  negb (sorted && negb (bool_decide (type (getField obj kSortKeyField) = tObject))).

(** The documents of a batch that come before the first one that is not
    let through. *)
Fixpoint accepted (sorted : bool) (batch : list BSONObj) : list BSONObj :=
  match batch with
  | [] => []
  | obj :: rest =>
      if wellFormedFor sorted obj then obj :: accepted sorted rest else []
  end.

(** A remote after the loop of [_addBatchToBuffer] has run over [batch]. *)
Definition appended (sorted : bool) (batch : list BSONObj) (r : RemoteCursorData)
  : RemoteCursorData :=
  let acc := accepted sorted batch in
  let r1 := with_fetchedCount (fetchedCount r + Z.of_nat (length acc))
              (with_docBuffer (docBuffer r ++ (Some <$> acc)) r) in
  if forallb (wellFormedFor sorted) batch then r1 else with_status InternalError r1.

(** The part of the state the merge itself lives in. *)
Definition core (s : AsyncResultsMerger)
  : ClusterClientCursorParams * list RemoteCursorData * list nat :=
  (_params s, _remotes s, _mergeQueue s).

Definition keyed (res : ClusterQueryResult) : Prop := is_Some (sortKeyOf res).

(** What holds of every merger that can be reached. *)
Record Inv (s : AsyncResultsMerger) : Prop := {
  inv_inflight : forall i r, _remotes s !! i = Some r -> cbHandle r <> None ->
      docBuffer r = [] /\ cursorId r <> 0%Z /\ status r = OK;
  inv_nodup : NoDup (_mergeQueue s);
  inv_queue : forall i, i ∈ _mergeQueue s ->
      sort (_params s) <> [] /\
      exists r, _remotes s !! i = Some r /\ docBuffer r <> [] /\ status r = OK;
  inv_queued : forall i r, _remotes s !! i = Some r -> sort (_params s) <> [] ->
      docBuffer r <> [] -> status r = OK -> i ∈ _mergeQueue s;
  inv_keyed : sort (_params s) <> [] ->
      forall i r, _remotes s !! i = Some r -> Forall keyed (docBuffer r)
}.

(** How the remotes change when follow-up requests are scheduled: a remote
    stays as it is, or it had nothing buffered, was not exhausted, had no
    request outstanding and no error, and now has a request outstanding. *)
Definition scheduling (rs rs' : list RemoteCursorData) : Prop :=
  length rs' = length rs /\
  forall j r, rs !! j = Some r ->
    rs' !! j = Some r
    \/ exists h, rs' !! j = Some (with_cbHandle (Some h) r)
                 /\ status r = OK /\ docBuffer r = [] /\ cursorId r <> 0%Z
                 /\ cbHandle r = None.

(** The documents a response carries, when it is a response at all. *)
Definition batchOf (response : RemoteCommandResponse) : list BSONObj :=
  if isOK (rstatus response) then
    match data response with
    | SWValue cursorResponse => getBatch cursorResponse
    | SWError _ => []
    end
  else [].

(** The status [_processBatchResults] hands to [_cleanUpFailedBatch], if it
    does: the response is an error, or it does not parse, or it names
    another cursor. *)
Definition failed (response : RemoteCommandResponse) (remote : RemoteCursorData)
  : option Status :=
  if negb (isOK (rstatus response)) then Some (rstatus response)
  else match _parseCursorResponse (data response) remote with
       | SWError st => Some st
       | SWValue _ => None
       end.

(** A remote after [_cleanUpFailedBatch]. *)
Definition cleanedUp (allowPartial : bool) (st : Status) (r : RemoteCursorData)
  : RemoteCursorData :=
  if allowPartial then with_cursorId 0 (with_docBuffer [] (with_status OK r))
  else with_status st r.

(** The remotes [_scheduleKillCursors] sends a kill command to, and the
    commands. *)
Definition toKill (remote : RemoteCursorData) : bool :=
  isOK (status remote) && negb (cursorId remote =? 0)%Z && negb (exhausted remote).

Definition killCommands (s : AsyncResultsMerger) (rs : list RemoteCursorData)
  : list Command :=
  (fun remote => KillCursors (nsString (_params s)) [cursorId remote])
    <$> filter (fun remote => toKill remote = true) rs.

Definition commands (ex : TaskExecutor) : list Command :=
  (fun entry => cmdObj (snd entry)) <$> scheduled ex.

(** A call that hands command [cmd] to the executor; a call that hands it
    some command; a call that cancels. *)
Definition dispatches (c : Call) (cmd : Command) : Prop :=
  exists h req, c = Scheduled h req /\ cmdObj req = cmd.

Definition isScheduled (c : Call) : Prop := exists h req, c = Scheduled h req.

Definition isCancelled (c : Call) : Prop := exists h, c = Cancelled h.

(** What every operation but [kill] and the executor's shutdown leaves
    alone: the kill event, whether the executor is shutting down, and the
    fact of not being alive. *)
Definition quiet (s s' : AsyncResultsMerger) : Prop :=
  _killCursorsScheduledEvent s' = _killCursorsScheduledEvent s
  /\ inShutdown (_executor s') = inShutdown (_executor s)
  /\ (_lifecycleState s <> kAlive -> _lifecycleState s' <> kAlive).

Definition outstanding (s : AsyncResultsMerger) : bool :=
  existsb (fun remote => isValid (cbHandle remote)) (_remotes s).

(** The configured ordering, on sort keys, on buffered results and on
    documents: [a] sorts no later than [b].  A result without a sort key
    object is not comparable to anything. *)
Definition key_le (sortSpec k1 k2 : list (string * Z)) : Prop :=
  (woCompare k1 k2 sortSpec <= 0)%Z.

Definition result_le (sortSpec : list (string * Z)) (a b : ClusterQueryResult) : Prop :=
  match sortKeyOf a, sortKeyOf b with
  | Some k1, Some k2 => key_le sortSpec k1 k2
  | _, _ => False
  end.

Definition doc_le (sortSpec : list (string * Z)) (a b : BSONObj) : Prop :=
  result_le sortSpec (Some a) (Some b).

(** The sort key at the head of a remote's buffer. *)
Definition headKey (rs : list RemoteCursorData) (i : nat) : option (list (string * Z)) :=
  match rs !! i with
  | Some r => match docBuffer r with
              | d :: _ => sortKeyOf d
              | [] => None
              end
  | None => None
  end.

(** The documents the responses in [ops] carry for remote [i], and all the
    documents remote [i] delivers: its first batch, then those. *)
Fixpoint future (i : nat) (ops : list Op) : list BSONObj :=
  match ops with
  | [] => []
  | OpResponse j response :: rest =>
      if decide (j = i) then batchOf response ++ future i rest else future i rest
  | _ :: rest => future i rest
  end.

Definition delivered (params : ClusterClientCursorParams) (i : nat) (ops : list Op)
  : list BSONObj :=
  match remotes params !! i with
  | Some remote => getBatch (cursorResponse remote)
  | None => []
  end ++ future i ops.

(** The consumer keeps to the precondition of [nextReady]: it calls it
    only in a state in which [ready()] has answered true. *)
Fixpoint readyBeforeNext (ops : list Op) (s : AsyncResultsMerger) : Prop :=
  match ops with
  | [] => True
  | o :: rest =>
      (o = OpNextReady -> _ready s = Some (true, s))
      /\ match step o s with
         | Some (_, s') => readyBeforeNext rest s'
         | None => True
         end
  end.

(** What one step does to the buffer and cursor id of remote [j], in view
    of the responses still to come: nothing; or [nextReady] takes the head
    of the buffer; or a response for [j] arrives at an empty buffer and
    leaves a prefix of its batch there. *)
Definition evolves (o : Op) (out : Out) (j : nat) (r r1 : RemoteCursorData) : Prop :=
  (docBuffer r1 = docBuffer r /\ cursorId r1 = cursorId r
   /\ forall ops, future j (o :: ops) = future j ops)
  \/ (exists front, o = OpNextReady /\ out = OutNext (SWValue front)
                    /\ docBuffer r = front :: docBuffer r1
                    /\ cursorId r1 = cursorId r)
  \/ (exists response pre, o = OpResponse j response
                           /\ cursorId r <> 0%Z /\ docBuffer r = []
                           /\ pre `prefix_of` batchOf response
                           /\ docBuffer r1 = Some <$> pre).

(** Everything buffered, and everything a remote that is not exhausted
    may still deliver, sorts no earlier than [y]. *)
Definition lowerBound (sortSpec : list (string * Z)) (y : ClusterQueryResult)
    (s : AsyncResultsMerger) (ops : list Op) : Prop :=
  forall i r, _remotes s !! i = Some r ->
    Forall (result_le sortSpec y) (docBuffer r)
    /\ (cursorId r <> 0%Z -> Forall (result_le sortSpec y) (Some <$> future i ops)).

(** Each remote's buffer, followed by what it will deliver, is in order. *)
Definition streamsSorted (sortSpec : list (string * Z)) (s : AsyncResultsMerger)
    (ops : list Op) : Prop :=
  forall i r, _remotes s !! i = Some r ->
    StronglySorted (result_le sortSpec) (docBuffer r ++ (Some <$> future i ops)).

(** The request [_askForNextBatch] builds for a remote. *)
Definition getMoreRequest (s : AsyncResultsMerger) (remote : RemoteCursorData)
  : RemoteCommandRequest :=
  {| target := getTargetHost remote;
     dbname := db (nsString (_params s));
     cmdObj := GetMore (cursorNss remote) (cursorId remote)
                 (adjustBatchSize (batchSize (_params s)) (fetchedCount remote))
                 (_awaitDataTimeout s);
     metadata := _metadataObj s;
     opCtx := _opCtx s |}.

(** ** Notions for the lifecycle, the executor and whole runs *)

(** What the consumer has set and what only [nextReady], [kill] and a
    response to a killed merger change. *)
Definition settings (s : AsyncResultsMerger) :=
  (_opCtx s, _params s, _metadataObj s, _awaitDataTimeout s,
   _gettingFromRemote s, _lifecycleState s, _killCursorsScheduledEvent s).

(** What holds of the lifecycle of every merger that can be reached. *)
Record Life (s : AsyncResultsMerger) : Prop := {
  life_event : _killCursorsScheduledEvent s <> None -> _lifecycleState s <> kAlive;
  life_started : _lifecycleState s = kKillStarted -> outstanding s = true;
  life_complete : _lifecycleState s = kKillComplete -> outstanding s = false;
  life_cursor : _gettingFromRemote s = 0 \/ _gettingFromRemote s < length (_remotes s);
  life_docs : forall i r, _remotes s !! i = Some r ->
      Forall (fun d => d <> None) (docBuffer r)
}.

(** The remote [_nextReadyUnsorted] turns to after remote [g], among
    [size] remotes. *)
Definition nextRemote (size g : nat) : nat := if S g =? size then 0 else S g.

(** A remote as the constructor leaves it: created from the parameters,
    with its first batch buffered. *)
Definition firstRemote (sorted : bool) (remote : RemoteCursor) : RemoteCursorData :=
  appended sorted (getBatch (cursorResponse remote))
    (newRemoteCursorData (hostAndPort remote) (getNSS (cursorResponse remote))
       (getCursorId (cursorResponse remote))).

(** Whether the constructor puts a remote on the merge queue: there is a
    sort, and the first batch is not empty and has a sort key in every
    document. *)
Definition queuedAtStart (sorted : bool) (remote : RemoteCursor) : bool :=
  sorted && negb (isEmpty (getBatch (cursorResponse remote)))
  && forallb (wellFormedFor sorted) (getBatch (cursorResponse remote)).

(** The documents in the buffers, remote by remote. *)
Definition buffered (rs : list RemoteCursorData) : list BSONObj :=
  concat ((fun r => omap id (docBuffer r)) <$> rs).

(** The documents the responses in a run carry, whichever remote they are
    for. *)
Fixpoint incoming (ops : list Op) : list BSONObj :=
  match ops with
  | [] => []
  | OpResponse _ response :: rest => batchOf response ++ incoming rest
  | _ :: rest => incoming rest
  end.

(** The first batches, as the parameters of the constructor have them. *)
Definition firstBatches (params : ClusterClientCursorParams) : list BSONObj :=
  concat ((fun remote => getBatch (cursorResponse remote)) <$> remotes params).

Definition isGetMoreCommand (cmd : Command) : bool :=
  match cmd with GetMore _ _ _ _ => true | KillCursors _ _ => false end.

(** The getMore commands handed to the executor so far. *)
Definition getMores (ex : TaskExecutor) : list Command :=
  filter (fun cmd => isGetMoreCommand cmd = true) (commands ex).

(** An executor whose signalled events are events it has made, each
    signalled once. *)
Definition tidy (ex : TaskExecutor) : Prop :=
  (forall e, e ∈ signalled ex -> e < nextId ex) /\ NoDup (signalled ex).

(** What holds of the events of a merger that can be reached from a tidy
    executor. *)
Record Events (s : AsyncResultsMerger) : Prop := {
  ev_tidy : tidy (_executor s);
  ev_current : forall e, _currentEvent s = Some e ->
      e < nextId (_executor s) /\ e ∉ signalled (_executor s);
  ev_kill : forall e, _killCursorsScheduledEvent s = Some e ->
      e < nextId (_executor s)
      /\ (e ∈ signalled (_executor s) -> _lifecycleState s = kKillComplete);
  ev_distinct : forall e, _currentEvent s = Some e ->
      _killCursorsScheduledEvent s <> Some e
}.

(** The executor has accepted calls, none of them a signal. *)
Definition grows (ex ex' : TaskExecutor) : Prop :=
  nextId ex <= nextId ex' /\ signalled ex' = signalled ex.

(** A remote [nextEvent] asks for its next batch: nothing buffered, not
    exhausted, no request outstanding. *)
Definition needsBatch (remote : RemoteCursorData) : bool :=
  negb (hasNext remote) && negb (exhausted remote) && negb (isValid (cbHandle remote)).

(** ** Concrete mergers, for examples *)

Definition ns : NamespaceString := {| db := "test"; coll := "c" |}.

(** A document with sort key [{"": k}], and one without a sort key. *)
Definition doc (k : Z) : BSONObj :=
  [("x", NumberLong k); (kSortKeyField, Object [("", k)])].

Definition nokey (k : Z) : BSONObj := [("x", NumberLong k)].

Definition shard (host : string) (cursorid : Z) (batch : list BSONObj) : RemoteCursor :=
  {| hostAndPort := host;
     cursorResponse := {| getNSS := ns; getCursorId := cursorid; getBatch := batch |} |}.

Definition idle : TaskExecutor :=
  {| inShutdown := false; nextId := 0; calls := [] |}.

Definition reply (cursorid : Z) (batch : list BSONObj) : RemoteCommandResponse :=
  {| rstatus := OK;
     data := SWValue {| getNSS := ns; getCursorId := cursorid; getBatch := batch |} |}.


Definition failure (st : Status) : RemoteCommandResponse :=
  {| rstatus := st; data := SWError st |}.

Definition mkParams (rs : list RemoteCursor) (sortSpec : list (string * Z))
    (cap : option Z) (tm : TailableMode) (partial : bool) : ClusterClientCursorParams :=
  {| nsString := ns; remotes := rs; sort := sortSpec; batchSize := cap;
     tailableMode := tm; isAllowPartialResults := partial; readPreference := None |}.

(** A merger built from parameters, then driven through [ops]. *)
Definition driven (params : ClusterClientCursorParams) (ops : list Op)
  : option (list Out * AsyncResultsMerger) :=
  match newAsyncResultsMerger (Some 0) idle params with
  | Some s => runOps ops s
  | None => None
  end.

Definition ascending : list (string * Z) := [("k", 1%Z)].

(** The merger built from [params] by the idle executor, and the merger and
    outputs after driving it through [ops]. *)
Definition started (params : ClusterClientCursorParams) : AsyncResultsMerger :=
  default (emptyMerger (Some 0) idle params)
          (newAsyncResultsMerger (Some 0) idle params).

Definition after (params : ClusterClientCursorParams) (ops : list Op)
  : AsyncResultsMerger :=
  match runOps ops (started params) with
  | Some (_, s) => s
  | None => started params
  end.

Definition outputs (params : ClusterClientCursorParams) (ops : list Op) : list Out :=
  match runOps ops (started params) with
  | Some (outs, _) => outs
  | None => []
  end.

(** Three shards with first batches [1,5], [2] and [4,6], merged in
    ascending order; the consumer drains what is ready, waits for shard B,
    and drains again. *)
Definition threeShards : ClusterClientCursorParams :=
  mkParams [shard "A" 11 [doc 1; doc 5]; shard "B" 12 [doc 2];
            shard "C" 13 [doc 4; doc 6]]
           ascending None kNormal false.

Definition drainThree : list Op :=
  [OpReady; OpNextReady; OpReady; OpNextReady; OpReady; OpNextEvent;
   OpResponse 1 (reply 0 [doc 3]);
   OpReady; OpNextReady; OpReady; OpNextReady; OpReady; OpNextReady;
   OpReady; OpNextEvent; OpResponse 0 (reply 0 []);
   OpReady; OpNextReady].

(** One shard, unsorted, with a batch size of 2 and a full first batch; the
    consumer drains it and asks for more. *)
Definition capped : ClusterClientCursorParams :=
  mkParams [shard "A" 11 [doc 1; doc 2]] [] (Some 2%Z) kNormal false.

Definition drainCapped : list Op :=
  [OpReady; OpNextReady; OpReady; OpNextReady; OpReady; OpNextEvent].

(** One shard, sorted, whose first batch has a document without sort key
    in second place. *)
Definition brokenBatch : ClusterClientCursorParams :=
  mkParams [shard "A" 11 [doc 1; nokey 2]] ascending None kNormal false.

(** One shard with an empty first batch; the first follow-up request
    fails with a network error. *)
Definition oneShard (partial : bool) : ClusterClientCursorParams :=
  mkParams [shard "A" 11 []] [] None kNormal partial.

(** Two shards, unsorted; A has a document buffered, B has nothing yet. *)
Definition twoShards : ClusterClientCursorParams :=
  mkParams [shard "A" 11 [doc 1]; shard "B" 12 []] [] None kNormal false.

Definition failFirst : list Op :=
  [OpNextEvent; OpResponse 0 (failure HostUnreachable)].

(** One shard, sorted, with [allowPartialResults] and an empty first
    batch; the reply to the first follow-up request is well formed, but its
    second document has no sort key. *)
Definition sortedPartial : ClusterClientCursorParams :=
  mkParams [shard "A" 11 []] ascending None kNormal true.

Definition badReply : list Op :=
  [OpNextEvent; OpResponse 0 (reply 11 [doc 2; nokey 3])].

(** The executor shuts down while the first follow-up request is
    outstanding; the reply is well formed and empty, so the merger asks
    again and is refused. *)
Definition refused : list Op :=
  [OpNextEvent; OpExecutorShutdown; OpResponse 0 (reply 11 [])].

(** One shard behind a tailable cursor, with a first batch of two
    documents. *)
Definition tailing : ClusterClientCursorParams :=
  mkParams [shard "A" 11 [doc 1; doc 2]] [] None kTailable false.

(** The consumer asks for more from shard B of [twoShards] and then
    kills the merger while that request is outstanding. *)
Definition killWaiting : list Op := [OpNextEvent; OpKill None].

(** * Properties *)

Ltac unfoldM :=
  cbv beta iota delta
    [bind ret gets modify invariant defined when liftExec hasSortM].

Ltac unfoldM_in H :=
  cbv beta iota delta
    [bind ret gets modify invariant defined when liftExec hasSortM] in H.

(** ** Readiness *)

Lemma isOK_true (st : Status) : isOK st = true <-> st = OK.
Proof. unfold isOK. apply bool_decide_eq_true. Qed.

Lemma isOK_false (st : Status) : isOK st = false <-> st <> OK.
Proof. unfold isOK. apply bool_decide_eq_false. Qed.

Lemma isEmpty_true {A} (l : list A) : isEmpty l = true <-> l = [].
Proof. destruct l; simpl; split; congruence. Qed.

Lemma isEmpty_false {A} (l : list A) : isEmpty l = false <-> l <> [].
Proof. destruct l; simpl; split; congruence. Qed.

Lemma firstError_None (rs : list RemoteCursorData) :
  firstError rs = None <-> (forall r, r ∈ rs -> status r = OK).
Proof.
  induction rs as [|r rs IH]; simpl.
  - split; [intros _ r Hr; inversion Hr | done].
  - destruct (isOK (status r)) eqn:E; simpl.
    + apply isOK_true in E. rewrite IH. split.
      * intros H r' Hr'. apply elem_of_cons in Hr' as [->|Hr']; auto.
      * intros H r' Hr'. apply H. by right.
    + apply isOK_false in E. split; [done|].
      intros H. exfalso. apply E, H. by left.
Qed.

Lemma firstError_Some (rs : list RemoteCursorData) (st : Status) :
  firstError rs = Some st -> st <> OK /\ exists r, r ∈ rs /\ status r = st.
Proof.
  induction rs as [|r rs IH]; simpl; [done|].
  destruct (isOK (status r)) eqn:E; simpl.
  - intros H. destruct (IH H) as (Hne & r' & Hin & Hst).
    split; [done|]. exists r'. split; [by right|done].
  - intros [= <-]. apply isOK_false in E. split; [done|].
    exists r. split; [by left|done].
Qed.

Lemma readySorted_all (rs : list RemoteCursorData) :
  forallb (fun remote => negb (negb (hasNext remote) && negb (exhausted remote))) rs = true
  <-> (forall r, r ∈ rs -> hasNext r = true \/ exhausted r = true).
Proof.
  rewrite forallb_forall. split.
  - intros H r Hr. apply list_elem_of_In in Hr. specialize (H r Hr).
    destruct (hasNext r), (exhausted r); simpl in H; auto.
  - intros H r Hr. apply list_elem_of_In in Hr.
    destruct (H r Hr) as [-> | ->]; simpl; [done|].
    by destruct (hasNext r).
Qed.

Lemma readyUnsorted_loop_spec (rs : list RemoteCursorData) (b : bool) :
  readyUnsorted_loop rs b = true
  <-> (exists r, r ∈ rs /\ hasNext r = true)
      \/ (b = true /\ forall r, r ∈ rs -> exhausted r = true).
Proof.
  revert b. induction rs as [|r rs IH]; intros b; simpl.
  - split.
    + intros ->. right. split; [done|]. intros r Hr. inversion Hr.
    + intros [(r & Hr & _) | [-> _]]; [inversion Hr | done].
  - destruct (hasNext r) eqn:Hn.
    + split; [|done]. intros _. left. exists r. split; [by left|done].
    + rewrite IH. split.
      * intros [(r' & Hr' & Hn') | [Hb Hall]].
        -- left. exists r'. split; [by right|done].
        -- right. destruct (exhausted r) eqn:He; simpl in Hb; [|done].
           split; [done|]. intros r' Hr'.
           apply elem_of_cons in Hr' as [->|Hr']; auto.
      * intros [(r' & Hr' & Hn') | [-> Hall]].
        -- apply elem_of_cons in Hr' as [->|Hr']; [congruence|].
           left. by exists r'.
        -- right. rewrite (Hall r) by (by left). simpl. split; [done|].
           intros r' Hr'. apply Hall. by right.
Qed.

(** C4.  In a live engine with no pending end-of-batch marker and no
    failed remote, [ready()] returns, changes nothing, and answers: with
    a sort (and, as the data model requires, no tailable mode), true
    exactly when every remote has a buffered document or is exhausted;
    without a sort, true exactly when some remote has a buffered document
    or all remotes are exhausted. *)
Theorem ready_rules (s : AsyncResultsMerger) :
  _lifecycleState s = kAlive ->
  _eofNext s = false ->
  (forall r, r ∈ _remotes s -> status r = OK) ->
  (sort (_params s) <> [] -> tailableMode (_params s) = kNormal ->
   exists b, ready s = Some (b, s) /\
     (b = true <-> forall r, r ∈ _remotes s -> hasNext r = true \/ exhausted r = true))
  /\
  (sort (_params s) = [] ->
   exists b, ready s = Some (b, s) /\
     (b = true <-> (exists r, r ∈ _remotes s /\ hasNext r = true)
                   \/ (forall r, r ∈ _remotes s -> exhausted r = true))).
Proof.
  intros Hlc Heof Hok.
  apply firstError_None in Hok.
  split.
  - intros Hsort Htm. eexists. split.
    + unfold ready, _ready, _readySorted. unfoldM.
      rewrite Hlc. simpl. rewrite Heof, Hok.
      apply isEmpty_false in Hsort. rewrite Hsort. simpl.
      rewrite Htm. simpl. reflexivity.
    + apply readySorted_all.
  - intros Hsort. eexists. split.
    + unfold ready, _ready, _readyUnsorted. unfoldM.
      rewrite Hlc. simpl. rewrite Heof, Hok, Hsort. simpl. reflexivity.
    + rewrite readyUnsorted_loop_spec. split.
      * intros [H | [_ H]]; auto.
      * intros [H | H]; auto.
Qed.

(** ** Bookkeeping on records *)

Lemma set_remotes_same (s : AsyncResultsMerger) : set_remotes (_remotes s) s = s.
Proof. by destruct s. Qed.

Lemma set_executor_same (s : AsyncResultsMerger) : set_executor (_executor s) s = s.
Proof. by destruct s. Qed.

Lemma set_mergeQueue_same (s : AsyncResultsMerger) : set_mergeQueue (_mergeQueue s) s = s.
Proof. by destruct s. Qed.

Lemma updRemote_Some (i : nat) (f : RemoteCursorData -> RemoteCursorData)
    (s : AsyncResultsMerger) (r : RemoteCursorData) :
  _remotes s !! i = Some r ->
  updRemote i f s = Some (tt, set_remotes (<[i := f r]> (_remotes s)) s).
Proof. intros H. unfold updRemote, remoteAt. unfoldM. by rewrite H. Qed.

Lemma updRemote_inv (i : nat) (f : RemoteCursorData -> RemoteCursorData)
    (s s' : AsyncResultsMerger) (u : unit) :
  updRemote i f s = Some (u, s') ->
  exists r, _remotes s !! i = Some r /\ s' = set_remotes (<[i := f r]> (_remotes s)) s.
Proof.
  unfold updRemote, remoteAt. unfoldM.
  destruct (_remotes s !! i) as [r|] eqn:E; [|done].
  intros [= _ <-]. by exists r.
Qed.

(** ** Appending a batch *)

Lemma addBatch_loop_spec (i : nat) (batch : list BSONObj) (s : AsyncResultsMerger)
    (r : RemoteCursorData) :
  _remotes s !! i = Some r ->
  addBatch_loop i batch s =
    Some (forallb (wellFormedFor (hasSort s)) batch,
          set_remotes (<[i := appended (hasSort s) batch r]> (_remotes s)) s).
Proof.
  revert s r. induction batch as [|obj rest IH]; intros s r Hr.
  - simpl. unfold ret, appended. simpl. f_equal. f_equal.
    rewrite <- (set_remotes_same s) at 1. f_equal.
    symmetry. apply list_insert_id. rewrite Hr. f_equal.
    destruct r; unfold with_fetchedCount, with_docBuffer; simpl.
    f_equal; [by rewrite app_nil_r | lia].
  - simpl. unfoldM. fold (hasSort s).
    assert (Hw : hasSort s
                 && negb (bool_decide (type (getField obj kSortKeyField) = tObject))
                 = negb (wellFormedFor (hasSort s) obj)).
    { unfold wellFormedFor. by rewrite negb_involutive. }
    rewrite Hw. unfold appended. simpl.
    destruct (wellFormedFor (hasSort s) obj) eqn:Hwf; simpl; cycle 1.
    + rewrite (updRemote_Some _ _ _ _ Hr). f_equal. f_equal. f_equal. f_equal.
      destruct r; unfold with_status, with_fetchedCount, with_docBuffer; simpl.
      f_equal; [by rewrite app_nil_r | lia].
    + rewrite (updRemote_Some _ _ _ _ Hr).
      set (r1 := with_fetchedCount _ _).
      set (s1 := set_remotes _ s).
      assert (Hr1 : _remotes s1 !! i = Some r1).
      { subst s1. simpl. apply list_lookup_insert_eq. by eapply lookup_lt_Some. }
      rewrite (IH s1 r1 Hr1).
      assert (Hs : hasSort s1 = hasSort s) by done. rewrite Hs.
      f_equal. f_equal. subst s1. simpl.
      rewrite list_insert_insert_eq. unfold set_remotes. simpl. f_equal. f_equal.
      unfold appended. subst r1.
      destruct (forallb (wellFormedFor (hasSort s)) rest);
        destruct r; unfold with_status, with_fetchedCount, with_docBuffer; simpl;
        rewrite <- app_assoc; simpl; f_equal; lia.
Qed.

Lemma addBatchToBuffer_spec (i : nat) (batch : list BSONObj) (s : AsyncResultsMerger)
    (r : RemoteCursorData) :
  _remotes s !! i = Some r ->
  _addBatchToBuffer i batch s =
    let ok := forallb (wellFormedFor (hasSort s)) batch in
    let s1 := set_remotes (<[i := appended (hasSort s) batch r]> (_remotes s)) s in
    Some (ok, if ok && (hasSort s && negb (isEmpty batch))
              then set_mergeQueue (pq_push i (_mergeQueue s)) s1
              else s1).
Proof.
  intros Hr. unfold _addBatchToBuffer, remoteAt. unfoldM. rewrite Hr.
  rewrite (addBatch_loop_spec _ _ _ _ Hr). simpl.
  destruct (forallb (wellFormedFor (hasSort s)) batch); simpl; [|done].
  fold (hasSort s). by destruct (hasSort s && negb (isEmpty batch)).
Qed.

Lemma accepted_split (batch : list BSONObj) :
  forallb (wellFormedFor true) batch = false ->
  exists bad rest,
    batch = accepted true batch ++ bad :: rest
    /\ type (getField bad kSortKeyField) <> tObject
    /\ Forall (fun obj => type (getField obj kSortKeyField) = tObject)
              (accepted true batch).
Proof.
  induction batch as [|obj batch IH]; simpl; [done|].
  destruct (wellFormedFor true obj) eqn:E; simpl.
  - intros H. destruct (IH H) as (bad & rest & Heq & Hbad & Hall).
    exists bad, rest. split; [by f_equal|]. split; [done|].
    constructor; [|done].
    unfold wellFormedFor in E. simpl in E. apply negb_true_iff, negb_false_iff in E.
    by apply bool_decide_eq_true in E.
  - intros _. exists obj, batch. split; [done|]. split; [|constructor].
    unfold wellFormedFor in E. simpl in E. apply negb_false_iff, negb_true_iff in E.
    by apply bool_decide_eq_false in E.
Qed.

Lemma forallb_wellFormed_false (batch : list BSONObj) :
  (exists obj, obj ∈ batch /\ type (getField obj kSortKeyField) <> tObject) ->
  forallb (wellFormedFor true) batch = false.
Proof.
  intros (obj & Hin & Hty).
  destruct (forallb (wellFormedFor true) batch) eqn:E; [|done].
  rewrite forallb_forall in E. apply list_elem_of_In in Hin.
  specialize (E obj Hin). unfold wellFormedFor in E. simpl in E.
  apply negb_true_iff, negb_false_iff, bool_decide_eq_true in E. done.
Qed.

(** C2, as the code has it.  With a sort configured, a batch in which some
    document has no object under the sort-key field makes
    [_addBatchToBuffer] return false with the remote's status set to
    [InternalError] and the merge queue untouched; the append stops at the
    first such document, so that the documents of the batch before it are
    in the buffer and counted, and that one and those after it are not. *)
Theorem addBatch_missing_sort_key (s : AsyncResultsMerger) (i : nat)
    (r : RemoteCursorData) (batch : list BSONObj) :
  _remotes s !! i = Some r ->
  sort (_params s) <> [] ->
  (exists obj, obj ∈ batch /\ type (getField obj kSortKeyField) <> tObject) ->
  exists s' r' bad rest,
    _addBatchToBuffer i batch s = Some (false, s')
    /\ _mergeQueue s' = _mergeQueue s
    /\ _remotes s' = <[i := r']> (_remotes s)
    /\ status r' = InternalError
    /\ batch = accepted true batch ++ bad :: rest
    /\ type (getField bad kSortKeyField) <> tObject
    /\ Forall (fun obj => type (getField obj kSortKeyField) = tObject) (accepted true batch)
    /\ docBuffer r' = docBuffer r ++ (Some <$> accepted true batch)
    /\ fetchedCount r' = (fetchedCount r + Z.of_nat (length (accepted true batch)))%Z.
Proof.
  intros Hr Hsort Hbad.
  assert (Hs : hasSort s = true).
  { unfold hasSort. apply isEmpty_false in Hsort. by rewrite Hsort. }
  pose proof (forallb_wellFormed_false _ Hbad) as Hf.
  destruct (accepted_split _ Hf) as (bad & rest & Heq & Hty & Hall).
  rewrite (addBatchToBuffer_spec _ _ _ _ Hr). rewrite Hs, Hf. simpl.
  eexists _, _, bad, rest. split; [reflexivity|]. simpl.
  split; [done|]. split; [reflexivity|].
  unfold appended. rewrite Hf. simpl. done.
Qed.

(** ** [nextReady] *)

(** C8.  [nextReady()] looks at the lifecycle first, then at the latched
    status, then at the end-of-batch flag, and only then extracts a
    document; and the status that [ready()] latches is what the next
    [nextReady()] returns. *)
Theorem nextReady_order (s : AsyncResultsMerger) :
  (_lifecycleState s <> kAlive ->
   nextReady s = Some (SWError IllegalOperation, s))
  /\ (_lifecycleState s = kAlive -> _status s <> OK ->
      nextReady s = Some (SWError (_status s), s))
  /\ (_lifecycleState s = kAlive -> _status s = OK -> _eofNext s = true ->
      nextReady s = Some (SWValue None, set_eofNext false s))
  /\ (_lifecycleState s = kAlive -> _status s = OK -> _eofNext s = false ->
      nextReady s =
        match (if hasSort s then _nextReadySorted s else _nextReadyUnsorted s) with
        | Some (res, s') => Some (SWValue res, s')
        | None => None
        end)
  /\ (_lifecycleState s = kAlive -> _eofNext s = false ->
      forall st, firstError (_remotes s) = Some st ->
      st <> OK
      /\ ready s = Some (true, set_status st s)
      /\ nextReady (set_status st s) = Some (SWError st, set_status st s)).
Proof.
  unfold nextReady, ready, _ready. unfoldM. fold (hasSort s).
  repeat split.
  - intros Hlc. apply (bool_decide_eq_false_2 (_lifecycleState s = kAlive)) in Hlc.
    by rewrite Hlc.
  - intros -> Hst. simpl. apply isOK_false in Hst. by rewrite Hst.
  - intros -> Hst Heof. simpl. apply isOK_true in Hst. rewrite Hst. simpl.
    by rewrite Heof.
  - intros -> Hst Heof. simpl. apply isOK_true in Hst. rewrite Hst. simpl.
    rewrite Heof. unfold hasSort. by destruct (negb (isEmpty (sort (_params s)))).
  - by apply firstError_Some in H1 as [? _].
  - rewrite H. simpl. rewrite H0. by rewrite H1.
  - simpl. rewrite H. simpl. apply firstError_Some in H1 as [Hne _].
    apply isOK_false in Hne. by rewrite Hne.
Qed.

(** ** The executor's log *)

Lemma scheduleRemoteCommand_accepted (req : RemoteCommandRequest) (ex : TaskExecutor) :
  inShutdown ex = false ->
  scheduleRemoteCommand req ex
  = (SWValue (nextId ex), draw (accept (Scheduled (nextId ex) req) ex))
  /\ calls (snd (scheduleRemoteCommand req ex)) = calls ex ++ [Scheduled (nextId ex) req]
  /\ scheduled (snd (scheduleRemoteCommand req ex)) = scheduled ex ++ [(nextId ex, req)]
  /\ signalled (snd (scheduleRemoteCommand req ex)) = signalled ex
  /\ inShutdown (snd (scheduleRemoteCommand req ex)) = false.
Proof.
  intros Hsd. unfold scheduleRemoteCommand, scheduled, signalled. rewrite Hsd. simpl.
  rewrite !omap_app. simpl. by rewrite app_nil_r.
Qed.

Lemma signalled_signalEvent (e : nat) (ex : TaskExecutor) :
  signalled (signalEvent (Some e) ex) = signalled ex ++ [e]
  /\ scheduled (signalEvent (Some e) ex) = scheduled ex.
Proof.
  unfold signalled, scheduled. simpl. rewrite !omap_app. simpl. by rewrite app_nil_r.
Qed.

Lemma makeEvent_accepted (ex ex' : TaskExecutor) (e : nat) :
  makeEvent ex = (SWValue e, ex') ->
  e = nextId ex /\ inShutdown ex = false /\ inShutdown ex' = false
  /\ calls ex' = calls ex ++ [MadeEvent e]
  /\ signalled ex' = signalled ex /\ scheduled ex' = scheduled ex.
Proof.
  unfold makeEvent, signalled, scheduled. destruct (inShutdown ex) eqn:Hsd; [done|].
  intros [= <- <-]. simpl. rewrite !omap_app. simpl. by rewrite !app_nil_r.
Qed.

Lemma cancel_views (h : CallbackHandle) (ex : TaskExecutor) :
  signalled (cancel h ex) = signalled ex /\ scheduled (cancel h ex) = scheduled ex.
Proof.
  destruct h as [c|]; [|done]. unfold signalled, scheduled. simpl.
  rewrite !omap_app. simpl. by rewrite !app_nil_r.
Qed.

(** ** Scheduling a follow-up request *)

Lemma askForNextBatch_inv (i : nat) (s s' : AsyncResultsMerger) (st : Status) :
  _askForNextBatch i s = Some (st, s') ->
  exists r, _remotes s !! i = Some r /\ cbHandle r = None /\
    ((inShutdown (_executor s) = true /\ st = ShutdownInProgress /\ s' = s)
     \/ (inShutdown (_executor s) = false /\ st = OK /\
         s' = set_remotes
                (<[i := with_cbHandle (Some (nextId (_executor s))) r]> (_remotes s))
                (set_executor
                   (snd (scheduleRemoteCommand (getMoreRequest s r) (_executor s))) s))).
Proof.
  unfold _askForNextBatch, remoteAt. unfoldM.
  destruct (_remotes s !! i) as [r|] eqn:Hr; [|done].
  destruct (cbHandle r) as [h|] eqn:Hcb; simpl; [done|].
  fold (getMoreRequest s r).
  unfold scheduleRemoteCommand.
  destruct (inShutdown (_executor s)) eqn:Hsd; simpl.
  - intros [= <- <-]. exists r. split; [done|]. split; [done|]. left.
    by rewrite set_executor_same.
  - rewrite updRemote_Some with (r := r) by done. simpl.
    intros [= <- <-]. exists r. split; [done|]. split; [done|]. right. done.
Qed.

(** C1, as the code has it.  The follow-up request asks for [B - fetched]
    documents when the remote has delivered fewer than the cap [B], and
    for [B] again once it has delivered [B] or more (and names no size
    when there is no cap).  While [fetched < B] that is at least one
    document and exactly what remains under the cap, so a remote that
    answers with no more than it was asked for stays within [B]. *)
Theorem follow_up_batch_size (s s' : AsyncResultsMerger) (i : nat)
    (r : RemoteCursorData) :
  _remotes s !! i = Some r ->
  _askForNextBatch i s = Some (OK, s') ->
  exists h req requested,
    scheduled (_executor s') = scheduled (_executor s) ++ [(h, req)]
    /\ cmdObj req = GetMore (cursorNss r) (cursorId r) requested (_awaitDataTimeout s)
    /\ match batchSize (_params s) with
       | None => requested = None
       | Some B =>
           requested = Some (if (fetchedCount r <? B)%Z
                             then (B - fetchedCount r)%Z else B)
           /\ ((fetchedCount r < B)%Z ->
               forall sorted batch n,
                 requested = Some n ->
                 (1 <= n)%Z /\
                 ((Z.of_nat (length batch) <= n)%Z ->
                  (fetchedCount (appended sorted batch r) <= B)%Z))
       end.
Proof.
  intros Hr Hask.
  apply askForNextBatch_inv in Hask as (r0 & Hr0 & Hcb & [(_ & Hst & _) | (Hsd & _ & ->)]);
    [done|].
  assert (r0 = r) as -> by congruence.
  exists (nextId (_executor s)), (getMoreRequest s r).
  exists (adjustBatchSize (batchSize (_params s)) (fetchedCount r)).
  split.
  { simpl. by apply scheduleRemoteCommand_accepted. }
  split; [done|].
  destruct (batchSize (_params s)) as [B|]; simpl; [|done].
  split.
  - rewrite Z.gtb_ltb. by destruct (fetchedCount r <? B)%Z.
  - intros Hlt sorted batch n. rewrite Z.gtb_ltb.
    destruct (Z.ltb_spec (fetchedCount r) B); [|lia].
    intros [= <-]. split; [lia|]. intros Hlen.
    assert (Hacc : length (accepted sorted batch) <= length batch).
    { clear. induction batch as [|obj batch IH]; simpl; [lia|].
      destruct (wellFormedFor sorted obj); simpl; lia. }
    unfold appended.
    destruct (forallb (wellFormedFor sorted) batch); simpl; lia.
Qed.

(** ** Functions that leave the merge state alone *)

Ltac destr_in H :=
  match type of H with
  | context [match ?x with _ => _ end] =>
      lazymatch x with
      | context [match _ with _ => _ end] => fail
      | _ => destruct x eqn:?
      end
  end.

Ltac monad_inv H :=
  unfoldM_in H;
  repeat (first [discriminate H | progress (cbv beta in H) | destr_in H]).

Ltac core_solve :=
  intros; simplify_eq; unfold core in *; simpl in *; congruence.

Lemma ready_inv (s s' : AsyncResultsMerger) (b : bool) :
  _ready s = Some (b, s') -> exists st, s' = set_status st s.
Proof.
  unfold _ready, _readySorted, _readyUnsorted. intros H. monad_inv H;
    injection H as <- <-; eauto; exists (_status s); by destruct s.
Qed.

Lemma ready_core (s s' : AsyncResultsMerger) (b : bool) :
  _ready s = Some (b, s') -> core s' = core s.
Proof. intros H. apply ready_inv in H as [st ->]. done. Qed.

(** Asking again gives the same answer and changes nothing more. *)
Lemma ready_idempotent (s s' : AsyncResultsMerger) (b : bool) :
  _ready s = Some (b, s') -> _ready s' = Some (b, s').
Proof.
  unfold _ready, _readySorted, _readyUnsorted. unfoldM.
  destruct (negb (bool_decide (_lifecycleState s = kAlive))) eqn:Hlc; simpl.
  { intros [= <- <-]. by rewrite Hlc. }
  destruct (_eofNext s) eqn:Heof; simpl.
  { intros [= <- <-]. by rewrite Hlc, Heof. }
  destruct (firstError (_remotes s)) as [st|] eqn:Hfe; simpl.
  { intros [= <- <-]. simpl. rewrite Hlc. simpl. rewrite Heof. simpl. by rewrite Hfe. }
  destruct (negb (isEmpty (sort (_params s)))) eqn:Hs; simpl.
  - destruct (bool_decide (tailableMode (_params s) = kNormal)) eqn:Htm; simpl; [|done].
    intros [= <- <-]. rewrite Hlc. simpl. rewrite Heof. simpl. rewrite Hfe, Hs. simpl.
    by rewrite Htm.
  - intros [= <- <-]. rewrite Hlc. simpl. rewrite Heof. simpl. by rewrite Hfe, Hs.
Qed.

Lemma signalCurrentEventIfReady_core (s s' : AsyncResultsMerger) (u : unit) :
  _signalCurrentEventIfReady s = Some (u, s') -> core s' = core s.
Proof.
  unfold _signalCurrentEventIfReady. unfold bind at 1.
  destruct (_ready s) as [[b s1]|] eqn:Hr; [|done].
  apply ready_core in Hr. intros H.
  monad_inv H; simplify_eq; unfold core; simpl; congruence.
Qed.

Lemma scheduleKillCursors_loop_core (opCtx : option nat) (rs : list RemoteCursorData)
    (s s' : AsyncResultsMerger) (u : unit) :
  scheduleKillCursors_loop opCtx rs s = Some (u, s') -> core s' = core s.
Proof.
  revert s. induction rs as [|r rs IH]; intros s; simpl; unfoldM.
  - core_solve.
  - destruct (negb (isValid (cbHandle r))); [|done].
    destruct (isOK (status r) && negb (cursorId r =? 0)%Z && negb (exhausted r)).
    + destruct (scheduleRemoteCommand _ _) as [a ex]. intros H. by apply IH in H.
    + apply IH.
Qed.

Lemma scheduleKillCursors_core (opCtx : option nat) (s s' : AsyncResultsMerger)
    (u : unit) :
  _scheduleKillCursors opCtx s = Some (u, s') -> core s' = core s.
Proof.
  unfold _scheduleKillCursors. unfoldM.
  destruct (bool_decide _); [|done]. destruct (isValid _); [|done].
  apply scheduleKillCursors_loop_core.
Qed.

Lemma cleanUpKilledBatch_core (s s' : AsyncResultsMerger) (u : unit) :
  _cleanUpKilledBatch s = Some (u, s') -> core s' = core s.
Proof.
  unfold _cleanUpKilledBatch, _haveOutstandingBatchRequests. unfoldM.
  destruct (bool_decide _); [|done].
  destruct (negb _); [|core_solve].
  destruct (isValid _); [|core_solve].
  destruct (_scheduleKillCursors _ s) as [[u1 s1]|] eqn:Hk; [|done].
  apply scheduleKillCursors_core in Hk. core_solve.
Qed.

Lemma kill_core (opCtx : option nat) (s s' : AsyncResultsMerger) (e : EventHandle) :
  kill opCtx s = Some (e, s') -> core s' = core s.
Proof.
  unfold kill, _haveOutstandingBatchRequests, cancelOutstanding. unfoldM.
  destruct (isValid (_killCursorsScheduledEvent s)).
  { destruct (negb _); [|done]. core_solve. }
  simpl. destruct (makeEvent (_executor s)) as [[ev|st] ex]; simpl.
  - destruct (negb _); simpl; [|core_solve].
    destruct (_scheduleKillCursors _ _) as [[u1 s1]|] eqn:Hk; [|done].
    apply scheduleKillCursors_core in Hk. core_solve.
  - destruct (isShutdownError st); [|done].
    destruct (negb _); core_solve.
Qed.

(** ** The queue as a container *)

Lemma remove_one_elem_of (t i : nat) (q : list nat) :
  NoDup q -> (i ∈ remove_one t q <-> i <> t /\ i ∈ q).
Proof.
  induction q as [|y q IH]; simpl; intros Hnd.
  - split; [intros H; inversion H | intros [_ H]; inversion H].
  - apply NoDup_cons in Hnd as [Hy Hnd]. destruct (decide (t = y)) as [->|Hne].
    + split.
      * intros Hi. split; [|by right]. intros ->. done.
      * intros [Hne Hi]. apply elem_of_cons in Hi as [->|Hi]; done.
    + rewrite !elem_of_cons, IH by done. split.
      * intros [->|[? ?]]; split; auto.
      * intros [? [->|?]]; auto.
Qed.

Lemma remove_one_NoDup (t : nat) (q : list nat) : NoDup q -> NoDup (remove_one t q).
Proof.
  induction q as [|y q IH]; simpl; intros Hnd; [done|].
  apply NoDup_cons in Hnd as [Hy Hnd]. destruct (decide (t = y)); [done|].
  apply NoDup_cons. split; [|by apply IH].
  rewrite remove_one_elem_of by done. tauto.
Qed.

Lemma pq_top_elem_of (less : nat -> nat -> option bool) (q : list nat) (t : nat) :
  pq_top less q = Some t -> t ∈ q.
Proof.
  revert t. induction q as [|x q IH]; simpl; intros t; [done|].
  destruct q as [|y q'].
  - intros [= ->]. by left.
  - destruct (pq_top less (y :: q')) as [b|]; [|done].
    destruct (less x b) as [[]|]; intros [= <-]; [right; by apply IH | by left].
Qed.

(** ** The invariant *)

Lemma Inv_core (s s' : AsyncResultsMerger) : core s' = core s -> Inv s -> Inv s'.
Proof.
  unfold core. intros [= Hp Hr Hq] [H1 H2 H3 H4 H5].
  split; rewrite ?Hp, ?Hr, ?Hq; done.
Qed.

(** One remote changes, and the queue follows its buffer. *)
Lemma Inv_update (s s' : AsyncResultsMerger) (g : nat) (r r' : RemoteCursorData) :
  Inv s ->
  _params s' = _params s ->
  _remotes s !! g = Some r ->
  _remotes s' = <[g := r']> (_remotes s) ->
  (cbHandle r' <> None -> docBuffer r' = [] /\ cursorId r' <> 0%Z /\ status r' = OK) ->
  NoDup (_mergeQueue s') ->
  (forall i, i ∈ _mergeQueue s' <->
             (i <> g /\ i ∈ _mergeQueue s)
             \/ (i = g /\ sort (_params s) <> [] /\ docBuffer r' <> [] /\ status r' = OK)) ->
  (sort (_params s) <> [] -> Forall keyed (docBuffer r')) ->
  Inv s'.
Proof.
  intros [H1 H2 H3 H4 H5] Hp Hg Hr Hcb Hnd Hq Hk.
  assert (Hlt : g < length (_remotes s)) by by eapply lookup_lt_Some.
  assert (Hlook : forall i x, _remotes s' !! i = Some x ->
                    (i = g /\ x = r') \/ (i <> g /\ _remotes s !! i = Some x)).
  { intros i x. rewrite Hr. destruct (decide (i = g)) as [->|Hne].
    - rewrite list_lookup_insert_eq by done. intros [= <-]. by left.
    - rewrite list_lookup_insert_ne by done. by right. }
  split; rewrite ?Hp.
  - intros i x Hi Hx. apply Hlook in Hi as [[-> ->]|[_ Hi]]; eauto.
  - done.
  - intros i Hi. apply Hq in Hi as [[Hne Hi]|(-> & Hs & Hb & Hst)].
    + destruct (H3 i Hi) as (Hs & x & Hx & Hb & Hst). split; [done|].
      exists x. rewrite Hr, list_lookup_insert_ne by done. done.
    + split; [done|]. exists r'. rewrite Hr, list_lookup_insert_eq by done. done.
  - intros i x Hi Hs Hb Hst. apply Hq.
    apply Hlook in Hi as [[-> ->]|[Hne Hi]]; [by right | left; eauto].
  - intros Hs i x Hi. apply Hlook in Hi as [[-> ->]|[Hne Hi]]; eauto.
Qed.

(** ** Extraction *)

Lemma nextReadySorted_inv (s s' : AsyncResultsMerger) (res : ClusterQueryResult) :
  _nextReadySorted s = Some (res, s') ->
  tailableMode (_params s) = kNormal /\
  ((_mergeQueue s = [] /\ res = None /\ s' = s) \/
   exists t r rest,
     pq_top (MergingComparator (_remotes s) (sort (_params s))) (_mergeQueue s) = Some t
     /\ _remotes s !! t = Some r
     /\ docBuffer r = res :: rest
     /\ status r = OK
     /\ s' = set_mergeQueue
               (if isEmpty rest then pq_pop t (_mergeQueue s)
                else pq_push t (pq_pop t (_mergeQueue s)))
               (set_remotes (<[t := with_docBuffer rest r]> (_remotes s)) s)).
Proof.
  unfold _nextReadySorted, updRemote, remoteAt. intros H. monad_inv H.
  all: simpl in *; simplify_eq.
  all: split; [by apply bool_decide_eq_true in Heqb|].
  { left. by apply isEmpty_true in Heqb0. }
  all: right.
  all: rewrite list_lookup_insert_eq in Heqo3 by (by eapply lookup_lt_Some).
  all: simplify_eq; simpl in *.
  all: destruct (docBuffer r) as [|front rest] eqn:Hbuf; simplify_eq; simpl in *.
  all: exists n, r, rest; apply isOK_true in Heqb2.
  all: simplify_eq; split_and!; try done.
  all: by destruct rest.
Qed.

Lemma nextReadyUnsorted_loop_inv (todo : nat) (s s' : AsyncResultsMerger)
    (res : ClusterQueryResult) :
  nextReadyUnsorted_loop todo s = Some (res, s') ->
  _params s' = _params s /\ _mergeQueue s' = _mergeQueue s /\
  ((_remotes s' = _remotes s /\ res = None) \/
   exists g r rest,
     _remotes s !! g = Some r
     /\ docBuffer r = res :: rest
     /\ status r = OK
     /\ _remotes s' = <[g := with_docBuffer rest r]> (_remotes s)).
Proof.
  revert s. induction todo as [|todo IH]; intros s; simpl.
  - unfoldM. intros ?. simplify_eq. auto.
  - unfold bind at 1. unfold gets at 1. unfold bind at 1. unfold remoteAt, defined.
    destruct (_remotes s !! _gettingFromRemote s) as [r|] eqn:Hr; [|done].
    unfold bind at 1. unfold invariant at 1.
    destruct (isOK (status r)) eqn:Hst; [|done]. apply isOK_true in Hst.
    unfold hasNext at 1. destruct (docBuffer r) as [|front rest] eqn:Hbuf.
    + unfoldM. intros H. apply IH in H as (Hp & Hq & H). simpl in *.
      split; [done|]. split; [done|]. done.
    + clear IH. unfold updRemote, remoteAt. intros H. monad_inv H.
      all: simpl in *; simplify_eq; simpl.
      all: split; [done|]; split; [done|]; right.
      all: exists (_gettingFromRemote s), r, rest; rewrite Hbuf; done.
Qed.

Lemma nextReady_effect (s s' : AsyncResultsMerger)
    (res : StatusWith ClusterQueryResult) :
  nextReady s = Some (res, s') ->
  _params s' = _params s /\
  ((_remotes s' = _remotes s /\ _mergeQueue s' = _mergeQueue s
    /\ forall obj, res <> SWValue (Some obj))
   \/ exists g r front rest,
        res = SWValue front
        /\ _remotes s !! g = Some r
        /\ docBuffer r = front :: rest
        /\ status r = OK
        /\ _remotes s' = <[g := with_docBuffer rest r]> (_remotes s)
        /\ if hasSort s
           then pq_top (MergingComparator (_remotes s) (sort (_params s)))
                       (_mergeQueue s) = Some g
                /\ _mergeQueue s' =
                     (if isEmpty rest then pq_pop g (_mergeQueue s)
                      else pq_push g (pq_pop g (_mergeQueue s)))
           else _mergeQueue s' = _mergeQueue s).
Proof.
  unfold nextReady. unfoldM.
  destruct (negb (bool_decide (_lifecycleState s = kAlive))).
  { intros ?. simplify_eq. split; [done|]. left. done. }
  destruct (negb (isOK (_status s))).
  { intros ?. simplify_eq. split; [done|]. left. done. }
  destruct (_eofNext s).
  { intros ?. simplify_eq. split; [done|]. left. done. }
  unfold hasSort.
  destruct (negb (isEmpty (sort (_params s)))) eqn:Hs; cbv beta iota.
  - destruct (_nextReadySorted s) as [[res0 s0]|] eqn:Hn; [|done].
    intros ?. simplify_eq.
    apply nextReadySorted_inv in Hn as [_ [(Hq & -> & ->)|(t & r & rest & Ht & Hr & Hb & Hst & ->)]].
    + split; [done|]. left. done.
    + split; [done|]. right. exists t, r, res0, rest. done.
  - unfold _nextReadyUnsorted. unfoldM.
    destruct (nextReadyUnsorted_loop _ s) as [[res0 s0]|] eqn:Hn; [|done].
    intros ?. simplify_eq.
    apply nextReadyUnsorted_loop_inv in Hn as (Hp & Hq & [[Hr ->]|(g & r & rest & Hr & Hb & Hst & Hr')]).
    + split; [done|]. left. done.
    + split; [done|]. right. exists g, r, res0, rest. done.
Qed.

Lemma hasSort_true (s : AsyncResultsMerger) : hasSort s = true <-> sort (_params s) <> [].
Proof. unfold hasSort. rewrite negb_true_iff. apply isEmpty_false. Qed.

Lemma hasSort_false (s : AsyncResultsMerger) : hasSort s = false <-> sort (_params s) = [].
Proof. unfold hasSort. rewrite negb_false_iff. apply isEmpty_true. Qed.

Lemma Inv_nextReady (s s' : AsyncResultsMerger) (res : StatusWith ClusterQueryResult) :
  Inv s -> nextReady s = Some (res, s') -> Inv s'.
Proof.
  intros HI H.
  destruct (nextReady_effect _ _ _ H)
    as [Hp [(Hr & Hq & _) | (g & r & front & rest & -> & Hg & Hb & Hst & Hr' & Hqq)]].
  { eapply Inv_core; [|done]. unfold core. congruence. }
  assert (Hq : forall i, i ∈ _mergeQueue s -> sort (_params s) <> []).
  { intros i Hi. by destruct (inv_queue _ HI i Hi). }
  eapply Inv_update with (g := g) (r := r) (r' := with_docBuffer rest r); eauto.
  - simpl. intros Hcb. destruct (inv_inflight _ HI g r Hg Hcb) as [Hbe _]. congruence.
  - destruct (hasSort s); [|rewrite Hqq; apply HI].
    destruct Hqq as [_ ->]. pose proof (remove_one_NoDup g _ (inv_nodup _ HI)) as Hnd.
    destruct (isEmpty rest); [done|]. unfold pq_push, pq_pop.
    apply NoDup_app. split; [done|]. split; [|apply NoDup_singleton].
    intros x Hx Hx'. apply list_elem_of_singleton in Hx' as ->.
    apply remove_one_elem_of in Hx; [tauto | apply HI].
  - intros i. simpl. destruct (hasSort s) eqn:Hs.
    + apply hasSort_true in Hs. destruct Hqq as [Ht ->].
      unfold pq_push, pq_pop. destruct rest as [|d rest]; simpl.
      * rewrite remove_one_elem_of by apply HI. split; [tauto|].
        intros [?|(_ & _ & ? & _)]; tauto.
      * rewrite elem_of_app, list_elem_of_singleton, remove_one_elem_of by apply HI.
        split; [intros [?| ->]; [tauto | by right] | intros [?|[-> _]]; tauto].
    + apply hasSort_false in Hs. rewrite Hqq. split.
      * intros Hi. by apply Hq in Hi.
      * intros [[_ Hi]|(_ & ? & _)]; [by apply Hq in Hi | done].
  - intros Hs. simpl. pose proof (inv_keyed _ HI Hs g r Hg) as Hk.
    rewrite Hb in Hk. by apply Forall_cons in Hk as [_ Hk].
Qed.

(** ** Scheduling *)

Lemma scheduling_refl (rs : list RemoteCursorData) : scheduling rs rs.
Proof. split; [done|]. intros j r Hr. by left. Qed.

Lemma scheduling_trans (rs1 rs2 rs3 : list RemoteCursorData) :
  scheduling rs1 rs2 -> scheduling rs2 rs3 -> scheduling rs1 rs3.
Proof.
  intros [Hl1 H1] [Hl2 H2]. split; [congruence|].
  intros j r Hr. destruct (H1 j r Hr) as [Hr2 | (h & Hr2 & Hrest)].
  - apply H2 in Hr2. done.
  - right. exists h. split; [|done].
    destruct (H2 j _ Hr2) as [Hr3 | (h' & _ & _ & _ & _ & Hcb)]; [done|].
    simpl in Hcb. done.
Qed.

Lemma scheduling_one (rs : list RemoteCursorData) (i h : nat) (r : RemoteCursorData) :
  rs !! i = Some r -> status r = OK -> docBuffer r = [] -> cursorId r <> 0%Z ->
  cbHandle r = None ->
  scheduling rs (<[i := with_cbHandle (Some h) r]> rs).
Proof.
  intros Hi Hst Hb Hc Hcb. split; [by rewrite length_insert|].
  intros j x Hx. destruct (decide (j = i)) as [->|Hne].
  - right. exists h. assert (x = r) as -> by congruence.
    rewrite list_lookup_insert_eq by (by eapply lookup_lt_Some). done.
  - left. by rewrite list_lookup_insert_ne.
Qed.

Lemma Inv_scheduling (s s' : AsyncResultsMerger) :
  Inv s -> _params s' = _params s -> _mergeQueue s' = _mergeQueue s ->
  scheduling (_remotes s) (_remotes s') -> Inv s'.
Proof.
  intros [H1 H2 H3 H4 H5] Hp Hq [Hlen Hsch].
  assert (Hback : forall j x, _remotes s' !! j = Some x ->
            exists r, _remotes s !! j = Some r /\
              (x = r \/ exists h, x = with_cbHandle (Some h) r /\ status r = OK
                                  /\ docBuffer r = [] /\ cursorId r <> 0%Z)).
  { intros j x Hx. assert (Hlt : j < length (_remotes s)).
    { rewrite <- Hlen. by eapply lookup_lt_Some. }
    apply lookup_lt_is_Some in Hlt as [r Hr]. exists r. split; [done|].
    destruct (Hsch j r Hr) as [Hr' | (h & Hr' & ? & ? & ? & _)].
    - left. congruence.
    - right. exists h. split; [congruence|done]. }
  split; rewrite ?Hp, ?Hq.
  - intros j x Hx Hcb. apply Hback in Hx as (r & Hr & [->|(h & -> & ? & ? & ?)]); eauto.
  - done.
  - intros j Hj. destruct (H3 j Hj) as (Hs & r & Hr & Hb & Hst). split; [done|].
    destruct (Hsch j r Hr) as [Hr' | (h & Hr' & _ & ? & _)]; [eauto | done].
  - intros j x Hx Hs Hb Hst.
    apply Hback in Hx as (r & Hr & [->|(h & -> & ? & ? & ?)]); eauto.
  - intros Hs j x Hx.
    apply Hback in Hx as (r & Hr & [->|(h & -> & ? & ? & ?)]); simpl; eauto.
Qed.

Lemma askForNextBatch_scheduling (i : nat) (s s' : AsyncResultsMerger) (st : Status)
    (r : RemoteCursorData) :
  _remotes s !! i = Some r ->
  status r = OK -> docBuffer r = [] -> cursorId r <> 0%Z ->
  _askForNextBatch i s = Some (st, s') ->
  _params s' = _params s /\ _mergeQueue s' = _mergeQueue s
  /\ scheduling (_remotes s) (_remotes s')
  /\ (st = OK \/ (st = ShutdownInProgress /\ s' = s)).
Proof.
  intros Hr Hst Hb Hc H.
  apply askForNextBatch_inv in H as (r0 & Hr0 & Hcb & [(_ & -> & ->)|(_ & -> & ->)]).
  - split; [done|]. split; [done|]. split; [apply scheduling_refl|]. by right.
  - assert (r0 = r) as -> by congruence. simpl.
    split; [done|]. split; [done|]. split; [by apply scheduling_one|]. by left.
Qed.

Lemma nextEvent_loop_spec (todo i : nat) (s s' : AsyncResultsMerger)
    (res : option Status) :
  nextEvent_loop todo i s = Some (res, s') ->
  _params s' = _params s /\ _mergeQueue s' = _mergeQueue s
  /\ scheduling (_remotes s) (_remotes s')
  /\ (forall st, res = Some st -> st <> OK)
  /\ (res = None -> forall j r, i <= j < i + todo -> _remotes s !! j = Some r ->
                    status r = OK).
Proof.
  revert i s. induction todo as [|todo IH]; intros i s; simpl.
  - unfoldM. intros ?. simplify_eq.
    split; [done|]. split; [done|]. split; [apply scheduling_refl|].
    split; [done|]. intros _ j r Hj. lia.
  - unfold bind at 1. unfold remoteAt, defined.
    destruct (_remotes s !! i) as [r|] eqn:Hr; [|done].
    destruct (isOK (status r)) eqn:Hst; simpl.
    2:{ unfoldM. intros ?. simplify_eq. apply isOK_false in Hst.
        split; [done|]. split; [done|]. split; [apply scheduling_refl|].
        split; [by intros st [= <-] | done]. }
    apply isOK_true in Hst.
    assert (Hstep : forall s1, _params s1 = _params s -> _mergeQueue s1 = _mergeQueue s ->
              scheduling (_remotes s) (_remotes s1) ->
              nextEvent_loop todo (S i) s1 = Some (res, s') ->
              _params s' = _params s /\ _mergeQueue s' = _mergeQueue s
              /\ scheduling (_remotes s) (_remotes s')
              /\ (forall st, res = Some st -> st <> OK)
              /\ (res = None -> forall j r0, i <= j < i + S todo ->
                                _remotes s !! j = Some r0 -> status r0 = OK)).
    { intros s1 Hp1 Hq1 Hs1 H. apply IH in H as (Hp & Hq & Hs & Hne & Hok).
      split; [congruence|]. split; [congruence|].
      split; [by eapply scheduling_trans|]. split; [done|].
      intros Hnone j r0 Hj Hr0. destruct (decide (j = i)) as [->|Hji]; [congruence|].
      destruct (proj2 Hs1 j r0 Hr0) as [Hr1 | (h & Hr1 & ? & _)]; [|done].
      eapply (Hok Hnone j r0); [lia|done]. }
    destruct (negb (hasNext r) && negb (exhausted r) && negb (isValid (cbHandle r)))
      eqn:Hc.
    + apply andb_true_iff in Hc as [Hc Hcb]. apply andb_true_iff in Hc as [Hn He].
      unfold hasNext in Hn. unfold exhausted in He.
      apply negb_true_iff, Z.eqb_neq in He.
      unfold bind at 1.
      destruct (_askForNextBatch i s) as [[st s1]|] eqn:Hask; [|done].
      eapply askForNextBatch_scheduling in Hask as (Hp1 & Hq1 & Hs1 & Hst1); eauto;
        [|by destruct (docBuffer r)].
      destruct (isOK st) eqn:Hok; simpl.
      * by apply Hstep.
      * unfoldM. intros ?. simplify_eq. apply isOK_false in Hok.
        split; [done|]. split; [done|]. split; [done|].
        split; [by intros st' [= <-] | done].
    + apply Hstep; try done. apply scheduling_refl.
Qed.

(** ** Handling a response *)

Lemma updRemote_after (i : nat) (f : RemoteCursorData -> RemoteCursorData)
    (x : RemoteCursorData) (s : AsyncResultsMerger) :
  i < length (_remotes s) ->
  updRemote i f (set_remotes (<[i := x]> (_remotes s)) s)
  = Some (tt, set_remotes (<[i := f x]> (_remotes s)) s).
Proof.
  intros Hlt. erewrite updRemote_Some by (simpl; by apply list_lookup_insert_eq).
  simpl. by rewrite list_insert_insert_eq.
Qed.

Lemma cleanUpFailedBatch_spec (st : Status) (i : nat) (s : AsyncResultsMerger)
    (r : RemoteCursorData) :
  _remotes s !! i = Some r ->
  _cleanUpFailedBatch st i s =
    Some (tt, set_remotes
                (<[i := cleanedUp (isAllowPartialResults (_params s)) st r]> (_remotes s))
                s).
Proof.
  intros Hr. assert (Hlt : i < length (_remotes s)) by by eapply lookup_lt_Some.
  unfold _cleanUpFailedBatch, cleanedUp. unfold bind at 1.
  rewrite (updRemote_Some _ _ _ _ Hr). unfoldM. simpl.
  destruct (isAllowPartialResults (_params s)); [|done].
  rewrite updRemote_after by done. rewrite updRemote_after by done.
  by rewrite updRemote_after by done.
Qed.

Lemma processBatchResults_failed (response : RemoteCommandResponse) (i : nat)
    (s : AsyncResultsMerger) (r : RemoteCursorData) (st : Status) :
  _remotes s !! i = Some r ->
  failed response r = Some st ->
  _processBatchResults response i s = _cleanUpFailedBatch st i s.
Proof.
  intros Hr. unfold failed, _processBatchResults, remoteAt. unfoldM. rewrite Hr.
  destruct (negb (isOK (rstatus response))); [by intros [= ->]|].
  destruct (_parseCursorResponse _ r); [done | by intros [= ->]].
Qed.

Lemma accepted_prefix (sorted : bool) (batch : list BSONObj) :
  accepted sorted batch `prefix_of` batch
  /\ Forall (fun obj => wellFormedFor sorted obj = true) (accepted sorted batch).
Proof.
  induction batch as [|obj batch [IH1 IH2]]; simpl; [split; [done|constructor]|].
  destruct (wellFormedFor sorted obj) eqn:E.
  - split; [by apply prefix_cons | by constructor].
  - split; [apply prefix_nil | constructor].
Qed.

Lemma accepted_all (sorted : bool) (batch : list BSONObj) :
  forallb (wellFormedFor sorted) batch = true -> accepted sorted batch = batch.
Proof.
  induction batch as [|obj batch IH]; simpl; [done|].
  intros [H1 H2]%andb_true_iff. rewrite H1. f_equal. by apply IH.
Qed.

Lemma processBatchResults_effect (response : RemoteCommandResponse) (i : nat)
    (s s' : AsyncResultsMerger) (r : RemoteCursorData) (u : unit) :
  _remotes s !! i = Some r ->
  cbHandle r = None ->
  _processBatchResults response i s = Some (u, s') ->
  _params s' = _params s /\
  exists r', _remotes s' = <[i := r']> (_remotes s)
    /\ (docBuffer r' = []
        \/ exists pre, pre `prefix_of` batchOf response
             /\ docBuffer r' = docBuffer r ++ (Some <$> pre)
             /\ Forall (fun obj => wellFormedFor (hasSort s) obj = true) pre)
    /\ (cbHandle r' <> None ->
        docBuffer r' = [] /\ cursorId r' <> 0%Z /\ status r' = OK)
    /\ ((_mergeQueue s' = _mergeQueue s ++ [i] /\ hasSort s = true
         /\ docBuffer r' <> [] /\ status r' = status r)
        \/ (_mergeQueue s' = _mergeQueue s
            /\ (hasSort s = false \/ status r' <> OK \/ docBuffer r' = []
                \/ docBuffer r' = docBuffer r))).
Proof.
  intros Hr Hcb H.
  assert (Hlt : i < length (_remotes s)) by by eapply lookup_lt_Some.
  destruct (failed response r) as [st|] eqn:Hf.
  { rewrite (processBatchResults_failed _ _ _ _ _ Hr Hf) in H.
    rewrite (cleanUpFailedBatch_spec _ _ _ _ Hr) in H. simplify_eq. simpl.
    split; [done|]. eexists. split; [done|].
    unfold cleanedUp. destruct (isAllowPartialResults (_params s)); simpl.
    - split; [by left|]. split; [done|]. right. auto.
    - split. { right. exists []. split; [apply prefix_nil|]. by rewrite app_nil_r. }
      split; [done|]. right. auto. }
  unfold failed in Hf. unfold _processBatchResults, remoteAt in H.
  unfold bind at 1 in H. unfold defined in H. rewrite Hr in H.
  destruct (negb (isOK (rstatus response))) eqn:Hok; [done|].
  destruct (_parseCursorResponse (data response) r) as [cr|] eqn:Hparse; [|done].
  assert (Hbatch : batchOf response = getBatch cr).
  { unfold batchOf. apply negb_false_iff in Hok. rewrite Hok.
    unfold _parseCursorResponse in Hparse. destruct (data response); [|done].
    destruct (_ && _); by simplify_eq. }
  unfold bind at 1 in H. rewrite (updRemote_Some _ _ _ _ Hr) in H.
  set (r1 := with_cursorId (getCursorId cr) r) in *.
  set (s1 := set_remotes _ s) in *.
  assert (Hr1 : _remotes s1 !! i = Some r1) by (by apply list_lookup_insert_eq).
  unfold bind at 1 in H. rewrite (addBatchToBuffer_spec _ _ _ _ Hr1) in H.
  cbv zeta in H.
  change (hasSort s1) with (hasSort s) in H.
  set (batch := getBatch cr) in *.
  set (r2 := appended (hasSort s) batch r1) in *.
  assert (Hins : <[i:=r2]> (_remotes s1) = <[i:=r2]> (_remotes s)).
  { subst s1. simpl. by rewrite list_insert_insert_eq. }
  rewrite Hins in H.
  destruct (accepted_prefix (hasSort s) batch) as [Hpre Hwf].
  assert (Hb2 : docBuffer r2 = docBuffer r ++ (Some <$> accepted (hasSort s) batch)).
  { subst r2. unfold appended. by destruct (forallb _ batch). }
  assert (Hcb2 : cbHandle r2 = None).
  { subst r2. unfold appended. by destruct (forallb _ batch). }
  assert (Hc2 : cursorId r2 = getCursorId cr).
  { subst r2. unfold appended. by destruct (forallb _ batch). }
  assert (Hdoc : docBuffer r2 = []
        \/ exists pre, pre `prefix_of` batchOf response
             /\ docBuffer r2 = docBuffer r ++ (Some <$> pre)
             /\ Forall (fun obj => wellFormedFor (hasSort s) obj = true) pre).
  { right. exists (accepted (hasSort s) batch). by rewrite Hbatch. }
  destruct (forallb (wellFormedFor (hasSort s)) batch) eqn:Hall; simpl in H.
  2:{ unfoldM_in H. simplify_eq. simpl. split; [done|]. exists r2.
      split; [done|]. split; [done|]. split; [by rewrite Hcb2|]. right.
      split; [done|]. right. left. subst r2. unfold appended. by rewrite Hall. }
  assert (Hst2 : status r2 = status r).
  { subst r2. unfold appended. by rewrite Hall. }
  rewrite (accepted_all _ _ Hall) in Hb2.
  set (s2 := if hasSort s && negb (isEmpty batch) then _ else _) in *.
  assert (Hp2 : _params s2 = _params s) by (subst s2; by destruct (_ && _)).
  assert (Hr2 : _remotes s2 = <[i:=r2]> (_remotes s)) by (subst s2; by destruct (_ && _)).
  assert (Hq2 : (_mergeQueue s2 = _mergeQueue s ++ [i] /\ hasSort s = true
                 /\ docBuffer r2 <> [] /\ status r2 = status r)
                \/ (_mergeQueue s2 = _mergeQueue s
                    /\ (hasSort s = false \/ docBuffer r2 = docBuffer r))).
  { subst s2. destruct (hasSort s) eqn:Hs; simpl; [|right; auto].
    destruct (isEmpty batch) eqn:He; simpl.
    - apply isEmpty_true in He. right. split; [done|]. right.
      rewrite Hb2, He. simpl. by rewrite app_nil_r.
    - apply isEmpty_false in He. left. split; [done|]. split; [done|].
      split; [|done]. rewrite Hb2. intros Happ.
      apply app_eq_nil in Happ as [_ Hm]. by apply fmap_nil_inv in Hm. }
  assert (Hl2 : _remotes s2 !! i = Some r2).
  { rewrite Hr2. by apply list_lookup_insert_eq. }
  clearbody s2. unfold bind at 1 in H. rewrite Hl2 in H. unfoldM_in H.
  assert (Hstay : forall s3, _params s3 = _params s2 -> _remotes s3 = _remotes s2 ->
            _mergeQueue s3 = _mergeQueue s2 ->
            _params s3 = _params s /\
            exists r', _remotes s3 = <[i := r']> (_remotes s)
              /\ (docBuffer r' = []
                  \/ exists pre, pre `prefix_of` batchOf response
                       /\ docBuffer r' = docBuffer r ++ (Some <$> pre)
                       /\ Forall (fun obj => wellFormedFor (hasSort s) obj = true) pre)
              /\ (cbHandle r' <> None ->
                  docBuffer r' = [] /\ cursorId r' <> 0%Z /\ status r' = OK)
              /\ ((_mergeQueue s3 = _mergeQueue s ++ [i] /\ hasSort s = true
                   /\ docBuffer r' <> [] /\ status r' = status r)
                  \/ (_mergeQueue s3 = _mergeQueue s
                      /\ (hasSort s = false \/ status r' <> OK \/ docBuffer r' = []
                          \/ docBuffer r' = docBuffer r)))).
  { intros s3 E1 E2 E3. split; [congruence|]. exists r2. split; [congruence|].
    split; [done|]. split; [by rewrite Hcb2|]. rewrite E3.
    destruct Hq2 as [?|[? [?|?]]]; [by left | right; auto | right; auto]. }
  destruct (bool_decide (tailableMode (_params s2) = kTailable) && negb (hasNext r2)).
  { destruct (length (_remotes s2) =? 1); [|done]. simplify_eq. by apply Hstay. }
  destruct (negb (hasNext r2) && negb (exhausted r2)) eqn:Hc;
    [|simplify_eq; by apply Hstay].
  apply andb_true_iff in Hc as [Hn He].
  assert (Hb2' : docBuffer r2 = []).
  { unfold hasNext in Hn. by destruct (docBuffer r2). }
  assert (Hc2' : cursorId r2 <> 0%Z).
  { unfold exhausted in He. by apply negb_true_iff, Z.eqb_neq in He. }
  assert (Hq2' : _mergeQueue s2 = _mergeQueue s).
  { destruct Hq2 as [(_ & _ & ? & _)|[? _]]; done. }
  destruct (_askForNextBatch i s2) as [[st s3]|] eqn:Hask; [|done].
  apply askForNextBatch_inv in Hask
    as (r0 & Hr0 & _ & [(_ & -> & ->)|(_ & -> & ->)]);
    assert (r0 = r2) as -> by congruence.
  - rewrite (updRemote_Some _ _ _ _ Hl2) in H. simplify_eq. simpl.
    split; [done|]. eexists. split; [by rewrite Hr2, list_insert_insert_eq|].
    simpl. split; [by left|]. split; [by rewrite Hcb2|]. right. auto.
  - erewrite updRemote_Some in H
      by (simpl; apply list_lookup_insert_eq; by eapply lookup_lt_Some).
    simplify_eq. simpl. split; [done|]. eexists.
    split; [by rewrite Hr2, !list_insert_insert_eq|].
    simpl. split; [by left|]. split; [done|]. right. auto.
Qed.

Lemma wellFormed_keyed (sorted : bool) (obj : BSONObj) :
  sorted = true -> wellFormedFor sorted obj = true -> keyed (Some obj).
Proof.
  intros -> H. unfold wellFormedFor in H. simpl in H.
  apply negb_true_iff, negb_false_iff, bool_decide_eq_true in H.
  unfold keyed, sortKeyOf. by destruct (getField obj kSortKeyField).
Qed.

Lemma callback_effect (response : RemoteCommandResponse) (i : nat)
    (s s' : AsyncResultsMerger) (u : unit) :
  callback response i s = Some (u, s') ->
  exists r, _remotes s !! i = Some r /\ cbHandle r <> None /\
  _params s' = _params s /\
  exists r', _remotes s' = <[i := r']> (_remotes s)
    /\ (docBuffer r' = []
        \/ exists pre, pre `prefix_of` batchOf response
             /\ docBuffer r' = docBuffer r ++ (Some <$> pre)
             /\ Forall (fun obj => wellFormedFor (hasSort s) obj = true) pre)
    /\ (cbHandle r' <> None ->
        docBuffer r' = [] /\ cursorId r' <> 0%Z /\ status r' = OK)
    /\ ((_mergeQueue s' = _mergeQueue s ++ [i] /\ hasSort s = true
         /\ docBuffer r' <> [] /\ status r' = status r)
        \/ (_mergeQueue s' = _mergeQueue s
            /\ (hasSort s = false \/ status r' <> OK \/ docBuffer r' = []
                \/ docBuffer r' = docBuffer r))).
Proof.
  unfold callback, remoteAt. unfold bind at 1. unfold defined.
  destruct (_remotes s !! i) as [r|] eqn:Hr; [|done].
  destruct (isValid (cbHandle r)) eqn:Hv; [|done].
  intros H. exists r. split; [done|]. split; [by destruct (cbHandle r)|].
  assert (Hlt : i < length (_remotes s)) by by eapply lookup_lt_Some.
  unfold _handleBatchResponse in H. unfold bind at 1 in H.
  rewrite (updRemote_Some _ _ _ _ Hr) in H.
  set (r0 := with_cbHandle None r) in *.
  set (s0 := set_remotes _ s) in *.
  assert (Hr0 : _remotes s0 !! i = Some r0) by (by apply list_lookup_insert_eq).
  unfold bind at 1, gets at 1 in H.
  destruct (negb (bool_decide (_lifecycleState s0 = kAlive))).
  - unfold bind at 1 in H.
    destruct (_signalCurrentEventIfReady s0) as [[u1 s1]|] eqn:Hsig; [|done].
    apply signalCurrentEventIfReady_core in Hsig. apply cleanUpKilledBatch_core in H.
    rewrite Hsig in H. unfold core in H. injection H as E1 E2 E3.
    subst s0. simpl in *.
    split; [done|]. exists r0. split; [done|].
    split. { right. exists []. split; [apply prefix_nil|]. by rewrite app_nil_r. }
    split; [done|]. right. auto.
  - unfold bind at 1 in H.
    destruct (_processBatchResults response i s0) as [[u1 s1]|] eqn:Hproc; [|done].
    apply signalCurrentEventIfReady_core in H.
    apply processBatchResults_effect with (r := r0) in Hproc; [|done|done].
    destruct Hproc as (Hp & r' & Hr' & Hdoc & Hcb & Hq).
    unfold core in H. injection H as E1 E2 E3.
    subst s0 r0. simpl in *. split; [congruence|]. exists r'.
    split. { by rewrite E2, Hr', list_insert_insert_eq. }
    split; [done|]. split; [done|]. by rewrite E3.
Qed.

Lemma Inv_callback (response : RemoteCommandResponse) (i : nat)
    (s s' : AsyncResultsMerger) (u : unit) :
  Inv s -> callback response i s = Some (u, s') -> Inv s'.
Proof.
  intros HI H.
  apply callback_effect in H as (r & Hr & Hcb & Hp & r' & Hr' & Hdoc & Hcb' & Hq).
  destruct (inv_inflight _ HI i r Hr Hcb) as (Hb & Hc & Hst).
  assert (Hnot : i ∉ _mergeQueue s).
  { intros Hi. destruct (inv_queue _ HI i Hi) as (_ & x & Hx & Hbx & _). congruence. }
  rewrite Hb in *. simpl in *.
  eapply Inv_update with (g := i) (r := r) (r' := r'); eauto.
  - destruct Hq as [(-> & _)|(-> & _)]; [|apply HI].
    apply NoDup_app. split; [apply HI|]. split; [|apply NoDup_singleton].
    intros x Hx Hx'. apply list_elem_of_singleton in Hx' as ->. done.
  - intros j. destruct Hq as [(-> & Hs & Hne & Hst')|(-> & Hcases)].
    + apply hasSort_true in Hs.
      rewrite elem_of_app, list_elem_of_singleton. split.
      * intros [Hj| ->]; [left; split; [by intros ->|done] | right].
        split; [done|]. split; [done|]. split; [done|]. congruence.
      * intros [[_ ?]|[-> _]]; auto.
    + split.
      * intros Hj. left. split; [by intros ->|done].
      * intros [[_ ?]|(-> & Hs & Hne & Hst')]; [done|]. exfalso.
        destruct Hcases as [Hs'|[?|[?|?]]]; try done.
        apply hasSort_false in Hs'. done.
  - intros Hs. destruct Hdoc as [->|(pre & _ & -> & Hwf)]; [constructor|].
    apply hasSort_true in Hs. apply Forall_fmap.
    eapply Forall_impl; [exact Hwf|]. intros obj Hobj. simpl.
    by eapply wellFormed_keyed.
Qed.

Lemma nextEvent_effect (s s' : AsyncResultsMerger) (res : StatusWith EventHandle) :
  nextEvent s = Some (res, s') ->
  _params s' = _params s /\ _mergeQueue s' = _mergeQueue s
  /\ scheduling (_remotes s) (_remotes s').
Proof.
  unfold nextEvent. unfoldM.
  destruct (negb (bool_decide (_lifecycleState s = kAlive))).
  { intros ?. simplify_eq. split; [done|]. split; [done|]. apply scheduling_refl. }
  destruct (isValid (_currentEvent s)).
  { intros ?. simplify_eq. split; [done|]. split; [done|]. apply scheduling_refl. }
  destruct (nextEvent_loop _ 0 s) as [[early s1]|] eqn:Hloop; [|done].
  apply nextEvent_loop_spec in Hloop as (Hp & Hq & Hs & _).
  destruct early as [st|].
  { intros ?. by simplify_eq. }
  destruct (makeEvent (_executor s1)) as [[e|st] ex].
  - destruct (_signalCurrentEventIfReady _) as [[u s2]|] eqn:Hsig; [|done].
    apply signalCurrentEventIfReady_core in Hsig. unfold core in Hsig.
    injection Hsig as E1 E2 E3. simpl in *. intros ?. simplify_eq.
    split; [congruence|]. split; [congruence|]. by rewrite E2.
  - intros ?. by simplify_eq.
Qed.

Lemma Inv_nextEvent (s s' : AsyncResultsMerger) (res : StatusWith EventHandle) :
  Inv s -> nextEvent s = Some (res, s') -> Inv s'.
Proof.
  intros HI H. apply nextEvent_effect in H as (Hp & Hq & Hs).
  by eapply Inv_scheduling.
Qed.

(** ** The constructor *)

Lemma Inv_empty (opCtx : option nat) (executor : TaskExecutor)
    (params : ClusterClientCursorParams) :
  Inv (emptyMerger opCtx executor params).
Proof.
  split; simpl.
  - intros i r Hr. by rewrite lookup_nil in Hr.
  - apply NoDup_nil_2.
  - intros i Hi. inversion Hi.
  - intros i r Hr. by rewrite lookup_nil in Hr.
  - intros _ i r Hr. by rewrite lookup_nil in Hr.
Qed.

Lemma Inv_emplace_back (s : AsyncResultsMerger) (host : string) (nss : NamespaceString)
    (cid : Z) :
  Inv s ->
  Inv (set_remotes (_remotes s ++ [newRemoteCursorData host nss cid]) s).
Proof.
  intros [H1 H2 H3 H4 H5].
  assert (Hlook : forall i x,
            (_remotes s ++ [newRemoteCursorData host nss cid]) !! i = Some x ->
            _remotes s !! i = Some x \/ x = newRemoteCursorData host nss cid).
  { intros i x Hx. apply lookup_app_Some in Hx as [Hx|[_ Hx]]; [by left|right].
    apply list_lookup_singleton_Some in Hx as [_ Hx]. done. }
  split; simpl.
  - intros i x Hx Hcb. apply Hlook in Hx as [Hx| ->]; [eauto|done].
  - done.
  - intros i Hi. destruct (H3 i Hi) as (Hs & x & Hx & Hb & Hst). split; [done|].
    exists x. split; [|done]. by apply lookup_app_l_Some.
  - intros i x Hx Hs Hb Hst. apply Hlook in Hx as [Hx| ->]; [eauto|done].
  - intros Hs i x Hx. apply Hlook in Hx as [Hx| ->]; [eauto|constructor].
Qed.

Lemma Inv_addBatch_fresh (s s' : AsyncResultsMerger) (i : nat) (r : RemoteCursorData)
    (batch : list BSONObj) (ok : bool) :
  Inv s ->
  _remotes s !! i = Some r ->
  docBuffer r = [] -> cbHandle r = None -> status r = OK ->
  _addBatchToBuffer i batch s = Some (ok, s') ->
  Inv s'.
Proof.
  intros HI Hr Hb Hcb Hst H.
  rewrite (addBatchToBuffer_spec _ _ _ _ Hr) in H. cbv zeta in H.
  assert (Hnot : i ∉ _mergeQueue s).
  { intros Hi. destruct (inv_queue _ HI i Hi) as (_ & x & Hx & Hbx & _). congruence. }
  destruct (accepted_prefix (hasSort s) batch) as [_ Hwf].
  set (r' := appended (hasSort s) batch r) in *.
  assert (Hb' : docBuffer r' = Some <$> accepted (hasSort s) batch).
  { subst r'. unfold appended. rewrite Hb. by destruct (forallb _ batch). }
  assert (Hcb' : cbHandle r' = None).
  { subst r'. unfold appended. by destruct (forallb _ batch). }
  injection H as <- <-.
  eapply Inv_update with (g := i) (r := r) (r' := r'); eauto.
  - by destruct (_ && _).
  - by destruct (_ && _).
  - by rewrite Hcb'.
  - destruct (_ && _); simpl; [|apply HI]. unfold pq_push.
    apply NoDup_app. split; [apply HI|]. split; [|apply NoDup_singleton].
    intros x Hx Hx'. apply list_elem_of_singleton in Hx' as ->. done.
  - intros j.
    destruct (forallb (wellFormedFor (hasSort s)) batch) eqn:Hall; simpl.
    + assert (Hst' : status r' = OK).
      { subst r'. unfold appended. by rewrite Hall. }
      rewrite (accepted_all _ _ Hall) in Hb'.
      destruct (hasSort s) eqn:Hs; simpl.
      * apply hasSort_true in Hs. destruct (isEmpty batch) eqn:He; simpl.
        -- apply isEmpty_true in He. rewrite He in Hb'. simpl in Hb'. split.
           ++ intros Hj. left. split; [by intros ->|done].
           ++ intros [[_ ?]|(_ & _ & ? & _)]; done.
        -- apply isEmpty_false in He. unfold pq_push.
           rewrite elem_of_app, list_elem_of_singleton. split.
           ++ intros [Hj| ->]; [left; split; [by intros ->|done] | right].
              split; [done|]. split; [done|]. split; [|done].
              rewrite Hb'. intros Hm. by apply fmap_nil_inv in Hm.
           ++ intros [[_ ?]|[-> _]]; auto.
      * apply hasSort_false in Hs. split.
        -- intros Hj. left. split; [by intros ->|done].
        -- intros [[_ ?]|(_ & ? & _)]; done.
    + assert (Hst' : status r' = InternalError).
      { subst r'. unfold appended. by rewrite Hall. }
      split.
      * intros Hj. left. split; [by intros ->|done].
      * intros [[_ ?]|(_ & _ & _ & ?)]; [done|congruence].
  - intros Hs. rewrite Hb'. apply hasSort_true in Hs. apply Forall_fmap.
    eapply Forall_impl; [exact Hwf|]. intros obj Hobj. simpl.
    by eapply wellFormed_keyed.
Qed.

Lemma Inv_construct_loop (rs : list RemoteCursor) (k : nat) (s s' : AsyncResultsMerger)
    (u : unit) :
  Inv s -> length (_remotes s) = k ->
  construct_loop k rs s = Some (u, s') -> Inv s'.
Proof.
  revert k s. induction rs as [|remote rs IH]; intros k s HI Hk; simpl.
  - unfoldM. intros ?. by simplify_eq.
  - unfold bind at 1. unfold modify at 1.
    set (fresh := newRemoteCursorData _ _ _).
    set (s1 := set_remotes _ s).
    assert (HI1 : Inv s1) by by apply Inv_emplace_back.
    assert (Hr1 : _remotes s1 !! k = Some fresh).
    { subst s1. simpl. rewrite lookup_app_r by lia.
      by replace (k - length (_remotes s)) with 0 by lia. }
    unfold bind at 1.
    destruct (_addBatchToBuffer k _ s1) as [[ok s2]|] eqn:Hadd; [|done].
    assert (HI2 : Inv s2) by (eapply Inv_addBatch_fresh; eauto).
    apply IH; [done|].
    rewrite (addBatchToBuffer_spec _ _ _ _ Hr1) in Hadd. cbv zeta in Hadd.
    injection Hadd as _ <-.
    destruct (_ && _); simpl; rewrite length_insert, length_app; simpl; lia.
Qed.

Lemma Inv_new (opCtx : option nat) (executor : TaskExecutor)
    (params : ClusterClientCursorParams) (s : AsyncResultsMerger) :
  newAsyncResultsMerger opCtx executor params = Some s -> Inv s.
Proof.
  unfold newAsyncResultsMerger, construct. unfold bind, modify.
  destruct (construct_loop 0 _ _) as [[u s1]|] eqn:Hloop; [|done].
  apply Inv_construct_loop in Hloop; [|apply Inv_empty|done].
  intros [= <-]. eapply Inv_core; [|exact Hloop]. done.
Qed.

Lemma Inv_step (o : Op) (s s' : AsyncResultsMerger) (out : Out) :
  Inv s -> step o s = Some (out, s') -> Inv s'.
Proof.
  intros HI. destruct o; simpl; unfold bind at 1.
  - destruct (ready s) as [[b s1]|] eqn:H; [|done]. unfoldM. intros ?. simplify_eq.
    apply ready_core in H. eapply Inv_core; [exact H|exact HI].
  - destruct (nextReady s) as [[b s1]|] eqn:H; [|done]. unfoldM. intros ?. simplify_eq.
    by eapply Inv_nextReady.
  - destruct (nextEvent s) as [[b s1]|] eqn:H; [|done]. unfoldM. intros ?. simplify_eq.
    by eapply Inv_nextEvent.
  - destruct (callback response remoteIndex s) as [[b s1]|] eqn:H; [|done].
    unfoldM. intros ?. simplify_eq. by eapply Inv_callback.
  - destruct (kill opCtx0 s) as [[b s1]|] eqn:H; [|done]. unfoldM. intros ?. simplify_eq.
    apply kill_core in H. eapply Inv_core; [exact H|exact HI].
  - unfold detachFromOperationContext. unfoldM. intros ?. simplify_eq.
    (eapply Inv_core; [|exact HI]; done).
  - unfold reattachToOperationContext. unfoldM.
    destruct (negb (isValid (_opCtx s))); [|done]. intros ?. simplify_eq.
    (eapply Inv_core; [|exact HI]; done).
  - unfold setAwaitDataTimeout. unfoldM.
    destruct (negb _); intros ?; simplify_eq; (eapply Inv_core; [|exact HI]; done).
  - unfold remotesExhausted, _remotesExhausted. unfoldM. intros ?. by simplify_eq.
  - unfoldM. intros ?. simplify_eq. (eapply Inv_core; [|exact HI]; done).
Qed.

Lemma reachable_Inv (s : AsyncResultsMerger) : reachable s -> Inv s.
Proof.
  induction 1 as [opCtx executor params s H | s o out s' _ IH H].
  - by eapply Inv_new.
  - by eapply Inv_step.
Qed.

(** ** Failed batches *)

Lemma callback_failed (response : RemoteCommandResponse) (i : nat)
    (s s' : AsyncResultsMerger) (r : RemoteCursorData) (st : Status) (u : unit) :
  _lifecycleState s = kAlive ->
  _remotes s !! i = Some r ->
  failed response r = Some st ->
  callback response i s = Some (u, s') ->
  core s' = (_params s,
             <[i := cleanedUp (isAllowPartialResults (_params s)) st
                      (with_cbHandle None r)]> (_remotes s),
             _mergeQueue s).
Proof.
  intros Hlc Hr Hf. unfold callback, remoteAt. unfold bind at 1. unfold defined.
  rewrite Hr. destruct (isValid (cbHandle r)); [|done].
  assert (Hlt : i < length (_remotes s)) by by eapply lookup_lt_Some.
  unfold _handleBatchResponse. unfold bind at 1.
  rewrite (updRemote_Some _ _ _ _ Hr).
  set (r0 := with_cbHandle None r).
  set (s0 := set_remotes _ s).
  assert (Hr0 : _remotes s0 !! i = Some r0) by (by apply list_lookup_insert_eq).
  unfold bind at 1, gets at 1.
  assert (Hlc0 : _lifecycleState s0 = kAlive) by done. rewrite Hlc0. simpl.
  unfold bind at 1.
  rewrite (processBatchResults_failed _ _ _ r0 st Hr0) by done.
  rewrite (cleanUpFailedBatch_spec _ _ _ _ Hr0).
  intros H. apply signalCurrentEventIfReady_core in H. rewrite H.
  unfold core. subst s0. simpl. by rewrite list_insert_insert_eq.
Qed.

Lemma askForNextBatch_total (i : nat) (s : AsyncResultsMerger) (r : RemoteCursorData) :
  _remotes s !! i = Some r -> cbHandle r = None ->
  exists st s', _askForNextBatch i s = Some (st, s').
Proof.
  intros Hr Hcb. unfold _askForNextBatch, remoteAt. unfoldM. rewrite Hr, Hcb. simpl.
  destruct (scheduleRemoteCommand _ _) as [[h|st] ex]; [|eauto].
  rewrite updRemote_Some with (r := r) by done. eauto.
Qed.

Lemma nextEvent_loop_total (todo i : nat) (s : AsyncResultsMerger) :
  i + todo <= length (_remotes s) ->
  exists res s', nextEvent_loop todo i s = Some (res, s').
Proof.
  revert i s. induction todo as [|todo IH]; intros i s Hlen; simpl.
  - unfoldM. eauto.
  - unfold bind at 1. unfold remoteAt, defined.
    destruct (lookup_lt_is_Some_2 (_remotes s) i) as [r Hr]; [lia|]. rewrite Hr.
    destruct (negb (isOK (status r))); [unfoldM; eauto|].
    destruct (negb (hasNext r) && negb (exhausted r) && negb (isValid (cbHandle r)))
      eqn:Hc; [|apply IH; lia].
    apply andb_true_iff in Hc as [_ Hcb].
    destruct (askForNextBatch_total i s r) as (st & s1 & Hask);
      [done | by destruct (cbHandle r) |].
    unfold bind at 1. rewrite Hask.
    destruct (negb (isOK st)); [unfoldM; eauto|].
    apply IH. apply askForNextBatch_inv in Hask as (r0 & _ & _ & [(_ & _ & ->)|(_ & _ & ->)]);
      simpl; rewrite ?length_insert; lia.
Qed.

(** The code behind C3 has no retry, for any failing response: when a
    batch response fails, whatever the error and however few failures
    went before, the failure handling is final at once.  Without [allowPartialResults] the
    remote's status becomes that error, and the next [nextEvent] returns
    an error; with it the remote is marked exhausted.  Either way no
    request is outstanding for the remote afterwards and the next
    [nextEvent] schedules none. *)
Theorem failed_batch_not_retried (response : RemoteCommandResponse) (i : nat)
    (s s' : AsyncResultsMerger) (r : RemoteCursorData) (st : Status) (u : unit) :
  _lifecycleState s = kAlive ->
  _remotes s !! i = Some r ->
  failed response r = Some st ->
  st <> OK ->
  callback response i s = Some (u, s') ->
  exists r',
    r' = cleanedUp (isAllowPartialResults (_params s)) st (with_cbHandle None r)
    /\ _remotes s' = <[i := r']> (_remotes s)
    /\ cbHandle r' = None
    /\ (forall res s'', nextEvent s' = Some (res, s'') -> _remotes s'' !! i = Some r')
    /\ (isAllowPartialResults (_params s) = false ->
        status r' = st
        /\ exists e s'', nextEvent s' = Some (SWError e, s'') /\ e <> OK).
Proof.
  intros Hlc Hr Hf Hne H.
  assert (Hlt : i < length (_remotes s)) by by eapply lookup_lt_Some.
  apply (callback_failed _ _ _ _ _ _ _ Hlc Hr Hf) in H.
  unfold core in H. injection H as Hp Hr' Hq.
  set (r' := cleanedUp _ _ _) in *. exists r'. split; [done|]. split; [done|].
  assert (Hi : _remotes s' !! i = Some r').
  { rewrite Hr'. by apply list_lookup_insert_eq. }
  assert (Hcb : cbHandle r' = None).
  { subst r'. unfold cleanedUp. by destruct (isAllowPartialResults _). }
  assert (Hdead : status r' <> OK \/ cursorId r' = 0%Z).
  { subst r'. unfold cleanedUp. destruct (isAllowPartialResults _); simpl; auto. }
  split; [done|]. split.
  - intros res s'' Hnext. apply nextEvent_effect in Hnext as (_ & _ & [_ Hsch]).
    destruct (Hsch i r' Hi) as [?|(h & _ & Hst & _ & Hc & _)]; [done|].
    destruct Hdead; done.
  - intros Hpart. subst r'. rewrite Hpart in *. unfold cleanedUp in *.
    split; [done|].
    unfold nextEvent. unfoldM.
    destruct (negb (bool_decide (_lifecycleState s' = kAlive))).
    { exists IllegalOperation, s'. done. }
    destruct (isValid (_currentEvent s')).
    { exists IllegalOperation, s'. done. }
    destruct (nextEvent_loop_total (length (_remotes s')) 0 s') as (res & s1 & Hloop);
      [lia|].
    rewrite Hloop.
    apply nextEvent_loop_spec in Hloop as (_ & _ & _ & Hres & Hall).
    destruct res as [e|].
    + exists e, s1. split; [done|]. by apply Hres.
    + exfalso. apply Hne.
      assert (Hrange : 0 <= i < 0 + length (_remotes s')).
      { apply lookup_lt_Some in Hi. lia. }
      exact (Hall eq_refl i _ Hrange Hi).
Qed.

(** ** Remotes that can deliver nothing more *)

Lemma dead_remote_step (o : Op) (s s' : AsyncResultsMerger) (out : Out) (i : nat)
    (r : RemoteCursorData) :
  _remotes s !! i = Some r ->
  docBuffer r = [] -> cursorId r = 0%Z -> cbHandle r = None ->
  step o s = Some (out, s') ->
  _remotes s' !! i = Some r.
Proof.
  intros Hr Hb Hc Hcb. destruct o; simpl; unfold bind at 1.
  - destruct (ready s) as [[b s1]|] eqn:H; [|done]. unfoldM. intros ?. simplify_eq.
    apply ready_core in H. unfold core in H. injection H as _ -> _. done.
  - destruct (nextReady s) as [[b s1]|] eqn:H; [|done]. unfoldM. intros ?. simplify_eq.
    apply nextReady_effect in H
      as [_ [(-> & _)|(g & x & front & rest & _ & Hg & Hbg & _ & -> & _)]]; [done|].
    rewrite list_lookup_insert_ne; [done|]. intros ->. congruence.
  - destruct (nextEvent s) as [[b s1]|] eqn:H; [|done]. unfoldM. intros ?. simplify_eq.
    apply nextEvent_effect in H as (_ & _ & [_ Hsch]).
    destruct (Hsch i r Hr) as [?|(h & _ & _ & _ & ? & _)]; done.
  - destruct (callback response remoteIndex s) as [[b s1]|] eqn:H; [|done].
    unfoldM. intros ?. simplify_eq.
    apply callback_effect in H as (x & Hx & Hcbx & _ & r' & -> & _).
    rewrite list_lookup_insert_ne; [done|]. intros ->. congruence.
  - destruct (kill opCtx0 s) as [[b s1]|] eqn:H; [|done]. unfoldM. intros ?. simplify_eq.
    apply kill_core in H. unfold core in H. injection H as _ -> _. done.
  - unfold detachFromOperationContext. unfoldM. intros ?. by simplify_eq.
  - unfold reattachToOperationContext. unfoldM.
    destruct (negb (isValid (_opCtx s))); [|done]. intros ?. by simplify_eq.
  - unfold setAwaitDataTimeout. unfoldM.
    destruct (negb _); intros ?; by simplify_eq.
  - unfold remotesExhausted, _remotesExhausted. unfoldM. intros ?. by simplify_eq.
  - unfoldM. intros ?. by simplify_eq.
Qed.

Lemma dead_remote_run (ops : list Op) (s s' : AsyncResultsMerger) (outs : list Out)
    (i : nat) (r : RemoteCursorData) :
  _remotes s !! i = Some r ->
  docBuffer r = [] -> cursorId r = 0%Z -> cbHandle r = None ->
  runOps ops s = Some (outs, s') ->
  _remotes s' !! i = Some r.
Proof.
  intros Hr Hb Hc Hcb. revert s outs Hr.
  induction ops as [|o ops IH]; intros s outs Hr; simpl.
  - unfoldM. intros ?. by simplify_eq.
  - unfold bind at 1. destruct (step o s) as [[out s1]|] eqn:Hstep; [|done].
    unfold bind at 1. destruct (runOps ops s1) as [[outs1 s2]|] eqn:Hrun; [|done].
    unfoldM. intros ?. simplify_eq.
    eapply IH; [|exact Hrun]. by eapply dead_remote_step.
Qed.

Lemma delete_dead (rs : list RemoteCursorData) (i : nat) (r : RemoteCursorData) :
  rs !! i = Some r ->
  hasNext r = false -> exhausted r = true -> status r = OK ->
  firstError (delete i rs) = firstError rs
  /\ forallb (fun remote => negb (negb (hasNext remote) && negb (exhausted remote)))
       (delete i rs)
     = forallb (fun remote => negb (negb (hasNext remote) && negb (exhausted remote))) rs
  /\ forall b, readyUnsorted_loop (delete i rs) b = readyUnsorted_loop rs b.
Proof.
  intros Hr Hn He Hst. revert i Hr.
  induction rs as [|x rs IH]; intros i Hi; [done|].
  destruct i as [|i]; simpl in *.
  - simplify_eq. by rewrite Hst, Hn, He.
  - destruct (IH i Hi) as (-> & -> & H3). split; [done|]. split; [done|].
    intros b. by rewrite H3.
Qed.

(** Readiness does not look at a remote that is exhausted, has nothing
    buffered and reports no error. *)
Lemma ready_without (i : nat) (s : AsyncResultsMerger) (r : RemoteCursorData) :
  _remotes s !! i = Some r ->
  docBuffer r = [] -> cursorId r = 0%Z -> status r = OK ->
  _ready (set_remotes (delete i (_remotes s)) s)
  = match _ready s with
    | Some (b, s1) => Some (b, set_remotes (delete i (_remotes s)) s1)
    | None => None
    end.
Proof.
  intros Hr Hb Hc Hst.
  assert (Hn : hasNext r = false) by (unfold hasNext; by rewrite Hb).
  assert (He : exhausted r = true) by (unfold exhausted; by rewrite Hc).
  destruct (delete_dead _ _ _ Hr Hn He Hst) as (H1 & H2 & H3).
  unfold _ready, _readySorted, _readyUnsorted. unfoldM. simpl.
  destruct (negb (bool_decide (_lifecycleState s = kAlive))); simpl; [done|].
  destruct (_eofNext s); simpl; [done|].
  rewrite H1. destruct (firstError (_remotes s)); simpl; [done|].
  destruct (negb (isEmpty (sort (_params s)))); simpl.
  - destruct (bool_decide (tailableMode (_params s) = kNormal)); simpl; [|done].
    by rewrite H2.
  - by rewrite H3.
Qed.

(** C6, as the code has it.  With [allowPartialResults], a remote whose
    batch request fails
    (the response is an error, does not parse, or names another cursor)
    comes out of the failure handling with an empty buffer, cursor id
    zero, status OK and no request outstanding.  From then on nothing
    changes it, so it delivers no further document; and [ready()]
    answers, and latches, what it would without that remote. *)
Theorem partial_results_swallow (response : RemoteCommandResponse) (i : nat)
    (s s' : AsyncResultsMerger) (r : RemoteCursorData) (st : Status) (u : unit) :
  isAllowPartialResults (_params s) = true ->
  _lifecycleState s = kAlive ->
  _remotes s !! i = Some r ->
  failed response r = Some st ->
  callback response i s = Some (u, s') ->
  exists r',
    _remotes s' = <[i := r']> (_remotes s)
    /\ docBuffer r' = [] /\ cursorId r' = 0%Z /\ status r' = OK /\ cbHandle r' = None
    /\ hasNext r' = false /\ exhausted r' = true
    /\ (forall ops outs s'', runOps ops s' = Some (outs, s'') ->
                             _remotes s'' !! i = Some r')
    /\ _ready (set_remotes (delete i (_remotes s')) s')
       = match _ready s' with
         | Some (b, s1) => Some (b, set_remotes (delete i (_remotes s')) s1)
         | None => None
         end.
Proof.
  intros Hpart Hlc Hr Hf H.
  assert (Hlt : i < length (_remotes s)) by by eapply lookup_lt_Some.
  apply (callback_failed _ _ _ _ _ _ _ Hlc Hr Hf) in H.
  unfold core in H. injection H as Hp Hr' Hq. rewrite Hpart in Hr'.
  unfold cleanedUp in Hr'.
  set (r' := with_cursorId 0 _) in *.
  assert (Hi : _remotes s' !! i = Some r').
  { rewrite Hr'. by apply list_lookup_insert_eq. }
  exists r'. split; [done|]. repeat (split; [done|]). split.
  - intros ops outs s'' Hrun. by eapply dead_remote_run.
  - by apply ready_without with (r := r').
Qed.

(** C7, as the code has it.  In every reachable merger no index is in the
    queue twice; an index in the queue belongs to a remote with a
    non-empty buffer, and there is a sort; and with a sort, every remote
    that has a non-empty buffer and status OK is in the queue.  (A remote
    whose batch was cut short by a missing sort key keeps the documents
    before it, has an error status, and is not queued.) *)
Theorem merge_queue_invariant (s : AsyncResultsMerger) :
  reachable s ->
  NoDup (_mergeQueue s)
  /\ (forall i, i ∈ _mergeQueue s ->
        sort (_params s) <> []
        /\ exists r, _remotes s !! i = Some r /\ docBuffer r <> [])
  /\ (forall i r, _remotes s !! i = Some r ->
        sort (_params s) <> [] -> docBuffer r <> [] -> status r = OK ->
        i ∈ _mergeQueue s).
Proof.
  intros H. apply reachable_Inv in H as [H1 H2 H3 H4 H5].
  split; [done|]. split; [|done].
  intros i Hi. destruct (H3 i Hi) as (Hs & r & Hr & Hb & _). eauto.
Qed.

(** ** Killing *)

Lemma scheduleKillCursors_loop_spec (opCtx : option nat) (rs : list RemoteCursorData)
    (s s' : AsyncResultsMerger) (u : unit) :
  inShutdown (_executor s) = false ->
  scheduleKillCursors_loop opCtx rs s = Some (u, s') ->
  exists ex entries, s' = set_executor ex s
    /\ inShutdown ex = false
    /\ calls ex = calls (_executor s) ++ entries
    /\ Forall2 dispatches entries (killCommands s rs).
Proof.
  revert s. induction rs as [|r rs IH]; intros s Hsd; simpl; unfoldM.
  - intros ?. simplify_eq. exists (_executor s'), [].
    split; [symmetry; apply set_executor_same|].
    rewrite app_nil_r. split; [done|]. split; [done|]. constructor.
  - destruct (negb (isValid (cbHandle r))); [|done].
    unfold killCommands. rewrite filter_cons. fold (toKill r).
    destruct (toKill r) eqn:Hk; simpl.
    + unfold scheduleRemoteCommand at 1. rewrite Hsd. intros H.
      apply IH in H as (ex & entries & -> & Hsd' & Hcalls & Hdisp); [|done].
      simpl in Hcalls. rewrite <- app_assoc in Hcalls.
      exists ex, (Scheduled (nextId (_executor s))
                    {| target := getTargetHost r; dbname := db (nsString (_params s));
                       cmdObj := KillCursors (nsString (_params s)) [cursorId r];
                       metadata := None; opCtx := opCtx |} :: entries).
      split; [done|]. split; [done|]. split; [done|].
      constructor; [|done]. eexists _, _. done.
    + intros H. apply IH in H as (ex & entries & -> & Hsd' & Hcalls & Hdisp); [|done].
      exists ex, entries. done.
Qed.

Lemma cancelOutstanding_calls (rs : list RemoteCursorData) (ex : TaskExecutor) :
  exists cancels,
    calls (fold_left
             (fun (ex : TaskExecutor) (remote : RemoteCursorData) =>
                if isValid (cbHandle remote) then cancel (cbHandle remote) ex else ex)
             rs ex)
    = calls ex ++ cancels
    /\ Forall isCancelled cancels.
Proof.
  revert ex. induction rs as [|r rs IH]; intros ex; simpl.
  - exists []. by rewrite app_nil_r.
  - destruct (cbHandle r) as [h|]; simpl; [|apply IH].
    destruct (IH (accept (Cancelled h) ex)) as (cancels & -> & Hall).
    exists (Cancelled h :: cancels). simpl. rewrite <- app_assoc. split; [done|].
    constructor; [by exists h|done].
Qed.

Lemma kill_effect (opCtx : option nat) (s s1 : AsyncResultsMerger) (e1 : EventHandle) :
  kill opCtx s = Some (e1, s1) ->
  (exists e, _killCursorsScheduledEvent s = Some e /\ e1 = Some e /\ s1 = s
             /\ _lifecycleState s <> kAlive)
  \/ (_killCursorsScheduledEvent s = None /\ inShutdown (_executor s) = true
      /\ e1 = None
      /\ s1 = set_lifecycleState (if outstanding s then kKillStarted else kKillComplete) s)
  \/ (_killCursorsScheduledEvent s = None /\ inShutdown (_executor s) = false
      /\ e1 = Some (nextId (_executor s))
      /\ _killCursorsScheduledEvent s1 = e1
      /\ if outstanding s
         then _lifecycleState s1 = kKillStarted
              /\ exists cancels,
                   calls (_executor s1)
                   = calls (_executor s) ++ MadeEvent (nextId (_executor s)) :: cancels
                   /\ Forall isCancelled cancels
         else _lifecycleState s1 = kKillComplete
              /\ exists entries,
                   calls (_executor s1)
                   = calls (_executor s)
                       ++ MadeEvent (nextId (_executor s))
                            :: entries ++ [Signalled (nextId (_executor s))]
                   /\ Forall2 dispatches entries (killCommands s (_remotes s))).
Proof.
  unfold kill, _haveOutstandingBatchRequests, cancelOutstanding, _scheduleKillCursors.
  unfoldM. fold (outstanding s).
  destruct (_killCursorsScheduledEvent s) as [e|] eqn:Hev; simpl.
  { destruct (negb (bool_decide (_lifecycleState s = kAlive))) eqn:Hlc; [|done].
    intros ?. simplify_eq. left. exists e.
    apply negb_true_iff, bool_decide_eq_false in Hlc. done. }
  intros H. right. unfold makeEvent in H.
  destruct (inShutdown (_executor s)) eqn:Hsd; simpl in H.
  - left. change (existsb _ _) with (outstanding s) in H.
    destruct (outstanding s); simpl in H; simplify_eq; split_and!; try done;
      by destruct s.
  - right. change (existsb _ _) with (outstanding s) in H.
    destruct (outstanding s) eqn:Hout; simpl in H.
    + simplify_eq. simpl. split_and!; try done.
      destruct (cancelOutstanding_calls (_remotes s)
                  (draw (accept (MadeEvent (nextId (_executor s))) (_executor s))))
        as (cancels & -> & Hall).
      exists cancels. simpl. by rewrite <- app_assoc.
    + destruct (scheduleKillCursors_loop _ _ _) as [[u s2]|] eqn:Hloop; [|done].
      apply scheduleKillCursors_loop_spec in Hloop
        as (ex & entries & -> & Hsd' & Hcalls & Hdisp); [|done].
      simpl in *. simplify_eq. simpl. split_and!; try done.
      exists entries. rewrite Hcalls, <- !app_assoc. done.
Qed.

Lemma kill_again (opCtx : option nat) (s : AsyncResultsMerger) (e : nat) :
  _killCursorsScheduledEvent s = Some e -> _lifecycleState s <> kAlive ->
  kill opCtx s = Some (Some e, s).
Proof.
  intros Hev Hlc. unfold kill. unfoldM. rewrite Hev. simpl.
  apply (bool_decide_eq_false_2 (_lifecycleState s = kAlive)) in Hlc. by rewrite Hlc.
Qed.

Lemma kill_shutdown (opCtx : option nat) (s : AsyncResultsMerger) :
  _killCursorsScheduledEvent s = None -> inShutdown (_executor s) = true ->
  kill opCtx s
  = Some (None,
          set_lifecycleState (if outstanding s then kKillStarted else kKillComplete) s).
Proof.
  intros Hev Hsd. unfold kill, _haveOutstandingBatchRequests. unfoldM.
  rewrite Hev. simpl. unfold makeEvent. rewrite Hsd. simpl.
  change (existsb _ _) with (outstanding s).
  destruct (outstanding s); simpl; by destruct s.
Qed.


(** Nothing but [kill] sets the kill event, nothing revives a merger, and
    nothing ends the executor's shutdown. *)

Lemma quiet_refl (s : AsyncResultsMerger) : quiet s s.
Proof. done. Qed.



















(** ** Events *)

Lemma nextEvent_loop_calls (todo i : nat) (s s' : AsyncResultsMerger)
    (res : option Status) :
  nextEvent_loop todo i s = Some (res, s') ->
  exists fetches,
    calls (_executor s') = calls (_executor s) ++ fetches
    /\ Forall isScheduled fetches.
Proof.
  revert i s. induction todo as [|todo IH]; intros i s; simpl.
  - unfoldM. intros ?. simplify_eq. exists []. by rewrite app_nil_r.
  - unfold bind at 1. unfold remoteAt, defined.
    destruct (_remotes s !! i) as [r|] eqn:Hr; [|done].
    destruct (negb (isOK (status r))).
    { unfoldM. intros ?. simplify_eq. exists []. by rewrite app_nil_r. }
    destruct (negb (hasNext r) && negb (exhausted r) && negb (isValid (cbHandle r)));
      [|apply IH].
    unfold bind at 1.
    destruct (_askForNextBatch i s) as [[st s1]|] eqn:Hask; [|done].
    assert (Hone : exists fetches, calls (_executor s1) = calls (_executor s) ++ fetches
                                   /\ Forall isScheduled fetches).
    { apply askForNextBatch_inv in Hask as (r0 & _ & _ & [(_ & _ & ->)|(Hsd & _ & ->)]).
      - exists []. by rewrite app_nil_r.
      - simpl. destruct (scheduleRemoteCommand_accepted (getMoreRequest s r0) _ Hsd)
          as (_ & -> & _).
        eexists. split; [done|]. constructor; [|constructor]. by eexists _, _. }
    destruct Hone as (f1 & Hf1 & Hall1).
    destruct (negb (isOK st)).
    + unfoldM. intros ?. simplify_eq. by exists f1.
    + intros H. apply IH in H as (f2 & Hf2 & Hall2).
      exists (f1 ++ f2). rewrite Hf2, Hf1, <- app_assoc. split; [done|].
      by apply Forall_app.
Qed.

(** C10.  When [nextEvent] has scheduled what there was to schedule and
    obtained a new event, and the merger is ready at the moment that event
    is installed as the current one, then [nextEvent] returns that event
    already signalled: making the event and signalling it are the last two
    calls the executor has received, after the fetches scheduled by this
    call; and the current event is cleared again. *)
Theorem nextEvent_no_lost_wakeup (s s1 s2 : AsyncResultsMerger) (e : nat)
    (ex1 : TaskExecutor) :
  _lifecycleState s = kAlive ->
  _currentEvent s = None ->
  nextEvent_loop (length (_remotes s)) 0 s = Some (None, s1) ->
  makeEvent (_executor s1) = (SWValue e, ex1) ->
  _ready (set_currentEvent (Some e) (set_executor ex1 s1)) = Some (true, s2) ->
  exists s' fetches,
    nextEvent s = Some (SWValue (Some e), s')
    /\ _currentEvent s' = None
    /\ calls (_executor s')
       = calls (_executor s) ++ fetches ++ [MadeEvent e; Signalled e]
    /\ Forall isScheduled fetches
    /\ signalled (_executor s') = signalled (_executor s) ++ [e].
Proof.
  intros Hlc Hcur Hloop Hmake Hready.
  destruct (nextEvent_loop_calls _ _ _ _ _ Hloop) as (fetches & Hcalls & Hall).
  destruct (makeEvent_accepted _ _ _ Hmake) as (_ & _ & _ & Hcalls1 & _).
  destruct (ready_inv _ _ _ Hready) as [st ->].
  unfold nextEvent. unfoldM. rewrite Hlc. simpl. rewrite Hcur. simpl.
  rewrite Hloop, Hmake. unfold _signalCurrentEventIfReady. unfoldM.
  rewrite Hready. simpl. eexists _, fetches. split; [reflexivity|]. simpl.
  split; [done|].
  assert (Hlog : calls ex1 ++ [Signalled e]
                 = calls (_executor s) ++ fetches ++ [MadeEvent e; Signalled e]).
  { rewrite Hcalls1, Hcalls, <- !app_assoc. done. }
  split; [done|]. split; [done|].
  unfold signalled. simpl. rewrite Hlog, !omap_app. simpl.
  assert (Hnone : omap (fun c => match c with Signalled e0 => Some e0 | _ => None end)
                       fetches = []).
  { clear -Hall. induction Hall as [|c cs (h & req & ->) _ IH]; [done|]. simpl. done. }
  by rewrite Hnone.
Qed.

(** ** The ordering of sort keys *)

Lemma cmpZ_cases (x y : Z) :
  ((x < y)%Z /\ cmpZ x y = (-1)%Z)
  \/ (x = y /\ cmpZ x y = 0%Z)
  \/ ((y < x)%Z /\ cmpZ x y = 1%Z).
Proof. unfold cmpZ. destruct (Z.compare_spec x y); auto. Qed.

Lemma woCompare_cons (p : list (string * Z)) :
  exists sg : Z, (sg = 1 \/ sg = -1)%Z /\
    forall na nb x y a b,
      woCompare ((na, x) :: a) ((nb, y) :: b) p
      = if (sg * cmpZ x y =? 0)%Z then woCompare a b (tail p) else (sg * cmpZ x y)%Z.
Proof.
  destruct p as [|[n o] p]; [exists 1%Z|destruct (o <? 0)%Z eqn:Ho; [exists (-1)%Z|exists 1%Z]].
  all: split; [auto|]; intros; simpl; rewrite ?Ho.
  all: destruct (cmpZ_cases x y) as [[? ->]|[[? ->]|[? ->]]]; reflexivity.
Qed.

Lemma woCompare_trans (p a b c : list (string * Z)) :
  (woCompare a b p <= 0)%Z -> (woCompare b c p <= 0)%Z -> (woCompare a c p <= 0)%Z.
Proof.
  revert p b c. induction a as [|[na x] a IH]; intros p b c.
  - destruct b as [|[nb y] b], c as [|[nc z] c]; simpl; lia.
  - destruct b as [|[nb y] b]; [simpl; lia|].
    destruct (woCompare_cons p) as (sg & Hsg & Hw).
    destruct c as [|[nc z] c].
    + rewrite Hw. simpl.
      destruct (cmpZ_cases x y) as [[? ->]|[[? ->]|[? ->]]];
        destruct Hsg as [-> | ->]; simpl; lia.
    + rewrite !Hw.
      destruct (cmpZ_cases x y) as [[Hxy ->]|[[Hxy ->]|[Hxy ->]]];
      destruct (cmpZ_cases y z) as [[Hyz ->]|[[Hyz ->]|[Hyz ->]]];
      destruct (cmpZ_cases x z) as [[Hxz ->]|[[Hxz ->]|[Hxz ->]]];
      try lia; destruct Hsg as [-> | ->]; simpl; try lia; apply IH.
Qed.

Lemma woCompare_total (p a b : list (string * Z)) :
  (0 < woCompare a b p)%Z -> (woCompare b a p <= 0)%Z.
Proof.
  revert p b. induction a as [|[na x] a IH]; intros p b.
  - destruct b as [|[nb y] b]; simpl; lia.
  - destruct b as [|[nb y] b]; [simpl; lia|].
    destruct (woCompare_cons p) as (sg & Hsg & Hw).
    rewrite !Hw.
    destruct (cmpZ_cases x y) as [[Hxy ->]|[[Hxy ->]|[Hxy ->]]];
    destruct (cmpZ_cases y x) as [[Hyx ->]|[[Hyx ->]|[Hyx ->]]];
    try lia; destruct Hsg as [-> | ->]; simpl; try lia; apply IH.
Qed.

Lemma woCompare_refl (p a : list (string * Z)) : (woCompare a a p <= 0)%Z.
Proof.
  revert p. induction a as [|[na x] a IH]; intros p; [simpl; lia|].
  destruct (woCompare_cons p) as (sg & Hsg & Hw). rewrite Hw.
  destruct (cmpZ_cases x x) as [[? ->]|[[? ->]|[? ->]]]; try lia.
  rewrite Z.mul_0_r. simpl. apply IH.
Qed.

#[global] Instance result_le_trans (sortSpec : list (string * Z)) :
  Transitive (result_le sortSpec).
Proof.
  intros a b c. unfold result_le, key_le.
  destruct (sortKeyOf a), (sortKeyOf b), (sortKeyOf c); try done.
  apply woCompare_trans.
Qed.

#[global] Instance doc_le_trans (sortSpec : list (string * Z)) :
  Transitive (doc_le sortSpec).
Proof. intros a b c. unfold doc_le. apply result_le_trans. Qed.

Lemma result_le_refl (sortSpec : list (string * Z)) (a : ClusterQueryResult) :
  keyed a -> result_le sortSpec a a.
Proof.
  intros [k Hk]. unfold result_le, key_le. rewrite Hk. apply woCompare_refl.
Qed.

(** ** The top of the queue *)

Lemma MergingComparator_headKey (rs : list RemoteCursorData) (sortSpec : list (string * Z))
    (x y : nat) :
  MergingComparator rs sortSpec x y =
    match headKey rs x, headKey rs y with
    | Some kx, Some ky => Some (woCompare kx ky sortSpec >? 0)%Z
    | _, _ => None
    end.
Proof.
  unfold MergingComparator, headKey.
  destruct (rs !! x) as [l|]; [|done].
  destruct (rs !! y) as [r|]; [|by destruct (docBuffer l) as [|d ?]; [|destruct (sortKeyOf d)]].
  destruct (docBuffer l) as [|dl ?]; [done|].
  destruct (docBuffer r) as [|dr ?]; [by destruct (sortKeyOf dl)|]. done.
Qed.

Lemma pq_top_min (rs : list RemoteCursorData) (sortSpec : list (string * Z))
    (q : list nat) (t : nat) :
  (forall j, j ∈ q -> is_Some (headKey rs j)) ->
  pq_top (MergingComparator rs sortSpec) q = Some t ->
  exists kt, headKey rs t = Some kt /\
    forall j, j ∈ q -> exists kj, headKey rs j = Some kj /\ key_le sortSpec kt kj.
Proof.
  revert t. induction q as [|x q IH]; intros t Hkeys; simpl; [done|].
  destruct (Hkeys x) as [kx Hkx]; [by left|].
  destruct q as [|y q'].
  - intros [= <-]. exists kx. split; [done|].
    intros j Hj. apply list_elem_of_singleton in Hj as ->.
    exists kx. split; [done|]. apply woCompare_refl.
  - destruct (pq_top _ (y :: q')) as [b|] eqn:Hb; [|done].
    destruct (IH b) as (kb & Hkb & Hmin); [intros j Hj; apply Hkeys; by right|done|].
    rewrite MergingComparator_headKey, Hkx, Hkb.
    destruct (woCompare kx kb sortSpec >? 0)%Z eqn:Hcmp; intros [= <-].
    + exists kb. split; [done|]. intros j Hj.
      apply elem_of_cons in Hj as [->|Hj]; [|by apply Hmin].
      exists kx. split; [done|]. apply woCompare_total. lia.
    + exists kx. split; [done|]. intros j Hj.
      apply elem_of_cons in Hj as [->|Hj].
      * exists kx. split; [done|]. apply woCompare_refl.
      * destruct (Hmin j Hj) as (kj & Hkj & Hle). exists kj. split; [done|].
        unfold key_le in *. eapply woCompare_trans; [|exact Hle]. lia.
Qed.

(** ** One step, seen from a remote *)

Lemma step_params (o : Op) (s s' : AsyncResultsMerger) (out : Out) :
  step o s = Some (out, s') -> _params s' = _params s.
Proof.
  destruct o; simpl; unfold bind at 1.
  - destruct (ready s) as [[b s1]|] eqn:H; [|done]. unfoldM. intros ?. simplify_eq.
    apply ready_core in H. unfold core in H. by injection H.
  - destruct (nextReady s) as [[b s1]|] eqn:H; [|done]. unfoldM. intros ?. simplify_eq.
    by apply nextReady_effect in H as [? _].
  - destruct (nextEvent s) as [[b s1]|] eqn:H; [|done]. unfoldM. intros ?. simplify_eq.
    by apply nextEvent_effect in H as [? _].
  - destruct (callback response remoteIndex s) as [[b s1]|] eqn:H; [|done].
    unfoldM. intros ?. simplify_eq.
    by apply callback_effect in H as (x & _ & _ & ? & _).
  - destruct (kill opCtx0 s) as [[b s1]|] eqn:H; [|done]. unfoldM. intros ?. simplify_eq.
    apply kill_core in H. unfold core in H. by injection H.
  - unfold detachFromOperationContext. unfoldM. intros ?. by simplify_eq.
  - unfold reattachToOperationContext. unfoldM.
    destruct (negb (isValid (_opCtx s))); [|done]. intros ?. by simplify_eq.
  - unfold setAwaitDataTimeout. unfoldM.
    destruct (negb _); intros ?; by simplify_eq.
  - unfold remotesExhausted, _remotesExhausted. unfoldM. intros ?. by simplify_eq.
  - unfoldM. intros ?. by simplify_eq.
Qed.

Lemma evolves_same (o : Op) (out : Out) (j : nat) (r : RemoteCursorData) :
  (forall response, o <> OpResponse j response) -> evolves o out j r r.
Proof.
  intros Hne. left. split; [done|]. split; [done|]. intros ops.
  destruct o; simpl; try done. destruct (decide (remoteIndex = j)) as [->|]; [|done].
  by destruct (Hne response).
Qed.

Lemma step_evolves (o : Op) (s s' : AsyncResultsMerger) (out : Out) (j : nat)
    (r1 : RemoteCursorData) :
  Inv s -> step o s = Some (out, s') ->
  _remotes s' !! j = Some r1 ->
  exists r, _remotes s !! j = Some r /\ evolves o out j r r1.
Proof.
  intros HI. destruct o; simpl; unfold bind at 1.
  - destruct (ready s) as [[b s1]|] eqn:H; [|done]. unfoldM. intros ?. simplify_eq.
    apply ready_core in H. unfold core in H. injection H as _ -> _.
    intros Hj. exists r1. split; [done|]. by apply evolves_same.
  - destruct (nextReady s) as [[b s1]|] eqn:H; [|done]. unfoldM. intros ?. simplify_eq.
    apply nextReady_effect in H
      as [_ [(-> & _)|(g & x & front & rest & -> & Hg & Hbg & _ & -> & _)]].
    { intros Hj. exists r1. split; [done|]. by apply evolves_same. }
    destruct (decide (j = g)) as [->|Hne].
    + rewrite list_lookup_insert_eq by (by eapply lookup_lt_Some). intros [= <-].
      exists x. split; [done|]. right. left. exists front. simpl. done.
    + rewrite list_lookup_insert_ne by done. intros Hj.
      exists r1. split; [done|]. by apply evolves_same.
  - destruct (nextEvent s) as [[b s1]|] eqn:H; [|done]. unfoldM. intros ?. simplify_eq.
    apply nextEvent_effect in H as (_ & _ & [Hlen Hsch]). intros Hj.
    destruct (lookup_lt_is_Some_2 (_remotes s) j) as [r Hr].
    { rewrite <- Hlen. by eapply lookup_lt_Some. }
    exists r. split; [done|].
    destruct (Hsch j r Hr) as [Hsame|(h & Hh & _)].
    + assert (r1 = r) as -> by congruence. by apply evolves_same.
    + assert (r1 = with_cbHandle (Some h) r) as -> by congruence.
      left. done.
  - destruct (callback response remoteIndex s) as [[b s1]|] eqn:H; [|done].
    unfoldM. intros ?. simplify_eq.
    apply callback_effect in H as (x & Hx & Hcb & _ & r' & -> & Hdoc & _).
    destruct (inv_inflight _ HI _ _ Hx Hcb) as (Hb & Hc & _).
    destruct (decide (j = remoteIndex)) as [->|Hne].
    + rewrite list_lookup_insert_eq by (by eapply lookup_lt_Some). intros [= <-].
      exists x. split; [done|]. right. right.
      destruct Hdoc as [Hnil|(pre & Hpre & Happ & _)].
      * exists response, []. rewrite Hnil. split_and!; try done. apply prefix_nil.
      * exists response, pre. rewrite Happ, Hb. done.
    + rewrite list_lookup_insert_ne by done. intros Hj.
      exists r1. split; [done|]. left. split; [done|]. split; [done|].
      intros ops. simpl. by destruct (decide (remoteIndex = j)) as [->|].
  - destruct (kill opCtx0 s) as [[b s1]|] eqn:H; [|done]. unfoldM. intros ?. simplify_eq.
    apply kill_core in H. unfold core in H. injection H as _ -> _.
    intros Hj. exists r1. split; [done|]. by apply evolves_same.
  - unfold detachFromOperationContext. unfoldM. intros ?. simplify_eq.
    intros Hj. exists r1. split; [done|]. by apply evolves_same.
  - unfold reattachToOperationContext. unfoldM.
    destruct (negb (isValid (_opCtx s))); [|done]. intros ?. simplify_eq.
    intros Hj. exists r1. split; [done|]. by apply evolves_same.
  - unfold setAwaitDataTimeout. unfoldM.
    destruct (negb _); intros ?; simplify_eq;
      intros Hj; exists r1; (split; [done|]); by apply evolves_same.
  - unfold remotesExhausted, _remotesExhausted. unfoldM. intros ?. simplify_eq.
    intros Hj. exists r1. split; [done|]. by apply evolves_same.
  - unfoldM. intros ?. simplify_eq.
    intros Hj. exists r1. split; [done|]. by apply evolves_same.
Qed.

(** ** The sorted merge *)

Lemma StronglySorted_drop_middle {A} (R : relation A) (l1 l2 l3 : list A) :
  StronglySorted R (l1 ++ l2 ++ l3) -> StronglySorted R (l1 ++ l3).
Proof.
  rewrite !StronglySorted_app. intros (H12 & H1 & _ & H2 & H3).
  split; [|done]. intros x y Hx Hy. apply H12; [done|].
  apply elem_of_app. by right.
Qed.

Lemma streamsSorted_step (sortSpec : list (string * Z)) (o : Op) (ops : list Op)
    (s s' : AsyncResultsMerger) (out : Out) :
  Inv s -> step o s = Some (out, s') ->
  streamsSorted sortSpec s (o :: ops) -> streamsSorted sortSpec s' ops.
Proof.
  intros HI Hstep Hss j r1 Hj.
  destruct (step_evolves _ _ _ _ _ _ HI Hstep Hj) as (r & Hr & Hev).
  specialize (Hss j r Hr).
  destruct Hev as [(Hb & _ & Hf)|[(front & -> & _ & Hb & _)|(resp & pre & -> & _ & Hb & Hpre & Hb1)]].
  - by rewrite Hb, <- (Hf ops).
  - rewrite Hb in Hss. simpl in Hss. by apply StronglySorted_inv in Hss as [? _].
  - rewrite Hb in Hss. simpl in Hss. rewrite decide_True in Hss by done.
    destruct Hpre as [k Hk]. rewrite Hk, <- app_assoc, !fmap_app in Hss.
    rewrite Hb1. by eapply StronglySorted_drop_middle.
Qed.

Lemma lowerBound_step (sortSpec : list (string * Z)) (y : ClusterQueryResult) (o : Op)
    (ops : list Op) (s s' : AsyncResultsMerger) (out : Out) :
  Inv s -> step o s = Some (out, s') ->
  lowerBound sortSpec y s (o :: ops) -> lowerBound sortSpec y s' ops.
Proof.
  intros HI Hstep Hlb j r1 Hj.
  destruct (step_evolves _ _ _ _ _ _ HI Hstep Hj) as (r & Hr & Hev).
  destruct (Hlb j r Hr) as [Hbuf Hfut].
  destruct Hev as [(Hb & Hc & Hf)|[(front & -> & _ & Hb & Hc)|(resp & pre & -> & Hc & Hb & Hpre & Hb1)]].
  - rewrite Hb, Hc, <- (Hf ops). done.
  - rewrite Hb in Hbuf. apply Forall_cons in Hbuf as [_ Hbuf]. rewrite Hc. done.
  - specialize (Hfut Hc). simpl in Hfut. rewrite decide_True in Hfut by done.
    destruct Hpre as [k Hk]. rewrite Hk, <- app_assoc, !fmap_app in Hfut.
    apply Forall_app in Hfut as [Hpre Hfut]. apply Forall_app in Hfut as [_ Hfut].
    rewrite Hb1. done.
Qed.

Lemma nextReady_doc_ready (s s' : AsyncResultsMerger) (obj : BSONObj) :
  hasSort s = true ->
  _ready s = Some (true, s) ->
  nextReady s = Some (SWValue (Some obj), s') ->
  forall r, r ∈ _remotes s -> status r = OK /\ (hasNext r = true \/ exhausted r = true).
Proof.
  unfold hasSort. intros Hs Hready Hnext.
  unfold nextReady in Hnext. unfoldM_in Hnext.
  destruct (negb (bool_decide (_lifecycleState s = kAlive))) eqn:Hlc; [done|].
  destruct (negb (isOK (_status s))) eqn:Hst; [done|].
  destruct (_eofNext s) eqn:Heof; [done|]. clear Hnext.
  apply negb_false_iff, isOK_true in Hst.
  unfold _ready, _readySorted in Hready. unfoldM_in Hready.
  rewrite Hlc, Heof in Hready.
  destruct (firstError (_remotes s)) as [st|] eqn:Hfe.
  { exfalso. apply firstError_Some in Hfe as [Hne _]. injection Hready as Hs'.
    apply Hne. rewrite <- Hst, <- Hs'. done. }
  rewrite Hs in Hready.
  destruct (bool_decide (tailableMode (_params s) = kNormal)); [|done].
  injection Hready as Hall. intros r Hr. split.
  - by apply (proj1 (firstError_None _) Hfe).
  - by apply (proj1 (readySorted_all _) Hall).
Qed.

Lemma result_le_doc (sortSpec : list (string * Z)) (a b : BSONObj) :
  result_le sortSpec (Some a) (Some b) <-> doc_le sortSpec a b.
Proof. done. Qed.

Lemma run_sorted (sortSpec : list (string * Z)) (ops : list Op) :
  forall (s s' : AsyncResultsMerger) (outs : list Out),
    Inv s -> sort (_params s) = sortSpec -> sortSpec <> [] ->
    streamsSorted sortSpec s ops ->
    readyBeforeNext ops s ->
    runOps ops s = Some (outs, s') ->
    Sorted (doc_le sortSpec) (documents outs)
    /\ forall y, lowerBound sortSpec y s ops ->
                 Forall (fun d => result_le sortSpec y (Some d)) (documents outs).
Proof.
  induction ops as [|o ops IH]; intros s s' outs HI Hsort Hne Hss Hpre; simpl.
  { unfoldM. intros ?. simplify_eq. simpl. split; constructor. }
  unfold bind at 1. destruct (step o s) as [[out s1]|] eqn:Hstep; [|done].
  unfold bind at 1. destruct (runOps ops s1) as [[outs1 s2]|] eqn:Hrun; [|done].
  unfoldM. intros ?. simplify_eq.
  destruct Hpre as [Hready Hpre]. rewrite Hstep in Hpre.
  pose proof (Inv_step _ _ _ _ HI Hstep) as HI1.
  pose proof (step_params _ _ _ _ Hstep) as Hp1.
  pose proof (streamsSorted_step _ _ _ _ _ _ HI Hstep Hss) as Hss1.
  destruct (IH s1 s' outs1 HI1) as [Hsorted Hbound]; try done; [congruence|].
  assert (Hkeep : forall y, lowerBound (sort (_params s)) y s (o :: ops) ->
            Forall (fun d => result_le (sort (_params s)) y (Some d)) (documents outs1)).
  { intros y Hy. apply Hbound.
    eapply lowerBound_step; [exact HI|exact Hstep|exact Hy]. }
  assert (Hdoc : (exists obj, o = OpNextReady /\ out = OutNext (SWValue (Some obj)))
                 \/ documents (out :: outs1) = documents outs1).
  { destruct o; simpl in Hstep; unfold bind in Hstep;
      match type of Hstep with
      | context [match ?m with _ => _ end] => destruct m as [[? ?]|]; [|done]
      end; unfold ret in Hstep; simplify_eq; simpl; auto.
    destruct s0 as [[obj|]|]; simpl; eauto. }
  destruct Hdoc as [(obj & -> & ->)|Hdoc]; [|by rewrite Hdoc].
  simpl in Hstep. unfold bind in Hstep.
  destruct (nextReady s) as [[res s0]|] eqn:Hnext; [|done].
  unfold ret in Hstep. simplify_eq.
  assert (Hs : hasSort s = true) by by apply hasSort_true.
  pose proof (nextReady_doc_ready _ _ _ Hs (Hready eq_refl) Hnext) as Hall.
  pose proof Hnext as Heff. apply nextReady_effect in Heff
    as [_ [(_ & _ & Hno)|(g & r & front & rest & Hfront & Hg & Hb & Hst & Hr1 & Hq)]];
    [by destruct (Hno obj)|].
  injection Hfront as <-. rewrite Hs in Hq. destruct Hq as [Htop _].
  assert (Hkeys : forall j, j ∈ _mergeQueue s -> is_Some (headKey (_remotes s) j)).
  { intros j Hj. destruct (inv_queue _ HI j Hj) as (_ & x & Hx & Hbx & _).
    unfold headKey. rewrite Hx. destruct (docBuffer x) as [|d ?] eqn:Hd; [done|].
    pose proof (inv_keyed _ HI Hne j x Hx) as Hk. rewrite Hd in Hk.
    by apply Forall_cons in Hk as [? _]. }
  destruct (pq_top_min _ _ _ _ Hkeys Htop) as (kt & Hkt & Hmin).
  assert (Hobj : sortKeyOf (Some obj) = Some kt).
  { unfold headKey in Hkt. by rewrite Hg, Hb in Hkt. }
  assert (Hnew : lowerBound (sort (_params s)) (Some obj) s1 ops).
  { assert (Hstep' : step OpNextReady s = Some (OutNext (SWValue (Some obj)), s1)).
    { simpl. unfold bind. by rewrite Hnext. }
    eapply lowerBound_step; [exact HI|exact Hstep'|].
    intros j x Hx. pose proof (Hss j x Hx) as Hsj. simpl in Hsj.
    destruct (docBuffer x) as [|d restj] eqn:Hd.
    - split; [constructor|]. intros Hc.
      destruct (Hall x) as [_ [Hn|He]]; [by eapply list_elem_of_lookup_2| |].
      + unfold hasNext in Hn. by rewrite Hd in Hn.
      + unfold exhausted in He. apply Z.eqb_eq in He. done.
    - assert (Hle : result_le (sort (_params s)) (Some obj) d).
      { assert (Hjq : j ∈ _mergeQueue s).
        { destruct (Hall x) as [Hstx _]; [by eapply list_elem_of_lookup_2|].
          eapply inv_queued; eauto. by rewrite Hd. }
        destruct (Hmin j Hjq) as (kj & Hkj & Hle).
        unfold headKey in Hkj. rewrite Hx, Hd in Hkj.
        unfold result_le. by rewrite Hobj, Hkj. }
      simpl in Hsj. apply StronglySorted_inv in Hsj as [_ Hsj].
      assert (Hrest : Forall (result_le (sort (_params s)) (Some obj))
                        (restj ++ (Some <$> future j ops))).
      { eapply Forall_impl; [exact Hsj|]. intros z Hz. simpl in Hz. by etrans. }
      apply Forall_app in Hrest as [Hrest Hfut].
      split; [by constructor|]. done. }
  split.
  - simpl. constructor; [done|].
    specialize (Hbound _ Hnew). destruct (documents outs1) as [|d ds]; constructor.
    by apply Forall_cons in Hbound as [? _].
  - intros y Hy. simpl. constructor.
    + destruct (Hy g r Hg) as [Hbuf _]. rewrite Hb in Hbuf.
      by apply Forall_cons in Hbuf as [? _].
    + by apply Hkeep.
Qed.

Lemma construct_loop_buffers (rs : list RemoteCursor) :
  forall (k : nat) (s s' : AsyncResultsMerger) (u : unit),
    length (_remotes s) = k ->
    construct_loop k rs s = Some (u, s') ->
    _params s' = _params s /\
    forall j r, _remotes s' !! j = Some r ->
      (j < k /\ _remotes s !! j = Some r)
      \/ (k <= j /\ exists remote, rs !! (j - k) = Some remote
            /\ docBuffer r
               = Some <$> accepted (hasSort s) (getBatch (cursorResponse remote))).
Proof.
  induction rs as [|remote rs IH]; intros k s s' u Hk; subst k; simpl.
  - unfoldM. intros ?. simplify_eq. split; [done|]. intros j r Hj. left.
    split; [by eapply lookup_lt_Some|done].
  - unfold bind at 1. unfold modify at 1.
    set (fresh := newRemoteCursorData _ _ _).
    set (s1 := set_remotes _ s).
    assert (Hr1 : _remotes s1 !! length (_remotes s) = Some fresh).
    { subst s1. simpl. rewrite lookup_app_r by lia.
      by replace (length (_remotes s) - length (_remotes s)) with 0 by lia. }
    unfold bind at 1.
    rewrite (addBatchToBuffer_spec _ _ _ _ Hr1). cbv zeta.
    set (s2 := if _ && _ then _ else _).
    assert (Hp2 : _params s2 = _params s) by (subst s2; by destruct (_ && _)).
    assert (Hr2 : _remotes s2
                  = <[length (_remotes s) := appended (hasSort s)
                                     (getBatch (cursorResponse remote)) fresh]>
                      (_remotes s ++ [fresh])).
    { subst s2. by destruct (_ && _). }
    clearbody s2. intros H.
    apply IH in H as [Hp Hbuf]; [|rewrite Hr2, length_insert, length_app; simpl; lia].
    split; [congruence|]. intros j r Hj.
    destruct (Hbuf j r Hj) as [[Hlt Hj2]|(Hge & rc & Hrc & Hdoc)].
    + rewrite Hr2 in Hj2. destruct (decide (j = length (_remotes s))) as [->|Hne].
      * right. split; [lia|]. exists remote. rewrite Nat.sub_diag. split; [done|].
        rewrite list_lookup_insert_eq in Hj2 by (rewrite length_app; simpl; lia).
        injection Hj2 as <-. unfold appended. by destruct (forallb _ _).
      * left. split; [lia|]. rewrite list_lookup_insert_ne in Hj2 by done.
        rewrite lookup_app_l in Hj2 by lia. done.
    + right. split; [lia|]. exists rc.
      replace (j - length (_remotes s)) with (S (j - S (length (_remotes s)))) by lia.
      split; [done|]. rewrite Hdoc. unfold hasSort. by rewrite Hp2.
Qed.

Lemma new_buffers (opCtx : option nat) (executor : TaskExecutor)
    (params : ClusterClientCursorParams) (s : AsyncResultsMerger) :
  newAsyncResultsMerger opCtx executor params = Some s ->
  _params s = params /\
  forall j r, _remotes s !! j = Some r ->
    exists remote, remotes params !! j = Some remote
      /\ docBuffer r
         = Some <$> accepted (negb (isEmpty (sort params)))
                      (getBatch (cursorResponse remote)).
Proof.
  unfold newAsyncResultsMerger, construct. unfold bind, modify.
  destruct (construct_loop 0 _ _) as [[u s1]|] eqn:Hloop; [|done].
  apply construct_loop_buffers in Hloop as [Hp Hbuf]; [|done].
  intros [= <-]. simpl. split; [done|]. intros j r Hj.
  destruct (Hbuf j r Hj) as [[Hlt _]|(_ & remote & Hrc & Hdoc)]; [lia|].
  exists remote. rewrite Nat.sub_0_r in Hrc. done.
Qed.

(** C5.  With a sort configured, take any run of a freshly built merger in
    which the consumer calls [nextReady] only where [ready()] has answered
    true, and in which the documents each remote delivers (its first batch,
    then its responses) are in non-decreasing order of their sort keys.
    Then the documents handed out by the successive [nextReady] calls are
    in non-decreasing order too: each one sorts no later than the next. *)
Theorem sorted_merge_monotonic (params : ClusterClientCursorParams)
    (opCtx : option nat) (executor : TaskExecutor) (s0 s' : AsyncResultsMerger)
    (ops : list Op) (outs : list Out) :
  sort params <> [] ->
  newAsyncResultsMerger opCtx executor params = Some s0 ->
  readyBeforeNext ops s0 ->
  (forall i, Sorted (doc_le (sort params)) (delivered params i ops)) ->
  runOps ops s0 = Some (outs, s') ->
  Sorted (doc_le (sort params)) (documents outs).
Proof.
  intros Hsort Hnew Hpre Hdel Hrun.
  pose proof (Inv_new _ _ _ _ Hnew) as HI.
  destruct (new_buffers _ _ _ _ Hnew) as [Hp Hbuf].
  eapply (run_sorted (sort params) ops s0 s' outs); try done; [by rewrite Hp|].
  intros j r Hj. destruct (Hbuf j r Hj) as (remote & Hrc & ->).
  specialize (Hdel j). unfold delivered in Hdel. rewrite Hrc in Hdel.
  apply Sorted_StronglySorted in Hdel; [|apply _].
  destruct (accepted_prefix (negb (isEmpty (sort params)))
              (getBatch (cursorResponse remote))) as [[k Hk] _].
  rewrite Hk, <- app_assoc in Hdel.
  pose proof (StronglySorted_fmap Some (doc_le (sort params))
                (result_le (sort params)) _ (fun x y H => H) Hdel) as Hres.
  rewrite !fmap_app in Hres. by eapply StronglySorted_drop_middle.
Qed.

(** ** The properties on concrete mergers *)

Ltac evaluate :=
  split_and!;
  first [ vm_compute; reflexivity
        | vm_compute; discriminate
        | lia
        | vm_compute; intros H; discriminate H ].

Lemma runOps_reachable (ops : list Op) (s s' : AsyncResultsMerger) (outs : list Out) :
  reachable s -> runOps ops s = Some (outs, s') -> reachable s'.
Proof.
  revert s outs. induction ops as [|o ops IH]; intros s outs Hs; simpl.
  - unfoldM. intros ?. by simplify_eq.
  - unfold bind at 1. destruct (step o s) as [[out s1]|] eqn:Hstep; [|done].
    unfold bind at 1. destruct (runOps ops s1) as [[outs1 s2]|] eqn:Hrun; [|done].
    unfoldM. intros ?. simplify_eq.
    eapply IH; [|exact Hrun]. by eapply reachable_step.
Qed.

Lemma started_reachable (params : ClusterClientCursorParams) (s : AsyncResultsMerger) :
  newAsyncResultsMerger (Some 0) idle params = Some s -> reachable (started params).
Proof.
  intros H. unfold started. rewrite H. simpl. by eapply reachable_new.
Qed.

(** C1: with a cap of 2 and 2 documents fetched, the follow-up asks for 2
    documents, not for [max (2 - 2) 1 = 1]; answered in full, it takes the
    remote to 4 documents. *)
Lemma follow_up_batch_size_counterexample :
  batchSize capped = Some 2%Z
  /\ fetchedCount <$> _remotes (after capped [OpReady; OpNextReady; OpReady; OpNextReady])
     = [2%Z]
  /\ commands (_executor (after capped drainCapped)) = [GetMore ns 11 (Some 2%Z) None]
  /\ Some 2%Z <> Some (Z.max (2 - 2) 1)
  /\ fetchedCount
       <$> _remotes (after capped (drainCapped ++ [OpResponse 0 (reply 11 [doc 3; doc 4])]))
     = [4%Z]
  /\ (2 < 4)%Z.
Proof. evaluate. Qed.

Lemma follow_up_batch_size_witness :
  exists h req requested,
    scheduled (_executor (after capped drainCapped))
    = scheduled (_executor (after capped [OpReady; OpNextReady; OpReady; OpNextReady]))
      ++ [(h, req)]
    /\ cmdObj req = GetMore ns 11 requested None
    /\ requested = Some 2%Z.
Proof.
  destruct (follow_up_batch_size
              (after capped [OpReady; OpNextReady; OpReady; OpNextReady])
              (default (started capped)
                 (snd <$> _askForNextBatch 0
                            (after capped [OpReady; OpNextReady; OpReady; OpNextReady])))
              0
              {| cursorId := 11; cursorNss := ns; shardHostAndPort := "A";
                 docBuffer := []; cbHandle := None; status := OK; fetchedCount := 2 |})
    as (h & req & requested & Hsched & Hcmd & Hreq).
  - vm_compute. reflexivity.
  - vm_compute. reflexivity.
  - exists h, req, requested. split; [|split; [exact Hcmd|]].
    + rewrite <- Hsched. vm_compute. reflexivity.
    + destruct Hreq as [Hreq _]. exact Hreq.
Defined.

(** C2: a batch whose second document has no sort key leaves the first
    document in the buffer. *)
Lemma addBatch_missing_sort_key_counterexample :
  sort (_params (started brokenBatch)) <> []
  /\ docBuffer <$> _remotes (started brokenBatch) = [[Some (doc 1)]]
  /\ status <$> _remotes (started brokenBatch) = [InternalError]
  /\ _mergeQueue (started brokenBatch) = [].
Proof. evaluate. Qed.

Lemma addBatch_missing_sort_key_witness :
  exists s' r' bad rest,
    _addBatchToBuffer 0 [doc 7; nokey 8; doc 9] (started threeShards) = Some (false, s')
    /\ _mergeQueue s' = _mergeQueue (started threeShards)
    /\ status r' = InternalError
    /\ [doc 7; nokey 8; doc 9] = accepted true [doc 7; nokey 8; doc 9] ++ bad :: rest
    /\ docBuffer r' = [Some (doc 1); Some (doc 5)] ++ (Some <$> [doc 7]).
Proof.
  destruct (addBatch_missing_sort_key (started threeShards) 0
              {| cursorId := 11; cursorNss := ns; shardHostAndPort := "A";
                 docBuffer := [Some (doc 1); Some (doc 5)]; cbHandle := None;
                 status := OK; fetchedCount := 2 |}
              [doc 7; nokey 8; doc 9])
    as (s' & r' & bad & rest & H1 & H2 & H3 & H4 & H5 & H6 & H7 & H8 & H9).
  - vm_compute. reflexivity.
  - vm_compute. discriminate.
  - exists (nokey 8). split; [|vm_compute; discriminate].
    apply list_elem_of_In. vm_compute. auto.
  - exists s', r', bad, rest. split; [exact H1|]. split; [exact H2|].
    split; [exact H4|]. split; [exact H5|]. exact H8.
Defined.

(** C3: the code at the first failure of a remote, a network error.  The
    claim, and the code's own comments on retries, have it retried by the
    next [nextEvent]; the code makes it final: the remote's status is the
    error, the next [nextEvent] returns it, and no second request is
    scheduled. *)
Lemma failed_batch_not_retried_counterexample :
  status <$> _remotes (after (oneShard false) failFirst) = [HostUnreachable]
  /\ outputs (oneShard false) (failFirst ++ [OpNextEvent])
     = [OutEvent (SWValue (Some 1)); OutUnit; OutEvent (SWError HostUnreachable)]
  /\ commands (_executor (after (oneShard false) (failFirst ++ [OpNextEvent])))
     = [GetMore ns 11 None None]
  /\ cbHandle <$> _remotes (after (oneShard false) (failFirst ++ [OpNextEvent])) = [None].
Proof. evaluate. Qed.

Lemma failed_batch_not_retried_witness :
  exists e s'',
    nextEvent (after (oneShard false) failFirst) = Some (SWError e, s'')
    /\ e <> OK.
Proof.
  destruct (failed_batch_not_retried (failure HostUnreachable) 0
              (after (oneShard false) [OpNextEvent])
              (after (oneShard false) failFirst)
              {| cursorId := 11; cursorNss := ns; shardHostAndPort := "A";
                 docBuffer := []; cbHandle := Some 0; status := OK; fetchedCount := 0 |}
              HostUnreachable tt)
    as (r' & _ & _ & _ & _ & Hfinal).
  - vm_compute. reflexivity.
  - vm_compute. reflexivity.
  - vm_compute. reflexivity.
  - discriminate.
  - vm_compute. reflexivity.
  - destruct Hfinal as (_ & e & s'' & Hnext & Hne); [vm_compute; reflexivity|].
    exists e, s''. split; [exact Hnext|exact Hne].
Defined.

Lemma ready_rules_witness :
  ready (started threeShards) = Some (true, started threeShards)
  /\ ready (after threeShards [OpReady; OpNextReady; OpReady; OpNextReady])
     = Some (false, after threeShards [OpReady; OpNextReady; OpReady; OpNextReady])
  /\ ready (started capped) = Some (true, started capped).
Proof.
  assert (Hok : forall s : AsyncResultsMerger,
            forallb (fun r => isOK (status r)) (_remotes s) = true ->
            forall r, r ∈ _remotes s -> status r = OK).
  { intros s H r Hr. rewrite forallb_forall in H. apply isOK_true, H.
    by apply list_elem_of_In. }
  split; [|split].
  - destruct (ready_rules (started threeShards)) as [Hsorted _];
      [vm_compute; reflexivity | vm_compute; reflexivity
      | apply Hok; vm_compute; reflexivity |].
    destruct Hsorted as (b & Hb & Hiff); [vm_compute; discriminate | vm_compute; reflexivity |].
    rewrite Hb. f_equal. f_equal. apply Hiff. intros r Hr. left.
    apply list_elem_of_In in Hr. vm_compute in Hr.
    destruct Hr as [<-|[<-|[<-|[]]]]; reflexivity.
  - destruct (ready_rules (after threeShards [OpReady; OpNextReady; OpReady; OpNextReady]))
      as [Hsorted _];
      [vm_compute; reflexivity | vm_compute; reflexivity
      | apply Hok; vm_compute; reflexivity |].
    destruct Hsorted as (b & Hb & Hiff); [vm_compute; discriminate | vm_compute; reflexivity |].
    rewrite Hb. f_equal. f_equal. destruct b; [|done]. exfalso.
    destruct (proj1 Hiff eq_refl
                {| cursorId := 12; cursorNss := ns; shardHostAndPort := "B";
                   docBuffer := []; cbHandle := None; status := OK; fetchedCount := 1 |})
      as [H|H]; [|vm_compute in H; discriminate|vm_compute in H; discriminate].
    apply list_elem_of_In. vm_compute. auto.
  - destruct (ready_rules (started capped)) as [_ Hunsorted];
      [vm_compute; reflexivity | vm_compute; reflexivity
      | apply Hok; vm_compute; reflexivity |].
    destruct Hunsorted as (b & Hb & Hiff); [vm_compute; reflexivity|].
    rewrite Hb. f_equal. f_equal. apply Hiff. left.
    eexists. split; [apply list_elem_of_In; vm_compute; left; reflexivity|].
    reflexivity.
Defined.

Lemma sorted_merge_monotonic_witness :
  documents (outputs threeShards drainThree) = [doc 1; doc 2; doc 3; doc 4; doc 5; doc 6]
  /\ Sorted (doc_le ascending) (documents (outputs threeShards drainThree)).
Proof.
  split; [vm_compute; reflexivity|].
  apply (sorted_merge_monotonic threeShards (Some 0) idle (started threeShards)
           (after threeShards drainThree) drainThree (outputs threeShards drainThree)).
  - discriminate.
  - vm_compute. reflexivity.
  - vm_compute. split_and!; try done; intros _; reflexivity.
  - intros [|[|[|i]]]; vm_compute; repeat constructor; discriminate.
  - vm_compute. reflexivity.
Defined.

(** C6: with [allowPartialResults], two errors of a remote that are not
    swallowed.  A reply with a document without sort key leaves the remote
    with [InternalError], its cursor id and the documents before the bad
    one; a refused follow-up request leaves it with [ShutdownInProgress]
    and its cursor id.  In both, [ready] answers true and [nextReady]
    returns the error. *)
Lemma partial_results_swallow_counterexample :
  isAllowPartialResults sortedPartial = true
  /\ (fun r => (status r, cursorId r, docBuffer r)) <$> _remotes (after sortedPartial badReply)
     = [(InternalError, 11%Z, [Some (doc 2)])]
  /\ exhausted <$> _remotes (after sortedPartial badReply) = [false]
  /\ outputs sortedPartial (badReply ++ [OpReady; OpNextReady])
     = [OutEvent (SWValue (Some 1)); OutUnit; OutBool true;
        OutNext (SWError InternalError)]
  /\ isAllowPartialResults (oneShard true) = true
  /\ (fun r => (status r, cursorId r)) <$> _remotes (after (oneShard true) refused)
     = [(ShutdownInProgress, 11%Z)]
  /\ outputs (oneShard true) (refused ++ [OpReady; OpNextReady])
     = [OutEvent (SWValue (Some 1)); OutUnit; OutUnit; OutBool true;
        OutNext (SWError ShutdownInProgress)].
Proof. evaluate. Qed.

Lemma partial_results_swallow_witness :
  exists r',
    _remotes (after (oneShard true) failFirst)
    = <[0 := r']> (_remotes (after (oneShard true) [OpNextEvent]))
    /\ docBuffer r' = [] /\ cursorId r' = 0%Z /\ status r' = OK /\ cbHandle r' = None.
Proof.
  destruct (partial_results_swallow (failure HostUnreachable) 0
              (after (oneShard true) [OpNextEvent])
              (after (oneShard true) failFirst)
              {| cursorId := 11; cursorNss := ns; shardHostAndPort := "A";
                 docBuffer := []; cbHandle := Some 0; status := OK; fetchedCount := 0 |}
              HostUnreachable tt)
    as (r' & H1 & H2 & H3 & H4 & H5 & _).
  - vm_compute. reflexivity.
  - vm_compute. reflexivity.
  - vm_compute. reflexivity.
  - vm_compute. reflexivity.
  - vm_compute. reflexivity.
  - exists r'. split; [exact H1|]. split; [exact H2|]. split; [exact H3|].
    split; [exact H4|exact H5].
Defined.

Lemma after_reachable (params : ClusterClientCursorParams) (ops : list Op)
    (s0 s : AsyncResultsMerger) (outs : list Out) :
  newAsyncResultsMerger (Some 0) idle params = Some s0 ->
  runOps ops (started params) = Some (outs, s) ->
  reachable (after params ops).
Proof.
  intros Hnew Hrun. unfold after. rewrite Hrun.
  eapply runOps_reachable; [|exact Hrun]. by eapply started_reachable.
Qed.

(** C7: the merger built from a batch whose second document has no sort
    key is reachable, has a sort and a non-empty buffer at remote 0, and
    an empty queue. *)
Lemma merge_queue_invariant_counterexample :
  reachable (started brokenBatch)
  /\ sort (_params (started brokenBatch)) <> []
  /\ (exists r, _remotes (started brokenBatch) !! 0 = Some r /\ docBuffer r <> [])
  /\ 0 ∉ _mergeQueue (started brokenBatch).
Proof.
  split; [eapply started_reachable; vm_compute; reflexivity|].
  split; [vm_compute; discriminate|].
  split; [eexists; split; [vm_compute; reflexivity|vm_compute; discriminate]|].
  vm_compute. intros H. inversion H.
Qed.

Lemma merge_queue_invariant_witness :
  reachable (after threeShards [OpReady; OpNextReady])
  /\ _mergeQueue (after threeShards [OpReady; OpNextReady]) = [1; 2; 0]
  /\ NoDup (_mergeQueue (after threeShards [OpReady; OpNextReady])).
Proof.
  assert (Hr : reachable (after threeShards [OpReady; OpNextReady])).
  { eapply after_reachable; vm_compute; reflexivity. }
  split; [exact Hr|]. split; [vm_compute; reflexivity|].
  exact (proj1 (merge_queue_invariant _ Hr)).
Defined.

Lemma nextReady_order_witness :
  nextReady (after threeShards [OpKill None])
  = Some (SWError IllegalOperation, after threeShards [OpKill None])
  /\ ready (after (oneShard false) failFirst)
     = Some (true, set_status HostUnreachable (after (oneShard false) failFirst))
  /\ nextReady (set_status HostUnreachable (after (oneShard false) failFirst))
     = Some (SWError HostUnreachable,
             set_status HostUnreachable (after (oneShard false) failFirst)).
Proof.
  destruct (nextReady_order (after threeShards [OpKill None])) as [Hkilled _].
  destruct (nextReady_order (after (oneShard false) failFirst))
    as (_ & _ & _ & _ & Hlatch).
  split; [apply Hkilled; vm_compute; discriminate|].
  destruct (Hlatch ltac:(vm_compute; reflexivity) ltac:(vm_compute; reflexivity)
              HostUnreachable ltac:(vm_compute; reflexivity)) as (_ & H1 & H2).
  split; [exact H1|exact H2].
Defined.


Lemma nextEvent_no_lost_wakeup_witness :
  exists s',
    nextEvent (started twoShards) = Some (SWValue (Some 1), s')
    /\ _currentEvent s' = None
    /\ signalled (_executor s') = [1]
    /\ commands (_executor s') = [GetMore ns 12 None None].
Proof.
  pose (s1 := default (started twoShards)
                (snd <$> nextEvent_loop 2 0 (started twoShards))).
  pose (ex1 := snd (makeEvent (_executor s1))).
  pose (s2 := default s1
                (snd <$> _ready (set_currentEvent (Some 1) (set_executor ex1 s1)))).
  destruct (nextEvent_no_lost_wakeup (started twoShards) s1 s2 1 ex1)
    as (s' & fetches & Hnext & Hcur & Hcalls & Hall & Hsig).
  - vm_compute. reflexivity.
  - vm_compute. reflexivity.
  - vm_compute. reflexivity.
  - vm_compute. reflexivity.
  - vm_compute. reflexivity.
  - exists s'. split; [exact Hnext|]. split; [exact Hcur|]. split; [exact Hsig|].
    assert (Hs' : Some s' = Some (after twoShards [OpNextEvent])).
    { assert (He : Some (SWValue (Some 1), s')
                   = Some (SWValue (Some 1), after twoShards [OpNextEvent])).
      { rewrite <- Hnext. vm_compute. reflexivity. }
      congruence. }
    injection Hs' as ->. vm_compute. reflexivity.
Defined.

(** * Further properties *)

(** ** One step, case by case *)

Lemma step_cases (o : Op) (s s' : AsyncResultsMerger) (out : Out) :
  step o s = Some (out, s') ->
  (exists b, o = OpReady /\ out = OutBool b /\ _ready s = Some (b, s'))
  \/ (exists res, o = OpNextReady /\ out = OutNext res /\ nextReady s = Some (res, s'))
  \/ (exists res, o = OpNextEvent /\ out = OutEvent res /\ nextEvent s = Some (res, s'))
  \/ (exists i response, o = OpResponse i response /\ out = OutUnit
                         /\ callback response i s = Some (tt, s'))
  \/ (exists ctx e, o = OpKill ctx /\ out = OutHandle e /\ kill ctx s = Some (e, s'))
  \/ (o = OpDetach /\ out = OutUnit /\ s' = set_eofNext false (set_opCtx None s))
  \/ (exists ctx, o = OpReattach ctx /\ out = OutUnit /\ _opCtx s = None
                  /\ s' = set_opCtx (Some ctx) s)
  \/ (exists t, o = OpSetAwaitDataTimeout t /\
        ((tailableMode (_params s) <> kTailableAndAwaitData
          /\ out = OutStatus BadValue /\ s' = s)
         \/ (tailableMode (_params s) = kTailableAndAwaitData
             /\ out = OutStatus OK /\ s' = set_awaitDataTimeout (Some t) s)))
  \/ (o = OpRemotesExhausted /\ out = OutBool (forallb exhausted (_remotes s)) /\ s' = s)
  \/ (o = OpExecutorShutdown /\ out = OutUnit
      /\ s' = set_executor (shutdown (_executor s)) s).
Proof.
  destruct o as [| | |i response|ctx| |ctx|t| |]; simpl; unfold bind at 1.
  - destruct (ready s) as [[b s1]|] eqn:H; [|done]. unfoldM. intros ?. simplify_eq.
    left. by exists b.
  - destruct (nextReady s) as [[b s1]|] eqn:H; [|done]. unfoldM. intros ?. simplify_eq.
    right. left. by exists b.
  - destruct (nextEvent s) as [[b s1]|] eqn:H; [|done]. unfoldM. intros ?. simplify_eq.
    do 2 right. left. by exists b.
  - destruct (callback response i s) as [[[] s1]|] eqn:H; [|done].
    unfoldM. intros ?. simplify_eq. do 3 right. left. by exists i, response.
  - destruct (kill ctx s) as [[b s1]|] eqn:H; [|done]. unfoldM. intros ?. simplify_eq.
    do 4 right. left. by exists ctx, b.
  - unfold detachFromOperationContext. unfoldM. intros ?. simplify_eq.
    do 5 right. left. done.
  - unfold reattachToOperationContext. unfoldM.
    destruct (_opCtx s) eqn:Hctx; simpl; [done|]. intros ?. simplify_eq.
    do 6 right. left. by exists ctx.
  - unfold setAwaitDataTimeout. unfoldM.
    destruct (bool_decide (tailableMode (_params s) = kTailableAndAwaitData)) eqn:Htm;
      simpl; intros ?; simplify_eq; do 7 right; left; exists t; (split; [done|]).
    + right. by apply bool_decide_eq_true in Htm.
    + left. by apply bool_decide_eq_false in Htm.
  - unfold remotesExhausted, _remotesExhausted. unfoldM. intros ?. simplify_eq.
    do 8 right. left. done.
  - unfoldM. intros ?. simplify_eq. do 9 right. done.
Qed.

(** ** What the operations leave alone *)

Lemma updRemote_settings (i : nat) (f : RemoteCursorData -> RemoteCursorData)
    (s s' : AsyncResultsMerger) (u : unit) :
  updRemote i f s = Some (u, s') -> settings s' = settings s.
Proof. intros H. by apply updRemote_inv in H as (r & _ & ->). Qed.

Lemma ready_settings (s s' : AsyncResultsMerger) (b : bool) :
  _ready s = Some (b, s') -> settings s' = settings s.
Proof. intros H. by apply ready_inv in H as [st ->]. Qed.

Lemma signalCurrentEventIfReady_shape (s s' : AsyncResultsMerger) (u : unit) :
  _signalCurrentEventIfReady s = Some (u, s') ->
  exists st ex ev, s' = set_currentEvent ev (set_executor ex (set_status st s)).
Proof.
  unfold _signalCurrentEventIfReady. unfold bind at 1.
  destruct (_ready s) as [[b s1]|] eqn:Hr; [|done].
  apply ready_inv in Hr as [st ->]. unfoldM. simpl.
  destruct (b && isValid (_currentEvent s)); intros ?; simplify_eq.
  - by eexists st, _, _.
  - exists st, (_executor s), (_currentEvent s). by destruct s.
Qed.

Lemma signalCurrentEventIfReady_settings (s s' : AsyncResultsMerger) (u : unit) :
  _signalCurrentEventIfReady s = Some (u, s') -> settings s' = settings s.
Proof.
  intros H. by apply signalCurrentEventIfReady_shape in H as (st & ex & ev & ->).
Qed.

Lemma askForNextBatch_settings (i : nat) (s s' : AsyncResultsMerger) (st : Status) :
  _askForNextBatch i s = Some (st, s') -> settings s' = settings s.
Proof.
  intros H.
  by apply askForNextBatch_inv in H as (r & _ & _ & [(_ & _ & ->)|(Hsd & _ & ->)]).
Qed.

Lemma cleanUpFailedBatch_settings (st : Status) (i : nat) (s s' : AsyncResultsMerger)
    (u : unit) :
  _cleanUpFailedBatch st i s = Some (u, s') -> settings s' = settings s.
Proof.
  intros H. destruct (_remotes s !! i) as [r|] eqn:Hr.
  - rewrite (cleanUpFailedBatch_spec _ _ _ _ Hr) in H. by simplify_eq.
  - unfold _cleanUpFailedBatch, updRemote, remoteAt in H. unfoldM_in H.
    by rewrite Hr in H.
Qed.

Lemma addBatchToBuffer_settings (i : nat) (batch : list BSONObj)
    (s s' : AsyncResultsMerger) (ok : bool) :
  _addBatchToBuffer i batch s = Some (ok, s') -> settings s' = settings s.
Proof.
  intros H. destruct (_remotes s !! i) as [r|] eqn:Hr.
  - rewrite (addBatchToBuffer_spec _ _ _ _ Hr) in H. cbv zeta in H.
    injection H as _ <-. by destruct (_ && _).
  - unfold _addBatchToBuffer, remoteAt in H. unfoldM_in H. by rewrite Hr in H.
Qed.

Lemma processBatchResults_settings (response : RemoteCommandResponse) (i : nat)
    (s s' : AsyncResultsMerger) (u : unit) :
  _processBatchResults response i s = Some (u, s') ->
  settings s' = settings s /\ (_eofNext s' = _eofNext s \/ _eofNext s' = true).
Proof.
  unfold _processBatchResults. unfold bind at 1. unfold remoteAt, defined.
  destruct (_remotes s !! i) as [r|] eqn:Hr; [|done].
  assert (Hfail : forall st, _cleanUpFailedBatch st i s = Some (u, s') ->
            settings s' = settings s /\ (_eofNext s' = _eofNext s \/ _eofNext s' = true)).
  { intros st H. rewrite (cleanUpFailedBatch_spec _ _ _ _ Hr) in H. simplify_eq.
    split; [done|by left]. }
  destruct (negb (isOK (rstatus response))); [apply Hfail|].
  destruct (_parseCursorResponse (data response) r) as [cr|st]; [|apply Hfail].
  clear Hfail. unfold bind at 1.
  destruct (updRemote i _ s) as [[u1 s1]|] eqn:H1; [|done].
  apply updRemote_inv in H1 as (r0 & _ & ->). unfold bind at 1.
  destruct (_addBatchToBuffer i _ _) as [[ok s2]|] eqn:H2; [|done].
  assert (H12 : settings s2 = settings s /\ _eofNext s2 = _eofNext s).
  { destruct (_remotes (set_remotes (<[i:=with_cursorId (getCursorId cr) r0]> (_remotes s)) s)
                !! i) as [x|] eqn:Hx.
    - rewrite (addBatchToBuffer_spec _ _ _ _ Hx) in H2. cbv zeta in H2.
      injection H2 as _ <-. by destruct (_ && _).
    - unfold _addBatchToBuffer, remoteAt in H2. unfoldM_in H2. by rewrite Hx in H2. }
  clear H2. destruct H12 as [H12 He12].
  destruct (negb ok); [unfoldM; intros [= _ <-]; split; [done|by left]|].
  unfold bind at 1. unfold remoteAt, defined.
  destruct (_remotes s2 !! i) as [r2|]; [|done].
  unfold bind at 1, gets at 1.
  destruct (bool_decide (tailableMode (_params s2) = kTailable) && negb (hasNext r2)).
  { unfoldM. destruct (length (_remotes s2) =? 1); [|done]. intros [= _ <-].
    split; [by rewrite <- H12|by right]. }
  destruct (negb (hasNext r2) && negb (exhausted r2));
    [|unfoldM; intros [= _ <-]; split; [done|by left]].
  unfold bind at 1.
  destruct (_askForNextBatch i s2) as [[st s3]|] eqn:H3; [|done].
  intros H4. apply updRemote_inv in H4 as (r3 & _ & ->).
  apply askForNextBatch_inv in H3 as (r4 & _ & _ & [(_ & _ & ->)|(Hsd & _ & ->)]);
    (split; [by rewrite <- H12|left; by rewrite <- He12]).
Qed.

Lemma nextEvent_loop_settings (todo i : nat) (s s' : AsyncResultsMerger)
    (res : option Status) :
  nextEvent_loop todo i s = Some (res, s') -> settings s' = settings s.
Proof.
  revert i s. induction todo as [|todo IH]; intros i s; simpl.
  - unfoldM. intros ?. by simplify_eq.
  - unfold bind at 1. unfold remoteAt, defined.
    destruct (_remotes s !! i) as [r|] eqn:Hr; [|done].
    destruct (negb (isOK (status r))); [unfoldM; intros ?; by simplify_eq|].
    destruct (negb (hasNext r) && negb (exhausted r) && negb (isValid (cbHandle r)));
      [|apply IH].
    unfold bind at 1.
    destruct (_askForNextBatch i s) as [[st s1]|] eqn:Hask; [|done].
    apply askForNextBatch_settings in Hask.
    destruct (negb (isOK st)); [unfoldM; by intros [= _ <-]|].
    intros H. apply IH in H. congruence.
Qed.

Lemma nextEvent_settings (s s' : AsyncResultsMerger) (res : StatusWith EventHandle) :
  nextEvent s = Some (res, s') -> settings s' = settings s.
Proof.
  unfold nextEvent. unfoldM.
  destruct (negb (bool_decide (_lifecycleState s = kAlive))); [intros ?; by simplify_eq|].
  destruct (isValid (_currentEvent s)); [intros ?; by simplify_eq|].
  destruct (nextEvent_loop _ 0 s) as [[early s1]|] eqn:Hloop; [|done].
  apply nextEvent_loop_settings in Hloop.
  destruct early as [st|]; [by intros [= _ <-]|].
  destruct (makeEvent (_executor s1)) as [[e|st] ex] eqn:Hmake.
  - destruct (_signalCurrentEventIfReady _) as [[u s2]|] eqn:Hsig; [|done].
    apply signalCurrentEventIfReady_settings in Hsig. intros [= _ <-].
    rewrite Hsig, <- Hloop. done.
  - intros [= _ <-]. by rewrite <- Hloop.
Qed.

(** A killed merger answers without looking at anything. *)
Lemma ready_killed (s : AsyncResultsMerger) :
  _lifecycleState s <> kAlive -> _ready s = Some (true, s).
Proof.
  intros Hlc. unfold _ready. unfoldM.
  by rewrite (bool_decide_eq_false_2 _ Hlc).
Qed.

Lemma nextReady_killed (s : AsyncResultsMerger) :
  _lifecycleState s <> kAlive -> nextReady s = Some (SWError IllegalOperation, s).
Proof.
  intros Hlc. unfold nextReady. unfoldM.
  by rewrite (bool_decide_eq_false_2 _ Hlc).
Qed.

Lemma nextEvent_killed (s : AsyncResultsMerger) :
  _lifecycleState s <> kAlive -> nextEvent s = Some (SWError IllegalOperation, s).
Proof.
  intros Hlc. unfold nextEvent. unfoldM.
  by rewrite (bool_decide_eq_false_2 _ Hlc).
Qed.

(** ** Outstanding requests and the lifecycle *)

Lemma outstanding_true (s : AsyncResultsMerger) :
  outstanding s = true
  <-> exists i r, _remotes s !! i = Some r /\ cbHandle r <> None.
Proof.
  unfold outstanding. rewrite existsb_exists. split.
  - intros (r & Hin & Hv). apply list_elem_of_In, list_elem_of_lookup in Hin as [i Hi].
    exists i, r. split; [done|]. by destruct (cbHandle r).
  - intros (i & r & Hi & Hv). exists r. split.
    + apply list_elem_of_In, list_elem_of_lookup. by exists i.
    + by destruct (cbHandle r).
Qed.

Lemma outstanding_false (s : AsyncResultsMerger) :
  outstanding s = false
  <-> forall i r, _remotes s !! i = Some r -> cbHandle r = None.
Proof.
  rewrite <- not_true_iff_false, outstanding_true. split.
  - intros Hno i r Hi. destruct (cbHandle r) eqn:Hcb; [|done].
    exfalso. apply Hno. exists i, r. split; [done|]. congruence.
  - intros Hall (i & r & Hi & Hcb). by apply Hcb, (Hall i).
Qed.

Lemma outstanding_remotes (s s' : AsyncResultsMerger) :
  _remotes s' = _remotes s -> outstanding s' = outstanding s.
Proof. unfold outstanding. by intros ->. Qed.

Lemma scheduleKillCursors_loop_total (ctx : option nat) (rs : list RemoteCursorData)
    (s : AsyncResultsMerger) :
  (forall r, r ∈ rs -> cbHandle r = None) ->
  exists ex, scheduleKillCursors_loop ctx rs s = Some (tt, set_executor ex s).
Proof.
  revert s. induction rs as [|r rs IH]; intros s Hall; simpl; unfoldM.
  - exists (_executor s). by destruct s.
  - rewrite (Hall r) by (by left). simpl.
    assert (Hrest : forall x, x ∈ rs -> cbHandle x = None).
    { intros x Hx. apply Hall. by right. }
    destruct (isOK (status r) && negb (cursorId r =? 0)%Z && negb (exhausted r)).
    + destruct (scheduleRemoteCommand _ (_executor s)) as [a ex1].
      destruct (IH (set_executor ex1 s) Hrest) as [ex Hex]. exists ex.
      rewrite Hex. by destruct s.
    + apply IH, Hrest.
Qed.

Lemma scheduleKillCursors_loop_shape (ctx : option nat) (rs : list RemoteCursorData)
    (s s' : AsyncResultsMerger) (u : unit) :
  scheduleKillCursors_loop ctx rs s = Some (u, s') ->
  (forall r, r ∈ rs -> cbHandle r = None) /\ exists ex, s' = set_executor ex s.
Proof.
  revert s. induction rs as [|r rs IH]; intros s; simpl; unfoldM.
  - intros [= _ <-]. split; [by intros r Hr; inversion Hr|].
    exists (_executor s). by destruct s.
  - destruct (cbHandle r) eqn:Hcb; simpl; [done|].
    destruct (isOK (status r) && negb (cursorId r =? 0)%Z && negb (exhausted r)).
    + destruct (scheduleRemoteCommand _ (_executor s)) as [a ex1].
      intros H. apply IH in H as [Hall [ex ->]]. split.
      * intros x Hx. apply elem_of_cons in Hx as [->|Hx]; auto.
      * exists ex. by destruct s.
    + intros H. apply IH in H as [Hall [ex ->]]. split; [|by exists ex].
      intros x Hx. apply elem_of_cons in Hx as [->|Hx]; auto.
Qed.

Lemma signalCurrentEventIfReady_killed (s : AsyncResultsMerger) :
  _lifecycleState s <> kAlive ->
  _signalCurrentEventIfReady s
  = Some (tt, set_currentEvent None
                (set_executor (signalEvent (_currentEvent s) (_executor s)) s)).
Proof.
  intros Hlc. unfold _signalCurrentEventIfReady. unfold bind at 1.
  rewrite (ready_killed _ Hlc). unfoldM.
  destruct s as [? ? ? ? ? ? ? ? [e|] ? ? ? ?]; reflexivity.
Qed.

(** A response that reaches a killed merger: the request is no longer
    outstanding, whoever waits for results is woken, and the last such
    response completes the kill. *)
Lemma callback_killed (response : RemoteCommandResponse) (i : nat)
    (s s' : AsyncResultsMerger) (u : unit) :
  _lifecycleState s <> kAlive ->
  callback response i s = Some (u, s') ->
  exists r ex,
    _remotes s !! i = Some r /\ cbHandle r <> None
    /\ _lifecycleState s = kKillStarted
    /\ let s1 := set_remotes (<[i := with_cbHandle None r]> (_remotes s)) s in
       s' = set_lifecycleState (if outstanding s1 then kKillStarted else kKillComplete)
              (set_currentEvent None (set_executor ex s1)).
Proof.
  intros Hlc. unfold callback. unfold bind at 1. unfold remoteAt, defined.
  destruct (_remotes s !! i) as [r|] eqn:Hr; [|done].
  destruct (cbHandle r) as [h|] eqn:Hcb; cbv beta iota delta [isValid]; [|done].
  unfold _handleBatchResponse. unfold bind at 1. rewrite (updRemote_Some _ _ _ _ Hr).
  set (s1 := set_remotes (<[i := with_cbHandle None r]> (_remotes s)) s).
  assert (Hlc1 : _lifecycleState s1 <> kAlive) by done.
  unfold bind at 1, gets at 1.
  rewrite (bool_decide_eq_false_2 _ Hlc1). cbv beta iota delta [negb]. unfold bind at 1.
  rewrite (signalCurrentEventIfReady_killed _ Hlc1).
  set (ex2 := signalEvent (_currentEvent s1) (_executor s1)).
  unfold _cleanUpKilledBatch, _haveOutstandingBatchRequests, _scheduleKillCursors.
  unfoldM. simpl.
  destruct (bool_decide (_lifecycleState s = kKillStarted)) eqn:Hk; simpl; [|done].
  apply bool_decide_eq_true in Hk.
  change (existsb _ _) with (outstanding s1).
  destruct (outstanding s1) eqn:Hout; simpl.
  - intros [= _ <-]. exists r, ex2. split; [done|]. split; [congruence|].
    split; [done|]. simpl. fold s1. rewrite Hout. subst s1 ex2. destruct s; simpl in *.
    by rewrite Hk.
  - destruct (_killCursorsScheduledEvent s) as [e|] eqn:Hev; simpl.
    + rewrite (bool_decide_eq_true_2 _ Hk). simpl. rewrite Hev. simpl.
      match goal with |- context [scheduleKillCursors_loop ?a ?b ?c] =>
        destruct (scheduleKillCursors_loop a b c) as [[u3 s3]|] eqn:H3; [|done] end.
      apply scheduleKillCursors_loop_shape in H3 as [_ [ex3 ->]].
      intros [= _ <-]. eexists r, _. split; [done|]. split; [congruence|].
      split; [done|]. simpl. fold s1. rewrite Hout. reflexivity.
    + intros [= _ <-]. exists r, ex2. split; [done|]. split; [congruence|].
      split; [done|]. simpl. fold s1. rewrite Hout. reflexivity.
Qed.

Lemma callback_alive (response : RemoteCommandResponse) (i : nat)
    (s s' : AsyncResultsMerger) (u : unit) :
  _lifecycleState s = kAlive ->
  callback response i s = Some (u, s') ->
  settings s' = settings s.
Proof.
  intros Hlc. unfold callback. unfold bind at 1. unfold remoteAt, defined.
  destruct (_remotes s !! i) as [r|] eqn:Hr; [|done].
  destruct (isValid (cbHandle r)); [|done].
  unfold _handleBatchResponse. unfold bind at 1. rewrite (updRemote_Some _ _ _ _ Hr).
  unfold bind at 1, gets at 1.
  change (_lifecycleState (set_remotes _ s)) with (_lifecycleState s).
  rewrite (bool_decide_eq_true_2 _ Hlc). cbv beta iota delta [negb]. unfold bind at 1.
  destruct (_processBatchResults response i _) as [[u2 s2]|] eqn:H2; [|done].
  apply processBatchResults_settings in H2 as [H2 _].
  intros H3. apply signalCurrentEventIfReady_settings in H3. by rewrite H3, H2.
Qed.

Lemma kill_shape (ctx : option nat) (s s' : AsyncResultsMerger) (e : EventHandle) :
  kill ctx s = Some (e, s') ->
  exists ex lc ev,
    s' = set_killCursorsScheduledEvent ev (set_lifecycleState lc (set_executor ex s)).
Proof.
  unfold kill, _haveOutstandingBatchRequests, _scheduleKillCursors, cancelOutstanding.
  unfoldM.
  destruct (isValid (_killCursorsScheduledEvent s)); simpl.
  { destruct (negb _); [|done]. intros [= _ <-].
    exists (_executor s), (_lifecycleState s), (_killCursorsScheduledEvent s).
    by destruct s. }
  unfold makeEvent. destruct (inShutdown (_executor s)); simpl.
  { destruct (negb _); simpl; intros [= _ <-].
    - exists (_executor s), kKillComplete, (_killCursorsScheduledEvent s). by destruct s.
    - exists (_executor s), kKillStarted, (_killCursorsScheduledEvent s). by destruct s. }
  destruct (negb _); simpl.
  - match goal with |- context [scheduleKillCursors_loop ?a ?b ?c] =>
      destruct (scheduleKillCursors_loop a b c) as [[u3 s3]|] eqn:H3; [|done] end.
    apply scheduleKillCursors_loop_shape in H3 as [_ [ex3 ->]]. simpl.
    intros [= _ <-]. by eexists _, _, _.
  - intros [= _ <-]. by eexists _, _, _.
Qed.

Lemma kill_total (ctx : option nat) (s : AsyncResultsMerger) :
  (_killCursorsScheduledEvent s <> None -> _lifecycleState s <> kAlive) ->
  exists e s', kill ctx s = Some (e, s').
Proof.
  intros Hev. destruct (_killCursorsScheduledEvent s) as [e|] eqn:He.
  { exists (Some e), s. apply kill_again; [done|]. by apply Hev. }
  destruct (inShutdown (_executor s)) eqn:Hsd.
  { eexists _, _. by apply kill_shutdown. }
  unfold kill, _haveOutstandingBatchRequests, _scheduleKillCursors, cancelOutstanding.
  unfoldM. rewrite He. simpl. unfold makeEvent. rewrite Hsd. simpl.
  change (existsb _ _) with (outstanding s).
  destruct (outstanding s) eqn:Hout; simpl; [by eexists _, _|].
  match goal with |- context [scheduleKillCursors_loop ?a ?b ?c] =>
    destruct (scheduleKillCursors_loop_total a b c) as [ex ->] end.
  - intros r Hr. apply list_elem_of_lookup in Hr as [i Hi].
    by eapply outstanding_false in Hout.
  - simpl. by eexists _, _.
Qed.

(** ** The lifecycle invariant *)

Lemma Life_same (s s' : AsyncResultsMerger) :
  _gettingFromRemote s' = _gettingFromRemote s ->
  _lifecycleState s' = _lifecycleState s ->
  _killCursorsScheduledEvent s' = _killCursorsScheduledEvent s ->
  _remotes s' = _remotes s -> Life s -> Life s'.
Proof.
  intros E5 E6 E7 Hr [H1 H2 H3 H4 H5].
  split; rewrite ?E5, ?E6, ?E7, ?Hr, ?(outstanding_remotes _ _ Hr); done.
Qed.

Lemma scheduling_buffers (rs rs' : list RemoteCursorData) (j : nat)
    (r' : RemoteCursorData) :
  scheduling rs rs' -> rs' !! j = Some r' ->
  exists r, rs !! j = Some r /\ docBuffer r' = docBuffer r /\ cursorId r' = cursorId r
            /\ status r' = status r.
Proof.
  intros [Hlen Hsch] Hj.
  assert (Hlt : j < length rs) by (rewrite <- Hlen; by eapply lookup_lt_Some).
  apply lookup_lt_is_Some in Hlt as [r Hr]. exists r. split; [done|].
  destruct (Hsch j r Hr) as [H|(h & H & _)]; rewrite H in Hj; by simplify_eq.
Qed.

Lemma nextReadyUnsorted_loop_cursor (todo : nat) (s s' : AsyncResultsMerger)
    (res : ClusterQueryResult) :
  nextReadyUnsorted_loop todo s = Some (res, s') ->
  _lifecycleState s' = _lifecycleState s
  /\ _killCursorsScheduledEvent s' = _killCursorsScheduledEvent s
  /\ length (_remotes s') = length (_remotes s)
  /\ (_gettingFromRemote s' = 0 \/ _gettingFromRemote s' < length (_remotes s')
      \/ (todo = 0 /\ _gettingFromRemote s' = _gettingFromRemote s)).
Proof.
  revert s. induction todo as [|todo IH]; intros s; simpl.
  - unfoldM. intros [= _ <-]. split; [done|]. split; [done|]. split; [done|].
    by right; right.
  - unfold bind at 1. unfold gets at 1. unfold bind at 1. unfold remoteAt, defined.
    destruct (_remotes s !! _gettingFromRemote s) as [r|] eqn:Hr; [|done].
    apply lookup_lt_Some in Hr as Hlt.
    unfold bind at 1. unfold invariant at 1.
    destruct (isOK (status r)); [|done].
    unfold hasNext at 1. destruct (docBuffer r) as [|front rest] eqn:Hbuf.
    + unfoldM. intros H. apply IH in H as (E1 & E2 & E3 & E4). simpl in *.
      split; [done|]. split; [done|]. split; [done|].
      destruct E4 as [?|[?|[-> E4]]]; [by left|by right; left|].
      rewrite E4, E3. clear E4 E3.
      destruct (length (_remotes s)) as [|m]; [lia|].
      destruct (_gettingFromRemote s =? m) eqn:Hcmp; [by left|].
      apply Nat.eqb_neq in Hcmp. right; left. lia.
    + clear IH. unfold updRemote, remoteAt. intros H. monad_inv H.
      all: simpl in *; simplify_eq; simpl.
      all: rewrite ?length_insert; split; [done|]; split; [done|]; split; [done|].
      all: by right; left.
Qed.

Lemma nextReady_alive (s s' : AsyncResultsMerger) (res : StatusWith ClusterQueryResult) :
  nextReady s = Some (res, s') ->
  _lifecycleState s' = _lifecycleState s
  /\ _killCursorsScheduledEvent s' = _killCursorsScheduledEvent s
  /\ length (_remotes s') = length (_remotes s)
  /\ (_gettingFromRemote s = 0 \/ _gettingFromRemote s < length (_remotes s) ->
      _gettingFromRemote s' = 0 \/ _gettingFromRemote s' < length (_remotes s')).
Proof.
  unfold nextReady. unfoldM.
  destruct (negb (bool_decide (_lifecycleState s = kAlive))); [by intros [= _ <-]|].
  destruct (negb (isOK (_status s))); [by intros [= _ <-]|].
  destruct (_eofNext s); [by intros [= _ <-]|].
  destruct (negb (isEmpty (sort (_params s)))); cbv beta iota.
  - destruct (_nextReadySorted s) as [[res0 s0]|] eqn:Hn; [|done].
    intros [= _ <-].
    apply nextReadySorted_inv in Hn
      as [_ [(_ & _ & ->)|(t & r & rest & _ & _ & _ & _ & ->)]]; [done|].
    simpl. by rewrite length_insert.
  - unfold _nextReadyUnsorted. unfoldM.
    destruct (nextReadyUnsorted_loop _ s) as [[res0 s0]|] eqn:Hn; [|done].
    intros [= _ <-].
    apply nextReadyUnsorted_loop_cursor in Hn as (E1 & E2 & E3 & E4).
    split; [done|]. split; [done|]. split; [done|]. intros Hg.
    destruct E4 as [?|[?|[E4 E5]]]; [by left|by right|].
    rewrite E5, E3. done.
Qed.

Lemma Life_step (o : Op) (s s' : AsyncResultsMerger) (out : Out) :
  Inv s -> Life s -> step o s = Some (out, s') -> Life s'.
Proof.
  intros HI HL Hstep.
  destruct (decide (_lifecycleState s = kAlive)) as [Hlc|Hlc].
  - (* alive *)
    assert (Hev : _killCursorsScheduledEvent s = None).
    { destruct (_killCursorsScheduledEvent s) eqn:E; [|done].
      exfalso. apply (life_event _ HL); [congruence|done]. }
    assert (Halive : forall t, _lifecycleState t = kAlive ->
              _killCursorsScheduledEvent t = None ->
              (_gettingFromRemote t = 0 \/ _gettingFromRemote t < length (_remotes t)) ->
              (forall i r, _remotes t !! i = Some r ->
                           Forall (fun d => d <> None) (docBuffer r)) ->
              Life t).
    { intros t E1 E2 E3 E4. split; [by rewrite E2|by rewrite E1|by rewrite E1|done|done]. }
    apply step_cases in Hstep
      as [(b & -> & -> & H)
         |[(res & -> & -> & H)
          |[(res & -> & -> & H)
           |[(i & response & -> & -> & H)
            |[(ctx & e & -> & -> & H)
             |[(-> & -> & ->)
              |[(ctx & -> & -> & _ & ->)
               |[(t & -> & [(_ & -> & ->)|(_ & -> & ->)])
                |[(-> & -> & ->)|(-> & -> & ->)]]]]]]]]];
      try (eapply Life_same; [| | | |exact HL]; done).
    + apply ready_inv in H as [st ->]. by eapply Life_same; [| | | |exact HL].
    + destruct (nextReady_alive _ _ _ H) as (E1 & E2 & E3 & E4).
      apply Halive; [congruence|congruence|by apply E4, HL|].
      intros i r' Hr'.
      apply nextReady_effect in H
        as [_ [(Hrs & _)|(g & r & front & rest & _ & Hg & Hb & _ & Hrs & _)]].
      * rewrite Hrs in Hr'. by eapply (life_docs _ HL).
      * rewrite Hrs in Hr'. destruct (decide (i = g)) as [->|Hne].
        -- rewrite list_lookup_insert_eq in Hr' by (by eapply lookup_lt_Some).
           simplify_eq. simpl. pose proof (life_docs _ HL g r Hg) as Hall.
           rewrite Hb in Hall. by apply Forall_cons in Hall as [_ ?].
        -- rewrite list_lookup_insert_ne in Hr' by done. by eapply (life_docs _ HL).
    + pose proof (nextEvent_settings _ _ _ H) as Hs.
      apply nextEvent_effect in H as (_ & _ & Hsch).
      unfold settings in Hs. injection Hs as E1 E2 E3 E4 E5 E6 E7.
      apply Halive; [congruence|congruence| |].
      * rewrite E5. destruct Hsch as [-> _]. apply HL.
      * intros i r' Hr'.
        destruct (scheduling_buffers _ _ _ _ Hsch Hr') as (r & Hr & -> & _).
        by eapply (life_docs _ HL).
    + pose proof (callback_alive _ _ _ _ _ Hlc H) as Hs.
      apply callback_effect in H as (r & Hr & Hcb & _ & r' & Hrs & Hdoc & _).
      unfold settings in Hs. injection Hs as E1 E2 E3 E4 E5 E6 E7.
      apply Halive; [congruence|congruence| |].
      * rewrite E5, Hrs, length_insert. apply HL.
      * intros j x Hx. rewrite Hrs in Hx. destruct (decide (j = i)) as [->|Hne].
        -- rewrite list_lookup_insert_eq in Hx by (by eapply lookup_lt_Some).
           simplify_eq.
           destruct Hdoc as [->|(pre & _ & -> & _)]; [constructor|].
           apply Forall_app. split; [by eapply (life_docs _ HL)|].
           apply Forall_fmap, Forall_forall. by intros.
        -- rewrite list_lookup_insert_ne in Hx by done. by eapply (life_docs _ HL).
    + pose proof (kill_core _ _ _ _ H) as Hcore. unfold core in Hcore.
      injection Hcore as _ Hrs _.
      destruct (kill_shape _ _ _ _ H) as (ex & lc & ev & Hshape).
      assert (Hg : _gettingFromRemote s' = _gettingFromRemote s) by (by subst s').
      clear Hshape.
      apply kill_effect in H
        as [(e0 & He0 & _)|[(_ & Hsd & -> & ->)|(_ & Hsd & -> & Hev1 & Hrest)]];
        [congruence| |].
      * split; simpl; [by rewrite Hev| | |apply HL|apply HL].
        -- unfold outstanding at 2. simpl. fold (outstanding s).
           by destruct (outstanding s).
        -- unfold outstanding at 2. simpl. fold (outstanding s).
           by destruct (outstanding s).
      * rewrite <- (outstanding_remotes _ _ Hrs) in Hrest.
        split; [| | |rewrite Hg, Hrs; apply HL|rewrite Hrs; apply HL].
        -- intros _. destruct (outstanding s'); destruct Hrest as [-> _]; done.
        -- destruct (outstanding s'); destruct Hrest as [-> _]; done.
        -- destruct (outstanding s'); destruct Hrest as [-> _]; done.
  - (* killed *)
    apply step_cases in Hstep
      as [(b & -> & -> & H)
         |[(res & -> & -> & H)
          |[(res & -> & -> & H)
           |[(i & response & -> & -> & H)
            |[(ctx & e & -> & -> & H)
             |[(-> & -> & ->)
              |[(ctx & -> & -> & _ & ->)
               |[(t & -> & [(_ & -> & ->)|(_ & -> & ->)])
                |[(-> & -> & ->)|(-> & -> & ->)]]]]]]]]];
      try (eapply Life_same; [| | | |exact HL]; done).
    + rewrite (ready_killed _ Hlc) in H. by simplify_eq.
    + rewrite (nextReady_killed _ Hlc) in H. by simplify_eq.
    + rewrite (nextEvent_killed _ Hlc) in H. by simplify_eq.
    + apply callback_killed in H as (r & ex & Hr & Hcb & Hk & ->); [|done].
      cbv zeta.
      set (s1 := set_remotes (<[i := with_cbHandle None r]> (_remotes s)) s).
      match goal with |- Life ?t =>
        assert (Ho : outstanding t = outstanding s1) by (by apply outstanding_remotes)
      end.
      split; rewrite ?Ho; simpl.
      * intros _. by destruct (outstanding s1).
      * by destruct (outstanding s1).
      * by destruct (outstanding s1).
      * rewrite length_insert. apply HL.
      * intros j x Hx. destruct (decide (j = i)) as [->|Hne].
        -- rewrite list_lookup_insert_eq in Hx by (by eapply lookup_lt_Some).
           simplify_eq. simpl. by eapply (life_docs _ HL).
        -- rewrite list_lookup_insert_ne in Hx by done. by eapply (life_docs _ HL).
    + pose proof (kill_core _ _ _ _ H) as Hcore. unfold core in Hcore.
      injection Hcore as _ Hrs _.
      destruct (kill_shape _ _ _ _ H) as (ex & lc & ev & Hshape).
      assert (Hg : _gettingFromRemote s' = _gettingFromRemote s) by (by subst s').
      clear Hshape.
      apply kill_effect in H
        as [(e0 & He0 & _ & -> & _)|[(_ & Hsd & -> & ->)|(_ & Hsd & -> & Hev1 & Hrest)]];
        [done| |].
      * match goal with |- Life ?t =>
          assert (Ho : outstanding t = outstanding s) by (by apply outstanding_remotes)
        end.
        split; rewrite ?Ho; simpl; [|by destruct (outstanding s)..|apply HL|apply HL].
        intros _. by destruct (outstanding s).
      * rewrite <- (outstanding_remotes _ _ Hrs) in Hrest.
        split; [| | |rewrite Hg, Hrs; apply HL|rewrite Hrs; apply HL].
        -- intros _. destruct (outstanding s'); destruct Hrest as [-> _]; done.
        -- destruct (outstanding s'); destruct Hrest as [-> _]; done.
        -- destruct (outstanding s'); destruct Hrest as [-> _]; done.
Qed.

Lemma construct_loop_settings (rs : list RemoteCursor) (k : nat)
    (s s' : AsyncResultsMerger) (u : unit) :
  construct_loop k rs s = Some (u, s') ->
  settings s' = settings s /\ _executor s' = _executor s
  /\ length (_remotes s') = length (_remotes s) + length rs.
Proof.
  revert k s. induction rs as [|remote rs IH]; intros k s; simpl.
  - unfoldM. intros [= _ <-]. split; [done|]. split; [done|]. lia.
  - unfold bind at 1, modify at 1. unfold bind at 1.
    destruct (_addBatchToBuffer k _ _) as [[ok s1]|] eqn:H1; [|done].
    intros H. apply IH in H as (E1 & E2 & E3).
    assert (H1' : settings s1 = settings s /\ _executor s1 = _executor s
                  /\ length (_remotes s1) = S (length (_remotes s))).
    { match type of H1 with _addBatchToBuffer _ _ ?t = _ =>
        destruct (_remotes t !! k) as [x|] eqn:Hx end.
      - rewrite (addBatchToBuffer_spec _ _ _ _ Hx) in H1. cbv zeta in H1.
        injection H1 as _ <-.
        destruct (_ && _); simpl; rewrite length_insert, length_app; simpl;
          (split; [done|]; split; [done|]; lia).
      - unfold _addBatchToBuffer, remoteAt in H1. unfoldM_in H1. by rewrite Hx in H1. }
    destruct H1' as (F1 & F2 & F3).
    split; [congruence|]. split; [congruence|]. lia.
Qed.

Lemma Life_new (opCtx : option nat) (executor : TaskExecutor)
    (params : ClusterClientCursorParams) (s : AsyncResultsMerger) :
  newAsyncResultsMerger opCtx executor params = Some s -> Life s.
Proof.
  intros Hnew. pose proof (new_buffers _ _ _ _ Hnew) as [_ Hbuf].
  unfold newAsyncResultsMerger, construct in Hnew. unfold bind in Hnew.
  destruct (construct_loop 0 (remotes params) _) as [[u s1]|] eqn:Hloop; [|done].
  unfold modify in Hnew. injection Hnew as <-.
  apply construct_loop_settings in Hloop as (Hs & _).
  unfold settings in Hs. injection Hs as E1 E2 E3 E4 E5 E6 E7. simpl in *.
  split; simpl.
  - by rewrite E7.
  - by rewrite E6.
  - by rewrite E6.
  - left. done.
  - intros i r Hr. destruct (Hbuf i r Hr) as (remote & _ & ->).
    apply Forall_fmap, Forall_forall. by intros.
Qed.

Lemma reachable_Life (s : AsyncResultsMerger) : reachable s -> Life s.
Proof.
  induction 1 as [opCtx executor params s H | s o out s' Hreach IH H].
  - by eapply Life_new.
  - eapply Life_step; [|exact IH|exact H]. by apply reachable_Inv.
Qed.

(** ** The destructor, [kill] and late responses *)

Lemma forallb_exhausted (rs : list RemoteCursorData) :
  forallb exhausted rs = true <-> forall r, r ∈ rs -> cursorId r = 0%Z.
Proof.
  rewrite forallb_forall. unfold exhausted. split.
  - intros H r Hr. apply Z.eqb_eq, H. by apply list_elem_of_In.
  - intros H r Hr. apply Z.eqb_eq, H. by apply list_elem_of_In.
Qed.

(** X1.  On a merger that can be reached, the destructor finds its
    invariant satisfied exactly when every remote cursor is exhausted or
    the merger has been killed and no batch request is outstanding; and
    whenever it finds it satisfied, no batch request is outstanding, so no
    completion callback can still run on the destroyed object. *)
Theorem destructor_safe (s : AsyncResultsMerger) :
  reachable s ->
  (destructor s = Some (tt, s)
   <-> (forall r, r ∈ _remotes s -> cursorId r = 0%Z)
       \/ (_lifecycleState s <> kAlive /\ outstanding s = false))
  /\ (destructor s <> None -> outstanding s = false)
  /\ (destructor s = None \/ destructor s = Some (tt, s)).
Proof.
  intros Hreach. pose proof (reachable_Inv _ Hreach) as HI.
  pose proof (reachable_Life _ Hreach) as HL.
  assert (Hex : (forall r, r ∈ _remotes s -> cursorId r = 0%Z) -> outstanding s = false).
  { intros Hall. apply outstanding_false. intros i r Hr.
    destruct (cbHandle r) eqn:Hcb; [|done]. exfalso.
    destruct (inv_inflight _ HI i r Hr) as (_ & Hc & _); [congruence|].
    apply Hc, Hall. by eapply list_elem_of_lookup_2. }
  assert (Hdef : destructor s
                 = if forallb exhausted (_remotes s)
                      || bool_decide (_lifecycleState s = kKillComplete)
                   then Some (tt, s) else None).
  { unfold destructor, _remotesExhausted. unfoldM. done. }
  assert (Hiff : destructor s = Some (tt, s)
                 <-> (forall r, r ∈ _remotes s -> cursorId r = 0%Z)
                     \/ (_lifecycleState s <> kAlive /\ outstanding s = false)).
  { rewrite Hdef. split.
    - destruct (forallb exhausted (_remotes s)) eqn:Hall; simpl.
      + intros _. left. by apply forallb_exhausted.
      + destruct (bool_decide (_lifecycleState s = kKillComplete)) eqn:Hk; [|done].
        apply bool_decide_eq_true in Hk. intros _. right.
        split; [congruence|]. by apply (life_complete _ HL).
    - intros [Hall|[Hlc Hout]].
      + apply forallb_exhausted in Hall. by rewrite Hall.
      + assert (Hk : _lifecycleState s = kKillComplete).
        { destruct (_lifecycleState s) eqn:E; [done| |done].
          pose proof (life_started _ HL E). congruence. }
        rewrite (bool_decide_eq_true_2 _ Hk). by rewrite orb_true_r. }
  split; [exact Hiff|]. split.
  - intros Hsome.
    assert (Hs : destructor s = Some (tt, s)).
    { rewrite Hdef in *. by destruct (_ || _). }
    apply Hiff in Hs as [Hall|[_ ?]]; [by apply Hex|done].
  - rewrite Hdef. destruct (_ || _); auto.
Qed.

(** X2.  On a merger that can be reached, [kill] trips none of its
    invariants, whatever state the merger and the executor are in.  It
    leaves the merger not alive, with the kill complete exactly when no
    batch request is outstanding, and touches no remote: buffers, cursor
    ids and statuses stay as they are.  It returns an invalid handle only
    when the executor is shutting down. *)
Theorem kill_never_aborts (ctx : option nat) (s : AsyncResultsMerger) :
  reachable s ->
  exists e s',
    kill ctx s = Some (e, s')
    /\ _lifecycleState s' <> kAlive
    /\ (_lifecycleState s' = kKillComplete <-> outstanding s' = false)
    /\ _remotes s' = _remotes s
    /\ _mergeQueue s' = _mergeQueue s
    /\ (e = None -> inShutdown (_executor s) = true).
Proof.
  intros Hreach. pose proof (reachable_Life _ Hreach) as HL.
  destruct (kill_total ctx s (life_event _ HL)) as (e & s' & Hkill).
  exists e, s'. split; [exact Hkill|].
  assert (Hreach' : reachable s').
  { eapply reachable_step with (o := OpKill ctx); [exact Hreach|].
    simpl. unfold bind. rewrite Hkill. reflexivity. }
  pose proof (reachable_Life _ Hreach') as HL'.
  pose proof (kill_core _ _ _ _ Hkill) as Hcore. unfold core in Hcore.
  injection Hcore as _ Hrs Hq.
  assert (Hlc : _lifecycleState s' <> kAlive).
  { apply kill_effect in Hkill
      as [(e0 & _ & _ & -> & ?)|[(_ & _ & _ & ->)|(_ & _ & _ & _ & Hrest)]].
    - done.
    - simpl. by destruct (outstanding s).
    - destruct (outstanding s); destruct Hrest as [-> _]; done. }
  split; [exact Hlc|]. split; [|split; [done|split; [done|]]].
  - split; [apply (life_complete _ HL')|].
    intros Hout. destruct (_lifecycleState s') eqn:E; [done| |done].
    pose proof (life_started _ HL' E). congruence.
  - intros ->.
    apply kill_effect in Hkill
      as [(e0 & _ & ? & _)|[(_ & ? & _)|(_ & _ & ? & _)]]; done.
Qed.

Lemma callback_killed_total (response : RemoteCommandResponse) (i : nat)
    (s : AsyncResultsMerger) (r : RemoteCursorData) :
  _lifecycleState s = kKillStarted ->
  _remotes s !! i = Some r -> cbHandle r <> None ->
  exists s', callback response i s = Some (tt, s').
Proof.
  intros Hk Hr Hcb.
  assert (Hlc : _lifecycleState s <> kAlive) by congruence.
  unfold callback. unfold bind at 1. unfold remoteAt, defined. rewrite Hr.
  destruct (cbHandle r) as [h|] eqn:Hcbr; [|done]. cbv beta iota delta [isValid].
  unfold _handleBatchResponse. unfold bind at 1. rewrite (updRemote_Some _ _ _ _ Hr).
  set (s1 := set_remotes (<[i := with_cbHandle None r]> (_remotes s)) s).
  assert (Hlc1 : _lifecycleState s1 <> kAlive) by done.
  unfold bind at 1, gets at 1.
  rewrite (bool_decide_eq_false_2 _ Hlc1). cbv beta iota delta [negb]. unfold bind at 1.
  rewrite (signalCurrentEventIfReady_killed _ Hlc1).
  unfold _cleanUpKilledBatch, _haveOutstandingBatchRequests, _scheduleKillCursors.
  unfoldM. simpl. rewrite (bool_decide_eq_true_2 _ Hk). simpl.
  change (existsb _ _) with (outstanding s1).
  destruct (outstanding s1) eqn:Hout; simpl; [by eexists|].
  destruct (_killCursorsScheduledEvent s) as [e|] eqn:Hev; simpl; [|by eexists].
  rewrite (bool_decide_eq_true_2 _ Hk). simpl. rewrite Hev. simpl.
  match goal with |- context [scheduleKillCursors_loop ?a ?b ?c] =>
    destruct (scheduleKillCursors_loop_total a b c) as [ex ->] end.
  - intros x Hx. apply list_elem_of_lookup in Hx as [j Hj].
    by eapply outstanding_false in Hout.
  - simpl. by eexists.
Qed.

(** X3.  A response that arrives after [kill] is not processed: on a
    merger that can be reached and is no longer alive, the completion
    callback of an outstanding request trips no invariant, marks that
    request as no longer outstanding and leaves everything else about the
    remotes, the merge queue and the merger's status as it was, whatever
    the response carries.  The kill is complete afterwards exactly when
    that was the last outstanding request. *)
Theorem response_after_kill (response : RemoteCommandResponse) (i : nat)
    (s : AsyncResultsMerger) (r : RemoteCursorData) :
  reachable s ->
  _lifecycleState s <> kAlive ->
  _remotes s !! i = Some r ->
  cbHandle r <> None ->
  exists s',
    callback response i s = Some (tt, s')
    /\ _remotes s' = <[i := with_cbHandle None r]> (_remotes s)
    /\ _mergeQueue s' = _mergeQueue s
    /\ _status s' = _status s
    /\ _eofNext s' = _eofNext s
    /\ _currentEvent s' = None
    /\ _lifecycleState s' = (if outstanding s' then kKillStarted else kKillComplete).
Proof.
  intros Hreach Hlc Hr Hcb. pose proof (reachable_Life _ Hreach) as HL.
  assert (Hk : _lifecycleState s = kKillStarted).
  { destruct (_lifecycleState s) eqn:E; [done|done|].
    pose proof (life_complete _ HL E) as Hout.
    rewrite outstanding_false in Hout. by apply Hout in Hr. }
  destruct (callback_killed_total response i s r Hk Hr Hcb) as [s' Hs'].
  exists s'. split; [exact Hs'|].
  apply callback_killed in Hs' as (r0 & ex & Hr0 & _ & _ & ->); [|done].
  rewrite Hr in Hr0. injection Hr0 as <-. cbv zeta. simpl.
  do 5 (split; [done|]).
  match goal with |- _ = (if outstanding ?t then _ else _) =>
    rewrite (outstanding_remotes t
               (set_remotes (<[i := with_cbHandle None r]> (_remotes s)) s))
      by done
  end.
  done.
Qed.

(** ** [nextReady] on a ready merger *)

Lemma headKey_queue (s : AsyncResultsMerger) (j : nat) :
  Inv s -> j ∈ _mergeQueue s -> is_Some (headKey (_remotes s) j).
Proof.
  intros HI Hj. destruct (inv_queue _ HI j Hj) as (Hs & r & Hr & Hb & _).
  pose proof (inv_keyed _ HI Hs j r Hr) as Hk. unfold headKey. rewrite Hr.
  destruct (docBuffer r) as [|d rest]; [done|]. by apply Forall_cons in Hk as [? _].
Qed.

Lemma pq_top_defined (rs : list RemoteCursorData) (sortSpec : list (string * Z))
    (q : list nat) :
  (forall j, j ∈ q -> is_Some (headKey rs j)) -> q <> [] ->
  is_Some (pq_top (MergingComparator rs sortSpec) q).
Proof.
  induction q as [|x q IH]; intros Hall Hne; [done|]. simpl.
  destruct q as [|y q']; [done|].
  destruct IH as [t Ht]; [intros j Hj; apply Hall; by right|done|].
  rewrite Ht. rewrite MergingComparator_headKey.
  destruct (Hall x) as [kx ->]; [by left|].
  destruct (Hall t) as [kt ->]; [right; by eapply pq_top_elem_of|]. done.
Qed.

Lemma nextReadySorted_total (s : AsyncResultsMerger) :
  Inv s -> tailableMode (_params s) = kNormal ->
  exists res s', _nextReadySorted s = Some (res, s').
Proof.
  intros HI Htm. unfold _nextReadySorted. unfoldM. rewrite Htm. simpl.
  destruct (_mergeQueue s) as [|x q] eqn:Hq; simpl; [by eexists _, _|].
  destruct (pq_top_defined (_remotes s) (sort (_params s)) (x :: q)) as [t Ht].
  { intros j Hj. apply headKey_queue; [done|]. by rewrite Hq. }
  { done. }
  simpl in Ht. rewrite Ht. simpl.
  assert (Hin : t ∈ _mergeQueue s).
  { rewrite Hq. by eapply pq_top_elem_of. }
  destruct (inv_queue _ HI t Hin) as (_ & r & Hr & Hb & Hst).
  unfold remoteAt, updRemote, remoteAt. unfoldM. simpl. rewrite Hr. simpl.
  destruct (docBuffer r) as [|d rest] eqn:Hbuf; [done|]. simpl.
  rewrite Hst. simpl. rewrite Hr. simpl.
  rewrite list_lookup_insert_eq by (by eapply lookup_lt_Some). simpl.
  rewrite ?Hbuf. simpl. destruct (negb (isEmpty rest)); by eexists _, _.
Qed.

Lemma nextReadyUnsorted_loop_total (todo : nat) (s : AsyncResultsMerger) :
  (forall r, r ∈ _remotes s -> status r = OK) ->
  todo = 0 \/ _gettingFromRemote s < length (_remotes s) ->
  exists res s', nextReadyUnsorted_loop todo s = Some (res, s').
Proof.
  revert s. induction todo as [|todo IH]; intros s Hall Hg; simpl.
  - unfoldM. by eexists _, _.
  - destruct Hg as [?|Hg]; [done|].
    apply lookup_lt_is_Some in Hg as Hr. destruct Hr as [r Hr].
    unfold bind at 1. unfold gets at 1. unfold bind at 1. unfold remoteAt, defined.
    rewrite Hr. unfold bind at 1. unfold invariant at 1.
    rewrite (Hall r) by (by eapply list_elem_of_lookup_2). simpl.
    unfold hasNext at 1. destruct (docBuffer r) as [|front rest] eqn:Hbuf.
    + unfoldM. apply IH; simpl; [done|]. right.
      destruct (length (_remotes s)) as [|m] eqn:Hn; [lia|].
      destruct (_gettingFromRemote s =? m) eqn:Hcmp; [lia|].
      apply Nat.eqb_neq in Hcmp. lia.
    + unfold updRemote, remoteAt. unfoldM. simpl. rewrite Hr. simpl.
      rewrite list_lookup_insert_eq by done. simpl.
      destruct (_ && _); by eexists _, _.
Qed.

(** What [ready] has seen when it answers true without changing the
    merger's status, on a merger that is alive, has no error and is not at
    the end of a tailable batch. *)
Lemma ready_true (s : AsyncResultsMerger) :
  _lifecycleState s = kAlive -> _status s = OK -> _eofNext s = false ->
  _ready s = Some (true, s) ->
  (forall r, r ∈ _remotes s -> status r = OK)
  /\ (if hasSort s
      then tailableMode (_params s) = kNormal
           /\ forall r, r ∈ _remotes s -> hasNext r = true \/ exhausted r = true
      else (exists r, r ∈ _remotes s /\ hasNext r = true)
           \/ (forall r, r ∈ _remotes s -> exhausted r = true)).
Proof.
  intros Hlc Hst Heof. unfold _ready, _readySorted, _readyUnsorted. unfoldM.
  rewrite (bool_decide_eq_true_2 _ Hlc). simpl. rewrite Heof. simpl.
  destruct (firstError (_remotes s)) as [st|] eqn:Hfe.
  { intros [= Hs]. apply firstError_Some in Hfe as [Hne _].
    apply (f_equal _status) in Hs. simpl in Hs. congruence. }
  pose proof (proj1 (firstError_None _) Hfe) as Hok. clear Hfe.
  fold (hasSort s).
  destruct (hasSort s).
  - destruct (bool_decide (tailableMode (_params s) = kNormal)) eqn:Htm; simpl; [|done].
    apply bool_decide_eq_true in Htm. intros [= Hall].
    split; [done|]. split; [done|]. by apply readySorted_all.
  - intros [= Hall]. split; [done|].
    apply readyUnsorted_loop_spec in Hall as [?|[_ ?]]; auto.
Qed.

Lemma nextReady_total (s : AsyncResultsMerger) :
  Inv s -> Life s -> _ready s = Some (true, s) ->
  exists res s', nextReady s = Some (res, s').
Proof.
  intros HI HL Hready.
  destruct (decide (_lifecycleState s = kAlive)) as [Hlc|Hlc];
    [|eexists _, _; by apply nextReady_killed].
  unfold nextReady. unfoldM. rewrite (bool_decide_eq_true_2 _ Hlc). simpl.
  destruct (isOK (_status s)) eqn:Hst; simpl; [|by eexists _, _].
  apply isOK_true in Hst.
  destruct (_eofNext s) eqn:Heof; [by eexists _, _|].
  destruct (ready_true _ Hlc Hst Heof Hready) as [Hall Hrest].
  fold (hasSort s). destruct (hasSort s).
  - destruct Hrest as [Htm _].
    destruct (nextReadySorted_total s HI Htm) as (res & s' & ->). by eexists _, _.
  - unfold _nextReadyUnsorted. unfoldM.
    destruct (nextReadyUnsorted_loop_total (length (_remotes s)) s Hall)
      as (res & s' & ->); [|by eexists _, _].
    destruct (life_cursor _ HL) as [Hg|Hg]; [|by right].
    destruct (length (_remotes s)); [by left|right; lia].
Qed.

(** ** The walk of [_nextReadyUnsorted] over the remotes *)

Lemma nextRemote_lt (size g : nat) : g < size -> nextRemote size g < size.
Proof.
  unfold nextRemote. intros Hg. destruct (S g =? size) eqn:E; [lia|].
  apply Nat.eqb_neq in E. lia.
Qed.

Lemma iter_nextRemote_add (size g k : nat) :
  g + k < size -> Nat.iter k (nextRemote size) g = g + k.
Proof.
  induction k as [|k IH]; intros Hlt; simpl; [lia|].
  rewrite IH by lia. unfold nextRemote.
  destruct (S (g + k) =? size) eqn:E; [apply Nat.eqb_eq in E; lia|lia].
Qed.

Lemma iter_nextRemote_wrap (size g : nat) :
  g < size -> Nat.iter (size - g) (nextRemote size) g = 0.
Proof.
  intros Hg. replace (size - g) with (S (size - g - 1)) by lia. simpl.
  rewrite iter_nextRemote_add by lia. unfold nextRemote.
  destruct (S (g + (size - g - 1)) =? size) eqn:E; [done|].
  apply Nat.eqb_neq in E. lia.
Qed.

(** Starting anywhere, [size] turns reach every remote. *)
Lemma nextRemote_covers (size g j : nat) :
  g < size -> j < size ->
  exists k, k < size /\ Nat.iter k (nextRemote size) g = j.
Proof.
  intros Hg Hj. destruct (decide (g <= j)) as [Hle|Hgt].
  - exists (j - g). split; [lia|]. rewrite iter_nextRemote_add by lia. lia.
  - exists (j + (size - g)). split; [lia|].
    rewrite Nat.iter_add, iter_nextRemote_wrap by done.
    rewrite iter_nextRemote_add by lia. lia.
Qed.

Lemma nextReadyUnsorted_loop_none (todo : nat) (s s' : AsyncResultsMerger) :
  (forall i r, _remotes s !! i = Some r -> Forall (fun d => d <> None) (docBuffer r)) ->
  nextReadyUnsorted_loop todo s = Some (None, s') ->
  forall k, k < todo ->
    exists r, _remotes s
                !! Nat.iter k (nextRemote (length (_remotes s))) (_gettingFromRemote s)
              = Some r
              /\ docBuffer r = [].
Proof.
  revert s. induction todo as [|todo IH]; intros s Hdocs; simpl; [intros _ k; lia|].
  unfold bind at 1. unfold gets at 1. unfold bind at 1. unfold remoteAt, defined.
  destruct (_remotes s !! _gettingFromRemote s) as [r|] eqn:Hr; [|done].
  unfold bind at 1. unfold invariant at 1.
  destruct (isOK (status r)); [|done].
  unfold hasNext at 1. destruct (docBuffer r) as [|front rest] eqn:Hbuf.
  - unfoldM. intros H k Hk. destruct k as [|k].
    + simpl. by exists r.
    + rewrite Nat.iter_succ_r.
      destruct (IH (set_gettingFromRemote
                      (nextRemote (length (_remotes s)) (_gettingFromRemote s)) s)
                   Hdocs H k) as (x & Hx & Hbx); [lia|].
      by exists x.
  - unfold updRemote, remoteAt. intros H. exfalso.
    pose proof (Hdocs _ _ Hr) as Hall. rewrite Hbuf in Hall.
    apply Forall_cons in Hall as [Hfront _].
    monad_inv H; simpl in *; simplify_eq.
Qed.

Lemma nextReadyUnsorted_loop_empty (todo : nat) (s : AsyncResultsMerger) :
  (forall r, r ∈ _remotes s -> status r = OK /\ docBuffer r = []) ->
  todo = 0 \/ _gettingFromRemote s < length (_remotes s) ->
  exists s', nextReadyUnsorted_loop todo s = Some (None, s')
             /\ _remotes s' = _remotes s.
Proof.
  revert s. induction todo as [|todo IH]; intros s Hall Hg; simpl.
  - unfoldM. by eexists.
  - destruct Hg as [?|Hg]; [done|].
    apply lookup_lt_is_Some in Hg as Hr. destruct Hr as [r Hr].
    destruct (Hall r) as [Hst Hbuf]; [by eapply list_elem_of_lookup_2|].
    unfold bind at 1. unfold gets at 1. unfold bind at 1. unfold remoteAt, defined.
    rewrite Hr. unfold bind at 1. unfold invariant at 1. rewrite Hst. simpl.
    unfold hasNext at 1. rewrite Hbuf. unfoldM.
    apply (IH (set_gettingFromRemote
                 (nextRemote (length (_remotes s)) (_gettingFromRemote s)) s));
      [done|].
    right. apply (nextRemote_lt _ _ Hg).
Qed.

Lemma nextReady_value (s : AsyncResultsMerger) :
  Inv s -> Life s ->
  _lifecycleState s = kAlive -> _status s = OK -> _eofNext s = false ->
  _ready s = Some (true, s) ->
  exists res s',
    nextReady s = Some (SWValue res, s')
    /\ (res = None <-> forall r, r ∈ _remotes s -> docBuffer r = [] /\ cursorId r = 0%Z).
Proof.
  intros HI HL Hlc Hst Heof Hready.
  destruct (ready_true _ Hlc Hst Heof Hready) as [Hall Hrest].
  assert (Hdrained : (forall r, r ∈ _remotes s -> docBuffer r = []) ->
                     forall r, r ∈ _remotes s -> docBuffer r = [] /\ cursorId r = 0%Z).
  { intros Hempty r Hr. split; [by apply Hempty|].
    assert (Hex : exhausted r = true).
    { destruct (hasSort s).
      - destruct Hrest as [_ Hrest]. destruct (Hrest r Hr) as [Hn|?]; [|done].
        unfold hasNext in Hn. by rewrite (Hempty r Hr) in Hn.
      - destruct Hrest as [(x & Hx & Hn)|Hrest]; [|by apply Hrest].
        unfold hasNext in Hn. by rewrite (Hempty x Hx) in Hn. }
    by apply Z.eqb_eq in Hex. }
  unfold nextReady. unfoldM. rewrite (bool_decide_eq_true_2 _ Hlc). simpl.
  rewrite Hst. simpl. rewrite Heof. simpl. fold (hasSort s).
  destruct (hasSort s) eqn:Hs.
  - destruct Hrest as [Htm _].
    destruct (nextReadySorted_total s HI Htm) as (res & s' & Hn). rewrite Hn.
    exists res, s'. split; [done|].
    apply nextReadySorted_inv in Hn
      as [_ [(Hq & -> & ->)|(t & r & rest & _ & Hr & Hb & _ & _)]].
    + split; [intros _|done]. apply Hdrained. intros r Hr.
      apply list_elem_of_lookup in Hr as [i Hi].
      destruct (docBuffer r) eqn:Hb; [done|]. exfalso.
      assert (Hin : i ∈ _mergeQueue s).
      { apply (inv_queued _ HI i r Hi); [by apply hasSort_true|congruence|].
        apply Hall. by eapply list_elem_of_lookup_2. }
      rewrite Hq in Hin. inversion Hin.
    + pose proof (life_docs _ HL t r Hr) as Hdocs. rewrite Hb in Hdocs.
      apply Forall_cons in Hdocs as [Hres _]. split; [done|].
      intros Hempty. destruct (Hempty r) as [Hbr _]; [by eapply list_elem_of_lookup_2|].
      congruence.
  - unfold _nextReadyUnsorted. unfoldM.
    assert (Hg : length (_remotes s) = 0
                 \/ _gettingFromRemote s < length (_remotes s)).
    { destruct (life_cursor _ HL) as [Hg|Hg]; [|by right].
      destruct (length (_remotes s)); [by left|right; lia]. }
    destruct (nextReadyUnsorted_loop_total (length (_remotes s)) s Hall Hg)
      as (res & s' & Hn).
    rewrite Hn. exists res, s'. split; [done|]. split.
    + intros ->. apply Hdrained. intros r Hr.
      apply list_elem_of_lookup in Hr as [j Hj].
      apply lookup_lt_Some in Hj as Hlt.
      destruct Hg as [Hg|Hg]; [lia|].
      destruct (nextRemote_covers _ _ j Hg Hlt) as (k & Hk & Hiter).
      destruct (nextReadyUnsorted_loop_none _ _ _ (life_docs _ HL) Hn k Hk)
        as (x & Hx & Hbx).
      rewrite Hiter, Hj in Hx. by simplify_eq.
    + intros Hempty.
      destruct (nextReadyUnsorted_loop_empty (length (_remotes s)) s) as (s1 & Hs1 & _).
      * intros r Hr. split; [by apply Hall|by apply Hempty].
      * done.
      * rewrite Hs1 in Hn. by simplify_eq.
Qed.

(** X4.  Called as documented, on a merger for which [ready] has just
    answered true, [nextReady] trips none of its invariants and reads no
    queue or buffer that is empty, in any state a merger can reach.  When
    it hands out a document, that document was at the head of the buffer
    of one remote and is removed from it; otherwise no buffer changes. *)
Theorem nextReady_never_aborts (s : AsyncResultsMerger) :
  reachable s ->
  _ready s = Some (true, s) ->
  exists res s',
    nextReady s = Some (res, s')
    /\ (forall d, res = SWValue (Some d) ->
          exists g r rest,
            _remotes s !! g = Some r
            /\ docBuffer r = Some d :: rest
            /\ _remotes s' = <[g := with_docBuffer rest r]> (_remotes s))
    /\ ((forall d, res <> SWValue (Some d)) -> _remotes s' = _remotes s).
Proof.
  intros Hreach Hready. pose proof (reachable_Inv _ Hreach) as HI.
  pose proof (reachable_Life _ Hreach) as HL.
  destruct (nextReady_total s HI HL Hready) as (res & s' & Hn).
  exists res, s'. split; [exact Hn|].
  apply nextReady_effect in Hn
    as [_ [(Hrs & _ & Hno)|(g & r & front & rest & -> & Hg & Hb & _ & Hrs & _)]].
  - split; [|done]. intros d ->. by destruct (Hno d).
  - pose proof (life_docs _ HL g r Hg) as Hdocs. rewrite Hb in Hdocs.
    apply Forall_cons in Hdocs as [Hfront _].
    destruct front as [d0|]; [|done]. split.
    + intros d [= <-]. by exists g, r, rest.
    + intros Hno. by destruct (Hno d0).
Qed.

(** X5.  On a merger that can be reached, is alive, has no error and
    for which [ready] has just answered true, [nextReady] returns a
    value, and that value is the end-of-stream marker exactly when the
    merger is at the end of a tailable batch or every remote is exhausted
    with nothing left in its buffer: a document that is buffered is never
    passed over, and the stream does not end while a remote can still
    deliver. *)
Theorem nextReady_end_of_stream (s : AsyncResultsMerger) :
  reachable s ->
  _lifecycleState s = kAlive ->
  _status s = OK ->
  _ready s = Some (true, s) ->
  exists res s',
    nextReady s = Some (SWValue res, s')
    /\ (res = None
        <-> _eofNext s = true
            \/ forall r, r ∈ _remotes s -> docBuffer r = [] /\ cursorId r = 0%Z).
Proof.
  intros Hreach Hlc Hst Hready. pose proof (reachable_Inv _ Hreach) as HI.
  pose proof (reachable_Life _ Hreach) as HL.
  destruct (_eofNext s) eqn:Heof.
  - exists None, (set_eofNext false s). split; [|by split; [left|]].
    unfold nextReady. unfoldM. rewrite (bool_decide_eq_true_2 _ Hlc). simpl.
    rewrite Hst. simpl. by rewrite Heof.
  - destruct (nextReady_value s HI HL Hlc Hst Heof Hready) as (res & s' & Hn & Hiff).
    exists res, s'. split; [exact Hn|]. rewrite Hiff. split; [by right|].
    by intros [?|?].
Qed.

(** ** The merger's status only ever turns into an error *)

Lemma ready_latch (s s' : AsyncResultsMerger) (b : bool) :
  _ready s = Some (b, s') ->
  (_status s <> OK -> _status s' <> OK)
  /\ (_lifecycleState s' = _lifecycleState s /\ _remotes s' = _remotes s).
Proof.
  unfold _ready, _readySorted, _readyUnsorted. unfoldM.
  destruct (negb (bool_decide (_lifecycleState s = kAlive))); [by intros [= _ <-]|].
  destruct (_eofNext s); [by intros [= _ <-]|].
  destruct (firstError (_remotes s)) as [st|] eqn:Hfe.
  { intros [= _ <-]. apply firstError_Some in Hfe as [Hne _]. done. }
  destruct (negb (isEmpty (sort (_params s)))); simpl.
  - destruct (bool_decide (tailableMode (_params s) = kNormal)); simpl; [|done].
    by intros [= _ <-].
  - by intros [= _ <-].
Qed.

Lemma signalCurrentEventIfReady_latch (s s' : AsyncResultsMerger) (u : unit) :
  _signalCurrentEventIfReady s = Some (u, s') ->
  _status s <> OK -> _status s' <> OK.
Proof.
  unfold _signalCurrentEventIfReady. unfold bind at 1.
  destruct (_ready s) as [[b s1]|] eqn:Hr; [|done].
  apply ready_latch in Hr as [Hr _]. unfoldM.
  destruct (b && isValid (_currentEvent s1)); intros [= _ <-]; simpl; done.
Qed.

Lemma processBatchResults_status (response : RemoteCommandResponse) (i : nat)
    (s s' : AsyncResultsMerger) (u : unit) :
  _processBatchResults response i s = Some (u, s') ->
  _status s' = _status s /\ _currentEvent s' = _currentEvent s.
Proof.
  unfold _processBatchResults. unfold bind at 1. unfold remoteAt, defined.
  destruct (_remotes s !! i) as [r|] eqn:Hr; [|done].
  assert (Hfail : forall st, _cleanUpFailedBatch st i s = Some (u, s') ->
            _status s' = _status s /\ _currentEvent s' = _currentEvent s).
  { intros st H. rewrite (cleanUpFailedBatch_spec _ _ _ _ Hr) in H. by simplify_eq. }
  destruct (negb (isOK (rstatus response))); [apply Hfail|].
  destruct (_parseCursorResponse (data response) r) as [cr|st]; [|apply Hfail].
  clear Hfail. unfold bind at 1.
  destruct (updRemote i _ s) as [[u1 s1]|] eqn:H1; [|done].
  apply updRemote_inv in H1 as (r0 & _ & ->). unfold bind at 1.
  destruct (_addBatchToBuffer i _ _) as [[ok s2]|] eqn:H2; [|done].
  assert (H12 : _status s2 = _status s /\ _currentEvent s2 = _currentEvent s).
  { match type of H2 with _addBatchToBuffer _ _ ?t = _ =>
      destruct (_remotes t !! i) as [x|] eqn:Hx end.
    - rewrite (addBatchToBuffer_spec _ _ _ _ Hx) in H2. cbv zeta in H2.
      injection H2 as _ <-. by destruct (_ && _).
    - unfold _addBatchToBuffer, remoteAt in H2. unfoldM_in H2. by rewrite Hx in H2. }
  clear H2. destruct H12 as [H12 He12].
  destruct (negb ok); [unfoldM; by intros [= _ <-]|].
  unfold bind at 1. unfold remoteAt, defined.
  destruct (_remotes s2 !! i) as [r2|]; [|done].
  unfold bind at 1, gets at 1.
  destruct (bool_decide (tailableMode (_params s2) = kTailable) && negb (hasNext r2)).
  { unfoldM. destruct (length (_remotes s2) =? 1); [|done]. by intros [= _ <-]. }
  destruct (negb (hasNext r2) && negb (exhausted r2)); [|unfoldM; by intros [= _ <-]].
  unfold bind at 1.
  destruct (_askForNextBatch i s2) as [[st s3]|] eqn:H3; [|done].
  intros H4. apply updRemote_inv in H4 as (r3 & _ & ->).
  apply askForNextBatch_inv in H3 as (r4 & _ & _ & [(_ & _ & ->)|(Hsd & _ & ->)]);
    simpl; by rewrite <- H12, <- He12.
Qed.

Lemma nextEvent_loop_status (todo i : nat) (s s' : AsyncResultsMerger)
    (res : option Status) :
  nextEvent_loop todo i s = Some (res, s') ->
  _status s' = _status s /\ _currentEvent s' = _currentEvent s.
Proof.
  revert i s. induction todo as [|todo IH]; intros i s; simpl.
  - unfoldM. by intros [= _ <-].
  - unfold bind at 1. unfold remoteAt, defined.
    destruct (_remotes s !! i) as [r|] eqn:Hr; [|done].
    destruct (negb (isOK (status r))); [unfoldM; by intros [= _ <-]|].
    destruct (negb (hasNext r) && negb (exhausted r) && negb (isValid (cbHandle r)));
      [|apply IH].
    unfold bind at 1.
    destruct (_askForNextBatch i s) as [[st s1]|] eqn:Hask; [|done].
    assert (H1 : _status s1 = _status s /\ _currentEvent s1 = _currentEvent s).
    { by apply askForNextBatch_inv in Hask
        as (r4 & _ & _ & [(_ & _ & ->)|(Hsd & _ & ->)]). }
    destruct H1 as [E1 E2].
    destruct (negb (isOK st)); [unfoldM; by intros [= _ <-]|].
    intros H. apply IH in H as [F1 F2]. split; congruence.
Qed.

Lemma step_latch (o : Op) (s s' : AsyncResultsMerger) (out : Out) :
  step o s = Some (out, s') -> _status s <> OK ->
  _status s' <> OK /\ forall d, out <> OutNext (SWValue d).
Proof.
  intros Hstep Hst.
  apply step_cases in Hstep
    as [(b & -> & -> & H)
       |[(res & -> & -> & H)
        |[(res & -> & -> & H)
         |[(i & response & -> & -> & H)
          |[(ctx & e & -> & -> & H)
           |[(-> & -> & ->)
            |[(ctx & -> & -> & _ & ->)
             |[(t & -> & [(_ & -> & ->)|(_ & -> & ->)])
              |[(-> & -> & ->)|(-> & -> & ->)]]]]]]]]];
    try done.
  - apply ready_latch in H as [H _]. split; [by apply H|done].
  - revert H. unfold nextReady. unfoldM.
    destruct (negb (bool_decide (_lifecycleState s = kAlive)));
      [intros [= <- <-]; split; [done|intros d; discriminate]|].
    apply isOK_false in Hst as Hst'. rewrite Hst'. simpl.
    intros [= <- <-]; split; [done|intros d; discriminate].
  - split; [|done]. revert H. unfold nextEvent. unfoldM.
    destruct (negb (bool_decide (_lifecycleState s = kAlive))); [by intros [= _ <-]|].
    destruct (isValid (_currentEvent s)); [by intros [= _ <-]|].
    destruct (nextEvent_loop _ 0 s) as [[early s1]|] eqn:Hloop; [|done].
    apply nextEvent_loop_status in Hloop as [E1 _].
    destruct early as [st|]; [intros [= _ <-]; by rewrite E1|].
    destruct (makeEvent (_executor s1)) as [[e|st] ex] eqn:Hmake.
    + destruct (_signalCurrentEventIfReady _) as [[u s2]|] eqn:Hsig; [|done].
      apply signalCurrentEventIfReady_latch in Hsig; [|simpl; by rewrite E1].
      by intros [= _ <-].
    + intros [= _ <-]. simpl. by rewrite E1.
  - split; [|done].
    destruct (decide (_lifecycleState s = kAlive)) as [Hlc|Hlc].
    + revert H. unfold callback. unfold bind at 1. unfold remoteAt, defined.
      destruct (_remotes s !! i) as [r|] eqn:Hr; [|done].
      destruct (isValid (cbHandle r)); [|done].
      unfold _handleBatchResponse. unfold bind at 1.
      rewrite (updRemote_Some _ _ _ _ Hr).
      unfold bind at 1, gets at 1.
      change (_lifecycleState (set_remotes _ s)) with (_lifecycleState s).
      rewrite (bool_decide_eq_true_2 _ Hlc). cbv beta iota delta [negb].
      unfold bind at 1.
      destruct (_processBatchResults response i _) as [[u2 s2]|] eqn:H2; [|done].
      apply processBatchResults_status in H2 as [H2 _]. simpl in H2.
      intros H3. apply signalCurrentEventIfReady_latch in H3; [done|by rewrite H2].
    + by apply callback_killed in H as (r & ex & _ & _ & _ & ->).
  - split; [|done]. by apply kill_shape in H as (ex & lc & ev & ->).
Qed.

(** X6.  The merger's status is a latch: once it is an error, every
    operation leaves it an error, and no later [nextReady] hands out a
    document or an end-of-stream marker; each returns an error. *)
Theorem error_is_final (ops : list Op) (s s' : AsyncResultsMerger) (outs : list Out) :
  _status s <> OK ->
  runOps ops s = Some (outs, s') ->
  _status s' <> OK
  /\ documents outs = []
  /\ forall res, OutNext res ∈ outs -> exists st, res = SWError st /\ st <> OK.
Proof.
  revert s outs. induction ops as [|o ops IH]; intros s outs Hst; simpl.
  - unfoldM. intros [= <- <-]. split; [done|]. split; [done|].
    intros res Hin. inversion Hin.
  - unfold bind at 1. destruct (step o s) as [[out s1]|] eqn:Hstep; [|done].
    unfold bind at 1. destruct (runOps ops s1) as [[outs1 s2]|] eqn:Hrun; [|done].
    unfoldM. intros [= <- <-].
    destruct (step_latch _ _ _ _ Hstep Hst) as [Hst1 Hout].
    destruct (IH _ _ Hst1 Hrun) as (Hst2 & Hdocs & Hall).
    split; [done|]. split.
    + simpl. destruct out as [| [[d|]|] | | | |]; try done. by destruct (Hout (Some d)).
    + intros res Hin. apply elem_of_cons in Hin as [Heq|Hin]; [|by apply Hall].
      subst out. destruct res as [d|st]; [by destruct (Hout d)|].
      exists st. split; [done|].
      apply step_cases in Hstep
        as [(b & ? & ? & H)
           |[(res & _ & [= <-] & H)
            |[(res & ? & ? & H)
             |[(i & response & ? & ? & H)
              |[(ctx & e & ? & ? & H)
               |[(? & ? & ?)
                |[(ctx & ? & ? & _ & ?)
                 |[(t & ? & [(_ & ? & ?)|(_ & ? & ?)])
                  |[(? & ? & ?)|(? & ? & ?)]]]]]]]]];
        try done.
      revert H. unfold nextReady. unfoldM.
      destruct (negb (bool_decide (_lifecycleState s = kAlive)));
        [by intros [= <- <-]|].
      apply isOK_false in Hst as Hst'. rewrite Hst'. simpl. by intros [= <- <-].
Qed.

(** ** The constructor *)

Lemma construct_loop_spec (rs : list RemoteCursor) :
  forall (k : nat) (s : AsyncResultsMerger),
    length (_remotes s) = k ->
    exists q,
      construct_loop k rs s
      = Some (tt, set_mergeQueue (_mergeQueue s ++ q)
                    (set_remotes (_remotes s ++ (firstRemote (hasSort s) <$> rs)) s))
      /\ forall j, j ∈ q <->
           exists remote, k <= j /\ rs !! (j - k) = Some remote
                          /\ queuedAtStart (hasSort s) remote = true.
Proof.
  induction rs as [|remote rs IH]; intros k s Hk; subst k; simpl.
  - exists []. split.
    + unfoldM. rewrite !app_nil_r. by destruct s.
    + intros j. split; [intros H; inversion H|by intros (? & _ & ? & _)].
  - unfold bind at 1. unfold modify at 1.
    set (fresh := newRemoteCursorData _ _ _).
    set (s1 := set_remotes _ s).
    assert (Hr1 : _remotes s1 !! length (_remotes s) = Some fresh).
    { subst s1. simpl. rewrite lookup_app_r by lia.
      by replace (length (_remotes s) - length (_remotes s)) with 0 by lia. }
    unfold bind at 1.
    rewrite (addBatchToBuffer_spec _ _ _ _ Hr1). cbv zeta.
    change (hasSort s1) with (hasSort s).
    set (batch := getBatch (cursorResponse remote)).
    set (c := forallb (wellFormedFor (hasSort s)) batch
              && (hasSort s && negb (isEmpty batch))).
    assert (Hc : c = queuedAtStart (hasSort s) remote).
    { subst c. unfold queuedAtStart. fold batch.
      destruct (hasSort s), (isEmpty batch), (forallb _ batch); done. }
    assert (Hins : <[length (_remotes s) := appended (hasSort s) batch fresh]>
                     (_remotes s ++ [fresh])
                   = _remotes s ++ [firstRemote (hasSort s) remote]).
    { rewrite insert_app_r_alt by lia. by rewrite Nat.sub_diag. }
    set (s2 := if c then _ else _).
    assert (Hs2 : s2 = set_mergeQueue (_mergeQueue s ++ (if c then [length (_remotes s)]
                                                         else []))
                         (set_remotes (_remotes s ++ [firstRemote (hasSort s) remote]) s)).
    { subst s2 s1. destruct c; simpl; rewrite Hins; [done|].
      rewrite app_nil_r. by destruct s. }
    clearbody s2. subst s2.
    match goal with |- context [construct_loop _ rs ?t] =>
      destruct (IH (S (length (_remotes s))) t) as (q2 & Hloop & Hq2) end.
    { simpl. rewrite length_app. simpl. lia. }
    exists ((if c then [length (_remotes s)] else []) ++ q2). split.
    + rewrite Hloop. simpl. rewrite <- !app_assoc. done.
    + intros j. rewrite elem_of_app, Hq2. change (hasSort (set_mergeQueue _ _))
        with (hasSort s). split.
      * intros [Hj|(x & Hle & Hx & Hqx)].
        -- destruct c eqn:Hcv; [|inversion Hj].
           apply list_elem_of_singleton in Hj as ->. exists remote.
           rewrite Nat.sub_diag. split; [lia|]. split; [done|]. by rewrite <- Hc.
        -- exists x. split; [lia|]. split; [|done].
           by replace (j - length (_remotes s))
             with (S (j - S (length (_remotes s)))) by lia.
      * intros (x & Hle & Hx & Hqx).
        destruct (decide (j = length (_remotes s))) as [->|Hne].
        -- left. rewrite Nat.sub_diag in Hx. injection Hx as <-.
           rewrite Hc, Hqx. by apply list_elem_of_singleton.
        -- right. exists x. split; [lia|]. split; [|done].
           by replace (j - length (_remotes s))
             with (S (j - S (length (_remotes s)))) in Hx by lia.
Qed.

(** X7.  The constructor cannot fail, whatever the parameters: it
    contacts no one, creates one remote per cursor in the parameters, in
    order, and buffers each first batch up to its first document without a
    sort key (none is missing one when there is no sort).  A remote is on
    the merge queue exactly when there is a sort and its first batch is
    not empty and complete.  The read preference becomes the metadata of
    later requests; the merger starts alive, with no error, no event and
    no timeout. *)
Theorem constructor_total (ctx : option nat) (executor : TaskExecutor)
    (params : ClusterClientCursorParams) :
  exists s,
    newAsyncResultsMerger ctx executor params = Some s
    /\ _remotes s = firstRemote (negb (isEmpty (sort params))) <$> remotes params
    /\ (forall k, k ∈ _mergeQueue s <->
          exists remote, remotes params !! k = Some remote
                         /\ queuedAtStart (negb (isEmpty (sort params))) remote = true)
    /\ _executor s = executor /\ _opCtx s = ctx /\ _params s = params
    /\ _metadataObj s = readPreference params
    /\ _lifecycleState s = kAlive /\ _status s = OK /\ _eofNext s = false
    /\ _currentEvent s = None /\ _killCursorsScheduledEvent s = None
    /\ _awaitDataTimeout s = None /\ _gettingFromRemote s = 0.
Proof.
  unfold newAsyncResultsMerger, construct. unfold bind, modify.
  destruct (construct_loop_spec (remotes params) 0 (emptyMerger ctx executor params))
    as (q & -> & Hq); [done|].
  eexists. split; [reflexivity|]. simpl. split; [done|]. split; [|done].
  intros k. rewrite Hq. change (hasSort (emptyMerger ctx executor params))
    with (negb (isEmpty (sort params))).
  rewrite Nat.sub_0_r. split.
  - intros (x & _ & ? & ?). by exists x.
  - intros (x & ? & ?). exists x. split; [lia|done].
Qed.

Lemma firstError_first (rs : list RemoteCursorData) (st : Status) :
  st <> OK ->
  (forall r, r ∈ rs -> status r = OK \/ status r = st) ->
  (exists r, r ∈ rs /\ status r = st) ->
  firstError rs = Some st.
Proof.
  intros Hne. induction rs as [|r rs IH]; intros Hall (x & Hx & Hst); [inversion Hx|].
  simpl. destruct (Hall r) as [Hr|Hr]; [by left| |].
  - rewrite Hr. simpl. apply IH; [intros y Hy; apply Hall; by right|].
    apply elem_of_cons in Hx as [->|Hx]; [congruence|]. by exists x.
  - rewrite Hr. by rewrite (proj2 (isOK_false st) Hne).
Qed.

Lemma new_total (ctx : option nat) (executor : TaskExecutor)
    (params : ClusterClientCursorParams) :
  exists s,
    newAsyncResultsMerger ctx executor params = Some s
    /\ _remotes s = firstRemote (negb (isEmpty (sort params))) <$> remotes params
    /\ _lifecycleState s = kAlive /\ _eofNext s = false.
Proof.
  unfold newAsyncResultsMerger, construct. unfold bind, modify.
  destruct (construct_loop_spec (remotes params) 0 (emptyMerger ctx executor params))
    as (q & -> & _); [done|].
  eexists. split; [reflexivity|]. done.
Qed.

(** X8.  When there is a sort and the first batch of some remote has a
    document without a sort key, the constructor still returns a merger;
    the error is stored in the remote, the first call of [ready] answers
    true and latches [InternalError] as the merger's status, and
    [nextReady] then returns that error and hands out nothing, not even
    the documents that came before the bad one. *)
Theorem constructor_error_ready (ctx : option nat) (executor : TaskExecutor)
    (params : ClusterClientCursorParams) (remote : RemoteCursor) (obj : BSONObj) :
  sort params <> [] ->
  remote ∈ remotes params ->
  obj ∈ getBatch (cursorResponse remote) ->
  type (getField obj kSortKeyField) <> tObject ->
  exists s,
    newAsyncResultsMerger ctx executor params = Some s
    /\ ready s = Some (true, set_status InternalError s)
    /\ nextReady (set_status InternalError s)
       = Some (SWError InternalError, set_status InternalError s).
Proof.
  intros Hsort Hremote Hobj Htype.
  destruct (new_total ctx executor params) as (s & Hnew & Hrs & Hlc & Heof).
  exists s. split; [exact Hnew|].
  assert (Hsorted : negb (isEmpty (sort params)) = true).
  { by destruct (sort params). }
  rewrite Hsorted in Hrs.
  assert (Hfe : firstError (_remotes s) = Some InternalError).
  { apply firstError_first; [done| |].
    - intros r Hr. rewrite Hrs in Hr. apply list_elem_of_fmap in Hr as (x & -> & _).
      unfold firstRemote, appended. destruct (forallb _ _); simpl; auto.
    - exists (firstRemote true remote). split.
      + rewrite Hrs. apply list_elem_of_fmap. by exists remote.
      + unfold firstRemote, appended.
        rewrite forallb_wellFormed_false; [done|]. by exists obj. }
  split.
  - unfold ready, _ready. unfoldM. rewrite (bool_decide_eq_true_2 _ Hlc). simpl.
    rewrite Heof. simpl. by rewrite Hfe.
  - unfold nextReady. unfoldM. simpl. by rewrite (bool_decide_eq_true_2 _ Hlc).
Qed.

(** ** Exhausted remotes *)

Lemma exhausted_step (o : Op) (s s' : AsyncResultsMerger) (out : Out) (i : nat)
    (r : RemoteCursorData) :
  _remotes s !! i = Some r ->
  cursorId r = 0%Z -> cbHandle r = None ->
  step o s = Some (out, s') ->
  exists r', _remotes s' !! i = Some r'
    /\ cursorId r' = 0%Z /\ cbHandle r' = None /\ status r' = status r
    /\ fetchedCount r' = fetchedCount r
    /\ docBuffer r' `suffix_of` docBuffer r.
Proof.
  intros Hr Hc Hcb Hstep.
  assert (Hsame : _remotes s' = _remotes s ->
            exists r', _remotes s' !! i = Some r'
              /\ cursorId r' = 0%Z /\ cbHandle r' = None /\ status r' = status r
              /\ fetchedCount r' = fetchedCount r
              /\ docBuffer r' `suffix_of` docBuffer r).
  { intros ->. by exists r. }
  apply step_cases in Hstep
    as [(b & -> & -> & H)
       |[(res & -> & -> & H)
        |[(res & -> & -> & H)
         |[(j & response & -> & -> & H)
          |[(ctx & e & -> & -> & H)
           |[(-> & -> & ->)
            |[(ctx & -> & -> & _ & ->)
             |[(t & -> & [(_ & -> & ->)|(_ & -> & ->)])
              |[(-> & -> & ->)|(-> & -> & ->)]]]]]]]]];
    try (by apply Hsame).
  - apply Hsame. by apply ready_inv in H as [st ->].
  - apply nextReady_effect in H
      as [_ [(Hrs & _)|(g & x & front & rest & _ & Hg & Hbg & _ & Hrs & _)]];
      [by apply Hsame|].
    rewrite Hrs. destruct (decide (i = g)) as [->|Hne].
    + rewrite list_lookup_insert_eq by (by eapply lookup_lt_Some).
      rewrite Hr in Hg. injection Hg as <-. eexists. split; [done|]. simpl.
      do 4 (split; [done|]). rewrite Hbg. by apply suffix_cons_r.
    + rewrite list_lookup_insert_ne by done. by exists r.
  - apply nextEvent_effect in H as (_ & _ & [_ Hsch]).
    destruct (Hsch i r Hr) as [?|(h & _ & _ & _ & ? & _)]; [by exists r|done].
  - apply callback_effect in H as (x & Hx & Hcbx & _ & r' & -> & _).
    rewrite list_lookup_insert_ne; [by exists r|]. intros ->. congruence.
  - apply Hsame. apply kill_core in H. unfold core in H. by injection H as _ -> _.
Qed.

(** X9.  Exhaustion is final.  A remote whose cursor id is 0 and that has
    no request outstanding stays that way through every sequence of
    operations: no request is made outstanding for it again, its cursor id
    stays 0, its status and its count of fetched documents do not change,
    and its buffer only loses documents from the front. *)
Theorem exhausted_forever (ops : list Op) (s s' : AsyncResultsMerger)
    (outs : list Out) (i : nat) (r : RemoteCursorData) :
  _remotes s !! i = Some r ->
  cursorId r = 0%Z ->
  cbHandle r = None ->
  runOps ops s = Some (outs, s') ->
  exists r', _remotes s' !! i = Some r'
    /\ cursorId r' = 0%Z /\ cbHandle r' = None /\ status r' = status r
    /\ fetchedCount r' = fetchedCount r
    /\ docBuffer r' `suffix_of` docBuffer r.
Proof.
  revert s outs r. induction ops as [|o ops IH]; intros s outs r Hr Hc Hcb; simpl.
  - unfoldM. intros [= _ <-]. by exists r.
  - unfold bind at 1. destruct (step o s) as [[out s1]|] eqn:Hstep; [|done].
    unfold bind at 1. destruct (runOps ops s1) as [[outs1 s2]|] eqn:Hrun; [|done].
    unfoldM. intros [= _ <-].
    destruct (exhausted_step _ _ _ _ _ _ Hr Hc Hcb Hstep)
      as (r1 & Hr1 & Hc1 & Hcb1 & Hst1 & Hf1 & Hsuf1).
    destruct (IH _ _ _ Hr1 Hc1 Hcb1 Hrun) as (r2 & Hr2 & Hc2 & Hcb2 & Hst2 & Hf2 & Hsuf2).
    exists r2. split; [done|]. split; [done|]. split; [done|].
    split; [congruence|]. split; [congruence|]. by etrans.
Qed.

(** ** Documents are neither invented nor handed out twice *)

Lemma omap_id_Some {A} (l : list A) : omap id (Some <$> l) = l.
Proof. induction l as [|x l IH]; [done|]. cbn. by f_equal. Qed.

Lemma buffered_split (rs : list RemoteCursorData) (g : nat) (r : RemoteCursorData) :
  rs !! g = Some r ->
  buffered rs
  = buffered (take g rs) ++ omap id (docBuffer r) ++ buffered (drop (S g) rs).
Proof.
  intros Hr. rewrite <- (take_drop_middle rs g r Hr) at 1.
  unfold buffered. rewrite fmap_app, concat_app. simpl. done.
Qed.

Lemma buffered_insert (rs : list RemoteCursorData) (g : nat) (r r' : RemoteCursorData) :
  rs !! g = Some r ->
  buffered (<[g := r']> rs)
  = buffered (take g rs) ++ omap id (docBuffer r') ++ buffered (drop (S g) rs).
Proof.
  intros Hr. apply lookup_lt_Some in Hr as Hlt.
  rewrite (buffered_split (<[g := r']> rs) g r')
    by (by rewrite list_lookup_insert_eq).
  rewrite take_insert_ge by lia. by rewrite drop_insert_lt by lia.
Qed.

Lemma buffered_scheduling (rs rs' : list RemoteCursorData) :
  scheduling rs rs' -> buffered rs' = buffered rs.
Proof.
  intros Hsch. unfold buffered. f_equal. apply list_eq. intros j.
  rewrite !list_lookup_fmap.
  destruct (rs' !! j) as [r'|] eqn:Hj.
  - destruct (scheduling_buffers _ _ _ _ Hsch Hj) as (r & -> & Hb & _). simpl.
    by rewrite Hb.
  - destruct Hsch as [Hlen _]. apply lookup_ge_None in Hj.
    rewrite (proj2 (lookup_ge_None rs j)) by lia. done.
Qed.

Lemma documents_cons (out : Out) (outs : list Out) :
  documents (out :: outs) = documents [out] ++ documents outs.
Proof. by destruct out as [| [[d|]|] | | | |]. Qed.

Lemma incoming_cons (o : Op) (ops : list Op) :
  incoming (o :: ops) = incoming [o] ++ incoming ops.
Proof. destruct o; simpl; by rewrite ?app_nil_r. Qed.

Lemma step_documents (o : Op) (s s' : AsyncResultsMerger) (out : Out) :
  Inv s -> step o s = Some (out, s') ->
  documents [out] ++ buffered (_remotes s') ⊆+ buffered (_remotes s) ++ incoming [o].
Proof.
  intros HI Hstep.
  assert (Hsame : forall o', _remotes s' = _remotes s ->
            documents [out] = [] ->
            documents [out] ++ buffered (_remotes s')
              ⊆+ buffered (_remotes s) ++ incoming [o']).
  { intros o' -> ->. simpl. by apply submseteq_inserts_r. }
  apply step_cases in Hstep
    as [(b & -> & -> & H)
       |[(res & -> & -> & H)
        |[(res & -> & -> & H)
         |[(i & response & -> & -> & H)
          |[(ctx & e & -> & -> & H)
           |[(-> & -> & ->)
            |[(ctx & -> & -> & _ & ->)
             |[(t & -> & [(_ & -> & ->)|(_ & -> & ->)])
              |[(-> & -> & ->)|(-> & -> & ->)]]]]]]]]];
    try (by apply Hsame).
  - apply Hsame; [|done]. by apply ready_inv in H as [st ->].
  - apply nextReady_effect in H
      as [_ [(Hrs & _ & Hno)|(g & r & front & rest & -> & Hg & Hb & _ & Hrs & _)]].
    + apply Hsame; [done|]. destruct res as [[d|]|]; try done. by destruct (Hno d).
    + rewrite Hrs, (buffered_insert _ _ _ _ Hg), (buffered_split _ _ _ Hg), Hb.
      simpl. rewrite app_nil_r. destruct front as [d|]; simpl; [|done].
      apply Permutation_submseteq. by rewrite Permutation_middle.
  - simpl. rewrite app_nil_r. apply nextEvent_effect in H as (_ & _ & Hsch).
    by rewrite (buffered_scheduling _ _ Hsch).
  - apply callback_effect in H as (r & Hr & Hcb & _ & r' & Hrs & Hdoc & _).
    destruct (inv_inflight _ HI i r Hr Hcb) as (Hb & _).
    rewrite Hrs, (buffered_insert _ _ _ _ Hr), (buffered_split _ _ _ Hr), Hb.
    simpl. rewrite app_nil_r.
    assert (Hsub : omap id (docBuffer r') ⊆+ batchOf response).
    { destruct Hdoc as [->|(pre & Hpre & -> & _)]; [apply submseteq_nil_l|].
      rewrite Hb. simpl. rewrite omap_id_Some.
      destruct Hpre as [k ->]. by apply submseteq_inserts_r. }
    rewrite <- app_assoc. apply submseteq_app; [done|].
    rewrite (comm (++) _ (batchOf response)). by apply submseteq_app.
  - apply Hsame; [|done]. apply kill_core in H. unfold core in H.
    by injection H as _ -> _.
Qed.

Lemma run_documents (ops : list Op) (s s' : AsyncResultsMerger) (outs : list Out) :
  Inv s -> runOps ops s = Some (outs, s') ->
  documents outs ++ buffered (_remotes s') ⊆+ buffered (_remotes s) ++ incoming ops.
Proof.
  revert s outs. induction ops as [|o ops IH]; intros s outs HI; simpl.
  - unfoldM. intros [= <- <-]. simpl. by rewrite app_nil_r.
  - unfold bind at 1. destruct (step o s) as [[out s1]|] eqn:Hstep; [|done].
    unfold bind at 1. destruct (runOps ops s1) as [[outs1 s2]|] eqn:Hrun; [|done].
    unfoldM. intros [= <- <-].
    pose proof (step_documents _ _ _ _ HI Hstep) as H1.
    pose proof (IH _ _ (Inv_step _ _ _ _ HI Hstep) Hrun) as H2.
    change (match o with OpResponse _ response => batchOf response ++ incoming ops
                       | _ => incoming ops end) with (incoming (o :: ops)).
    rewrite documents_cons, (incoming_cons o ops), <- app_assoc.
    etrans; [apply submseteq_app; [reflexivity|exact H2]|].
    rewrite !app_assoc. by apply submseteq_app.
Qed.

Lemma new_remotes (ctx : option nat) (executor : TaskExecutor)
    (params : ClusterClientCursorParams) (s : AsyncResultsMerger) :
  newAsyncResultsMerger ctx executor params = Some s ->
  _remotes s = firstRemote (negb (isEmpty (sort params))) <$> remotes params.
Proof.
  unfold newAsyncResultsMerger, construct. unfold bind, modify.
  destruct (construct_loop_spec (remotes params) 0 (emptyMerger ctx executor params))
    as (q & -> & Hq); [done|].
  by intros [= <-].
Qed.

Lemma buffered_first (sorted : bool) (rs : list RemoteCursor) :
  buffered (firstRemote sorted <$> rs)
  ⊆+ concat ((fun remote => getBatch (cursorResponse remote)) <$> rs).
Proof.
  induction rs as [|remote rs IH]; [done|]. unfold buffered in *. simpl.
  apply submseteq_app; [|exact IH].
  assert (Hbuf : docBuffer (firstRemote sorted remote)
                 = Some <$> accepted sorted (getBatch (cursorResponse remote))).
  { unfold firstRemote, appended. by destruct (forallb _ _). }
  rewrite Hbuf, omap_id_Some.
  destruct (accepted_prefix sorted (getBatch (cursorResponse remote))) as [[k Hk] _].
  rewrite Hk at 2. by apply submseteq_inserts_r.
Qed.

(** X10.  Nothing is invented and nothing is handed out twice.  In any
    run of a freshly built merger, the documents handed out by
    [nextReady], together with those still in the buffers at the end, are
    among the documents of the first batches and of the responses of the
    run, counted with multiplicity. *)
Theorem documents_accounted (ctx : option nat) (executor : TaskExecutor)
    (params : ClusterClientCursorParams) (s0 s' : AsyncResultsMerger)
    (ops : list Op) (outs : list Out) :
  newAsyncResultsMerger ctx executor params = Some s0 ->
  runOps ops s0 = Some (outs, s') ->
  documents outs ++ buffered (_remotes s') ⊆+ firstBatches params ++ incoming ops.
Proof.
  intros Hnew Hrun.
  etrans; [apply (run_documents _ _ _ _ (Inv_new _ _ _ _ Hnew) Hrun)|].
  apply submseteq_app; [|done].
  rewrite (new_remotes _ _ _ _ Hnew). apply buffered_first.
Qed.

(** ** A killed merger *)

Section KilledExecutor.
(** A relation between executors that every call made on behalf of a
    killed merger respects. *)
Variable R : relation TaskExecutor.
Hypothesis R_refl : forall ex, R ex ex.
Hypothesis R_trans : forall ex1 ex2 ex3, R ex1 ex2 -> R ex2 ex3 -> R ex1 ex3.
Hypothesis R_kill : forall ex req nss ids,
  cmdObj req = KillCursors nss ids -> R ex (snd (scheduleRemoteCommand req ex)).
Hypothesis R_make : forall ex, R ex (snd (makeEvent ex)).
Hypothesis R_signal : forall ex ev, R ex (signalEvent ev ex).
Hypothesis R_cancel : forall ex h, R ex (cancel h ex).

Lemma scheduleKillCursors_loop_executor (ctx : option nat)
    (rs : list RemoteCursorData) (s s' : AsyncResultsMerger) (u : unit) :
  scheduleKillCursors_loop ctx rs s = Some (u, s') ->
  exists ex, s' = set_executor ex s /\ R (_executor s) ex.
Proof using R R_refl R_trans R_kill.
  revert s. induction rs as [|r rs IH]; intros s; simpl; unfoldM.
  - intros [= _ <-]. exists (_executor s). split; [by destruct s|done].
  - destruct (cbHandle r) eqn:Hcb; simpl; [done|].
    destruct (isOK (status r) && negb (cursorId r =? 0)%Z && negb (exhausted r)).
    + destruct (scheduleRemoteCommand _ (_executor s)) as [a ex1] eqn:Hsch.
      intros H. apply IH in H as (ex & -> & HR). exists ex.
      split; [by destruct s|]. simpl in HR.
      eapply R_trans; [|exact HR].
      match type of Hsch with scheduleRemoteCommand ?req _ = _ =>
        pose proof (R_kill (_executor s) req _ _ eq_refl) as H1 end.
      by rewrite Hsch in H1.
    + apply IH.
Qed.

Lemma cancelOutstanding_executor (rs : list RemoteCursorData) (ex : TaskExecutor) :
  R ex (fold_left
          (fun (ex : TaskExecutor) (remote : RemoteCursorData) =>
             if isValid (cbHandle remote) then cancel (cbHandle remote) ex else ex)
          rs ex).
Proof using R R_refl R_trans R_cancel.
  revert ex. induction rs as [|r rs IH]; intros ex; simpl; [done|].
  destruct (isValid (cbHandle r)); [|apply IH].
  eapply R_trans; [apply R_cancel|apply IH].
Qed.

Lemma kill_executor (ctx : option nat) (s s' : AsyncResultsMerger) (e : EventHandle) :
  kill ctx s = Some (e, s') -> R (_executor s) (_executor s').
Proof using All.
  unfold kill, _haveOutstandingBatchRequests, _scheduleKillCursors, cancelOutstanding.
  unfoldM.
  destruct (isValid (_killCursorsScheduledEvent s)); simpl.
  { destruct (negb _); [|done]. by intros [= _ <-]. }
  pose proof (R_make (_executor s)) as Hmake.
  destruct (makeEvent (_executor s)) as [[e0|st] ex1] eqn:Hm; simpl in *.
  - destruct (negb _); simpl.
    + match goal with |- context [scheduleKillCursors_loop ?a ?b ?c] =>
        destruct (scheduleKillCursors_loop a b c) as [[u3 s3]|] eqn:H3; [|done] end.
      apply scheduleKillCursors_loop_executor in H3 as (ex3 & -> & HR). simpl in *.
      intros [= _ <-]. simpl.
      eapply R_trans; [exact Hmake|]. eapply R_trans; [exact HR|].
      apply (R_signal ex3 (Some e0)).
    + intros [= _ <-]. simpl. eapply R_trans; [exact Hmake|].
      apply cancelOutstanding_executor.
  - destruct (isShutdownError st); [|done].
    destruct (negb _); simpl; by intros [= _ <-].
Qed.

Lemma callback_killed_executor (response : RemoteCommandResponse) (i : nat)
    (s s' : AsyncResultsMerger) (u : unit) :
  _lifecycleState s <> kAlive ->
  callback response i s = Some (u, s') ->
  R (_executor s) (_executor s').
Proof using All.
  intros Hlc. unfold callback. unfold bind at 1. unfold remoteAt, defined.
  destruct (_remotes s !! i) as [r|] eqn:Hr; [|done].
  destruct (cbHandle r) as [h|] eqn:Hcb; cbv beta iota delta [isValid]; [|done].
  unfold _handleBatchResponse. unfold bind at 1. rewrite (updRemote_Some _ _ _ _ Hr).
  set (s1 := set_remotes (<[i := with_cbHandle None r]> (_remotes s)) s).
  assert (Hlc1 : _lifecycleState s1 <> kAlive) by done.
  unfold bind at 1, gets at 1.
  rewrite (bool_decide_eq_false_2 _ Hlc1). cbv beta iota delta [negb].
  unfold bind at 1.
  rewrite (signalCurrentEventIfReady_killed _ Hlc1).
  pose proof (R_signal (_executor s) (_currentEvent s)) as Hsig.
  change (_currentEvent s1) with (_currentEvent s).
  change (_executor s1) with (_executor s).
  set (ex2 := signalEvent (_currentEvent s) (_executor s)) in *.
  unfold _cleanUpKilledBatch, _haveOutstandingBatchRequests, _scheduleKillCursors.
  unfoldM. simpl.
  destruct (bool_decide (_lifecycleState s = kKillStarted)) eqn:Hk; simpl; [|done].
  destruct (existsb _ _); simpl; [by intros [= _ <-]|].
  destruct (_killCursorsScheduledEvent s) as [e|] eqn:Hev; simpl;
    [|by intros [= _ <-]].
  rewrite Hk. simpl. rewrite Hev. simpl.
  match goal with |- context [scheduleKillCursors_loop ?a ?b ?c] =>
    destruct (scheduleKillCursors_loop a b c) as [[u3 s3]|] eqn:H3; [|done] end.
  apply scheduleKillCursors_loop_executor in H3 as (ex3 & -> & HR). simpl in *.
  intros [= _ <-]. simpl.
  eapply R_trans; [exact Hsig|]. eapply R_trans; [exact HR|].
  apply (R_signal ex3 (Some e)).
Qed.
End KilledExecutor.

Lemma commands_accept (c : Call) (ex : TaskExecutor) :
  (forall h req, c <> Scheduled h req) ->
  commands (accept c ex) = commands ex.
Proof.
  intros Hc. unfold commands, scheduled, accept. simpl.
  rewrite omap_app. simpl. destruct c; simpl; rewrite ?app_nil_r; try done.
  by destruct (Hc handle request).
Qed.

Lemma getMores_kill (ex : TaskExecutor) (req : RemoteCommandRequest)
    (nss : NamespaceString) (ids : list Z) :
  cmdObj req = KillCursors nss ids ->
  getMores (snd (scheduleRemoteCommand req ex)) = getMores ex.
Proof.
  intros Hcmd. unfold scheduleRemoteCommand. destruct (inShutdown ex); [done|].
  unfold getMores, commands, scheduled. simpl.
  rewrite omap_app, fmap_app, filter_app. simpl. rewrite Hcmd.
  rewrite filter_cons_False by done. by rewrite filter_nil, app_nil_r.
Qed.

Lemma getMores_makeEvent (ex : TaskExecutor) : getMores (snd (makeEvent ex)) = getMores ex.
Proof.
  unfold makeEvent. destruct (inShutdown ex); [done|]. simpl.
  unfold getMores. change (commands (draw ?e)) with (commands e).
  by rewrite commands_accept.
Qed.

Lemma getMores_signalEvent (ex : TaskExecutor) (ev : EventHandle) :
  getMores (signalEvent ev ex) = getMores ex.
Proof.
  destruct ev as [e|]; [|done]. unfold getMores. simpl. by rewrite commands_accept.
Qed.

Lemma getMores_cancel (ex : TaskExecutor) (h : CallbackHandle) :
  getMores (cancel h ex) = getMores ex.
Proof.
  destruct h as [c|]; [|done]. unfold getMores. simpl. by rewrite commands_accept.
Qed.

Lemma killed_step_inert (o : Op) (s s' : AsyncResultsMerger) (out : Out) :
  _lifecycleState s <> kAlive ->
  step o s = Some (out, s') ->
  _lifecycleState s' <> kAlive
  /\ getMores (_executor s') = getMores (_executor s)
  /\ (fun r => (docBuffer r, cursorId r, status r)) <$> _remotes s'
     = (fun r => (docBuffer r, cursorId r, status r)) <$> _remotes s
  /\ _mergeQueue s' = _mergeQueue s
  /\ (forall res, out = OutNext res -> res = SWError IllegalOperation)
  /\ (forall res, out = OutEvent res -> res = SWError IllegalOperation)
  /\ (o = OpReady -> out = OutBool true).
Proof.
  intros Hlc Hstep.
  apply step_cases in Hstep
    as [(b & -> & -> & H)
       |[(res & -> & -> & H)
        |[(res & -> & -> & H)
         |[(i & response & -> & -> & H)
          |[(ctx & e & -> & -> & H)
           |[(-> & -> & ->)
            |[(ctx & -> & -> & _ & ->)
             |[(t & -> & [(_ & -> & ->)|(_ & -> & ->)])
              |[(-> & -> & ->)|(-> & -> & ->)]]]]]]]]];
    try done.
  - rewrite (ready_killed _ Hlc) in H. by simplify_eq.
  - rewrite (nextReady_killed _ Hlc) in H. injection H as <- <-.
    do 4 (split; [done|]). split; [by intros ? [= <-]|done].
  - rewrite (nextEvent_killed _ Hlc) in H. injection H as <- <-.
    do 5 (split; [done|]). split; [by intros ? [= <-]|done].
  - pose proof (callback_killed_executor
                  (fun ex ex' => getMores ex' = getMores ex)
                  ltac:(done) ltac:(intros; congruence)
                  ltac:(intros; by eapply getMores_kill)
                  getMores_makeEvent
                  ltac:(intros; apply getMores_signalEvent)
                  ltac:(intros; apply getMores_cancel)
                  _ _ _ _ _ Hlc H) as Hex.
    apply callback_killed in H as (r & ex & Hr & Hcb & Hk & ->); [|done].
    cbv zeta in *. simpl in *. split; [by destruct (outstanding _)|].
    split; [done|]. split; [|done].
    rewrite list_fmap_insert. simpl. by apply list_insert_id; rewrite list_lookup_fmap, Hr.
  - pose proof (kill_executor
                  (fun ex ex' => getMores ex' = getMores ex)
                  ltac:(done) ltac:(intros; congruence)
                  ltac:(intros; by eapply getMores_kill)
                  getMores_makeEvent
                  ltac:(intros; apply getMores_signalEvent)
                  ltac:(intros; apply getMores_cancel)
                  _ _ _ _ H) as Hex.
    pose proof (kill_core _ _ _ _ H) as Hcore. unfold core in Hcore.
    injection Hcore as _ Hrs Hq. rewrite Hrs.
    split; [|done].
    apply kill_effect in H
      as [(e0 & _ & _ & -> & ?)|[(_ & _ & _ & ->)|(_ & _ & _ & _ & Hrest)]].
    + done.
    + simpl. by destruct (outstanding s).
    + destruct (outstanding s); destruct Hrest as [-> _]; done.
Qed.

(** X11.  A killed merger is inert towards its consumer and its remotes.
    In every run that starts from a merger that is not alive, [ready]
    answers true, [nextReady] and [nextEvent] return [IllegalOperation], no
    document is handed out, no buffer, cursor id, remote status or merge
    queue changes (responses that still arrive are dropped), and no getMore
    is handed to the executor; the merger never comes back to life. *)
Theorem killed_is_inert (ops : list Op) (s s' : AsyncResultsMerger) (outs : list Out) :
  _lifecycleState s <> kAlive ->
  runOps ops s = Some (outs, s') ->
  _lifecycleState s' <> kAlive
  /\ documents outs = []
  /\ (forall res, OutNext res ∈ outs -> res = SWError IllegalOperation)
  /\ (forall res, OutEvent res ∈ outs -> res = SWError IllegalOperation)
  /\ getMores (_executor s') = getMores (_executor s)
  /\ (fun r => (docBuffer r, cursorId r, status r)) <$> _remotes s'
     = (fun r => (docBuffer r, cursorId r, status r)) <$> _remotes s
  /\ _mergeQueue s' = _mergeQueue s.
Proof.
  revert s outs. induction ops as [|o ops IH]; intros s outs Hlc; simpl.
  - unfoldM. intros [= <- <-]. do 2 (split; [done|]).
    split; [intros res Hin; inversion Hin|]. split; [intros res Hin; inversion Hin|].
    done.
  - unfold bind at 1. destruct (step o s) as [[out s1]|] eqn:Hstep; [|done].
    unfold bind at 1. destruct (runOps ops s1) as [[outs1 s2]|] eqn:Hrun; [|done].
    unfoldM. intros [= <- <-].
    destruct (killed_step_inert _ _ _ _ Hlc Hstep)
      as (Hlc1 & Hg1 & Hr1 & Hq1 & Hn1 & He1 & _).
    destruct (IH _ _ Hlc1 Hrun) as (Hlc2 & Hd2 & Hn2 & He2 & Hg2 & Hr2 & Hq2).
    split; [done|]. split.
    { destruct out as [| [[d|]|] | | | |]; simpl; try done.
      by specialize (Hn1 _ eq_refl). }
    split.
    { intros res Hin. apply elem_of_cons in Hin as [<-|Hin]; [by apply Hn1|by apply Hn2]. }
    split.
    { intros res Hin. apply elem_of_cons in Hin as [<-|Hin]; [by apply He1|by apply He2]. }
    split; [congruence|]. split; congruence.
Qed.

(** ** Events are signalled once *)

Lemma grows_refl (ex : TaskExecutor) : grows ex ex.
Proof. by split. Qed.

Lemma grows_trans (ex1 ex2 ex3 : TaskExecutor) :
  grows ex1 ex2 -> grows ex2 ex3 -> grows ex1 ex3.
Proof. intros [H1 H2] [H3 H4]. split; [lia|congruence]. Qed.

Lemma signalled_accept (c : Call) (ex : TaskExecutor) :
  signalled (accept c ex)
  = signalled ex ++ match c with Signalled e => [e] | _ => [] end.
Proof. unfold signalled, accept. simpl. rewrite omap_app. by destruct c. Qed.

Lemma grows_schedule (req : RemoteCommandRequest) (ex : TaskExecutor) :
  grows ex (snd (scheduleRemoteCommand req ex)).
Proof.
  unfold scheduleRemoteCommand. destruct (inShutdown ex); [apply grows_refl|].
  split; simpl; [lia|]. change (signalled (draw ?e)) with (signalled e).
  by rewrite signalled_accept, app_nil_r.
Qed.

Lemma grows_cancel (h : CallbackHandle) (ex : TaskExecutor) : grows ex (cancel h ex).
Proof.
  destruct h as [c|]; [|apply grows_refl]. split; simpl; [lia|].
  by rewrite signalled_accept, app_nil_r.
Qed.

Lemma Events_grows (s s' : AsyncResultsMerger) :
  Events s ->
  grows (_executor s) (_executor s') ->
  _currentEvent s' = _currentEvent s ->
  _killCursorsScheduledEvent s' = _killCursorsScheduledEvent s ->
  (_killCursorsScheduledEvent s <> None ->
   _lifecycleState s = kKillComplete -> _lifecycleState s' = kKillComplete) ->
  Events s'.
Proof.
  intros [[Hb Hn] Hc Hk Hd] [Hid Hsig] Ec Ek Hlc. split.
  - split; rewrite Hsig; [|done]. intros e He. specialize (Hb e He). lia.
  - intros e He. rewrite Ec in He. destruct (Hc e He). rewrite Hsig. split; [lia|done].
  - intros e He. rewrite Ek in He. destruct (Hk e He) as [H1 H2]. rewrite Hsig.
    split; [lia|]. intros Hin. apply Hlc; [congruence|by apply H2].
  - intros e He. rewrite Ec in He. rewrite Ek. by apply Hd.
Qed.

Lemma Events_signal_current (s s' : AsyncResultsMerger) (e : nat) :
  Events s ->
  _currentEvent s = Some e ->
  _executor s' = accept (Signalled e) (_executor s) ->
  _currentEvent s' = None ->
  _killCursorsScheduledEvent s' = _killCursorsScheduledEvent s ->
  _lifecycleState s' = _lifecycleState s ->
  Events s'.
Proof.
  intros [[Hb Hn] Hc Hk Hd] He Eex Ec Ek Elc.
  destruct (Hc e He) as [Hlt Hnot]. split; rewrite ?Eex, ?Ec, ?Ek, ?Elc.
  - split; rewrite signalled_accept; simpl.
    + intros x Hx. apply elem_of_app in Hx as [Hx|Hx]; [by apply Hb|].
      by apply list_elem_of_singleton in Hx as ->.
    + apply NoDup_app. split; [done|]. split; [|apply NoDup_singleton].
      intros x Hx Hx'. by apply list_elem_of_singleton in Hx' as ->.
  - done.
  - intros k Hkk. destruct (Hk k Hkk) as [H1 H2]. split; [done|].
    rewrite signalled_accept. simpl. intros Hin.
    apply elem_of_app in Hin as [Hin|Hin]; [by apply H2|].
    apply list_elem_of_singleton in Hin as ->. by destruct (Hd e He).
  - done.
Qed.

Lemma Events_make (s : AsyncResultsMerger) (e : nat) (ex : TaskExecutor) :
  Events s ->
  makeEvent (_executor s) = (SWValue e, ex) ->
  e = nextId (_executor s)
  /\ grows (_executor s) ex
  /\ nextId ex = S e
  /\ (forall x, x ∈ signalled ex -> x < e).
Proof.
  intros [[Hb Hn] _ _ _]. unfold makeEvent.
  destruct (inShutdown (_executor s)); [done|]. intros [= <- <-].
  split; [done|]. split; [|split; [done|]].
  - split; simpl; [lia|]. change (signalled (draw ?x)) with (signalled x).
    by rewrite signalled_accept, app_nil_r.
  - intros x. change (signalled (draw ?y)) with (signalled y).
    rewrite signalled_accept, app_nil_r. apply Hb.
Qed.

Lemma signalCurrentEventIfReady_cases (s s' : AsyncResultsMerger) (u : unit) :
  _signalCurrentEventIfReady s = Some (u, s') ->
  exists st,
    s' = set_status st s
    \/ exists e, _currentEvent s = Some e
                 /\ s' = set_currentEvent None
                           (set_executor (accept (Signalled e) (_executor s))
                              (set_status st s)).
Proof.
  unfold _signalCurrentEventIfReady. unfold bind at 1.
  destruct (_ready s) as [[b s1]|] eqn:Hr; [|done].
  apply ready_inv in Hr as [st ->]. unfoldM. simpl. intros H. exists st. revert H.
  destruct b; simpl; [|intros [= _ <-]; by left].
  destruct (_currentEvent s) as [e|] eqn:He; simpl; intros [= _ <-]; [|by left].
  right. by exists e.
Qed.

Lemma signalCurrentEventIfReady_events (s s' : AsyncResultsMerger) (u : unit) :
  Events s -> _signalCurrentEventIfReady s = Some (u, s') -> Events s'.
Proof.
  intros HE H. apply signalCurrentEventIfReady_cases in H as [st [->|(e & He & ->)]].
  - eapply Events_grows; [exact HE|apply grows_refl|done..].
  - by eapply Events_signal_current.
Qed.

Lemma askForNextBatch_grows (i : nat) (s s' : AsyncResultsMerger) (st : Status) :
  _askForNextBatch i s = Some (st, s') -> grows (_executor s) (_executor s').
Proof.
  intros H.
  apply askForNextBatch_inv in H as (r & _ & _ & [(_ & _ & ->)|(Hsd & _ & ->)]);
    [apply grows_refl|apply grows_schedule].
Qed.

Lemma nextEvent_loop_grows (todo i : nat) (s s' : AsyncResultsMerger)
    (res : option Status) :
  nextEvent_loop todo i s = Some (res, s') -> grows (_executor s) (_executor s').
Proof.
  revert i s. induction todo as [|todo IH]; intros i s; simpl.
  - unfoldM. intros [= _ <-]. apply grows_refl.
  - unfold bind at 1. unfold remoteAt, defined.
    destruct (_remotes s !! i) as [r|] eqn:Hr; [|done].
    destruct (negb (isOK (status r))); [unfoldM; intros [= _ <-]; apply grows_refl|].
    destruct (negb (hasNext r) && negb (exhausted r) && negb (isValid (cbHandle r)));
      [|apply IH].
    unfold bind at 1.
    destruct (_askForNextBatch i s) as [[st s1]|] eqn:Hask; [|done].
    apply askForNextBatch_grows in Hask.
    destruct (negb (isOK st)); [unfoldM; by intros [= _ <-]|].
    intros H. apply IH in H. by eapply grows_trans.
Qed.

Lemma processBatchResults_grows (response : RemoteCommandResponse) (i : nat)
    (s s' : AsyncResultsMerger) (u : unit) :
  _processBatchResults response i s = Some (u, s') ->
  grows (_executor s) (_executor s').
Proof.
  unfold _processBatchResults. unfold bind at 1. unfold remoteAt, defined.
  destruct (_remotes s !! i) as [r|] eqn:Hr; [|done].
  assert (Hfail : forall st, _cleanUpFailedBatch st i s = Some (u, s') ->
            grows (_executor s) (_executor s')).
  { intros st H. rewrite (cleanUpFailedBatch_spec _ _ _ _ Hr) in H. simplify_eq.
    apply grows_refl. }
  destruct (negb (isOK (rstatus response))); [apply Hfail|].
  destruct (_parseCursorResponse (data response) r) as [cr|st]; [|apply Hfail].
  clear Hfail. unfold bind at 1.
  destruct (updRemote i _ s) as [[u1 s1]|] eqn:H1; [|done].
  apply updRemote_inv in H1 as (r0 & _ & ->). unfold bind at 1.
  destruct (_addBatchToBuffer i _ _) as [[ok s2]|] eqn:H2; [|done].
  assert (H12 : _executor s2 = _executor s).
  { match type of H2 with _addBatchToBuffer _ _ ?t = _ =>
      destruct (_remotes t !! i) as [x|] eqn:Hx end.
    - rewrite (addBatchToBuffer_spec _ _ _ _ Hx) in H2. cbv zeta in H2.
      injection H2 as _ <-. by destruct (_ && _).
    - unfold _addBatchToBuffer, remoteAt in H2. unfoldM_in H2. by rewrite Hx in H2. }
  clear H2. rewrite <- H12.
  destruct (negb ok); [unfoldM; intros [= _ <-]; apply grows_refl|].
  unfold bind at 1. unfold remoteAt, defined.
  destruct (_remotes s2 !! i) as [r2|]; [|done].
  unfold bind at 1, gets at 1.
  destruct (bool_decide (tailableMode (_params s2) = kTailable) && negb (hasNext r2)).
  { unfoldM. destruct (length (_remotes s2) =? 1); [|done]. intros [= _ <-].
    apply grows_refl. }
  destruct (negb (hasNext r2) && negb (exhausted r2));
    [|unfoldM; intros [= _ <-]; apply grows_refl].
  unfold bind at 1.
  destruct (_askForNextBatch i s2) as [[st s3]|] eqn:H3; [|done].
  apply askForNextBatch_grows in H3.
  intros H4. by apply updRemote_inv in H4 as (r3 & _ & ->).
Qed.

Lemma nextReadyUnsorted_loop_executor (todo : nat) (s s' : AsyncResultsMerger)
    (res : ClusterQueryResult) :
  nextReadyUnsorted_loop todo s = Some (res, s') ->
  _executor s' = _executor s /\ _currentEvent s' = _currentEvent s.
Proof.
  revert s. induction todo as [|todo IH]; intros s; simpl.
  - unfoldM. by intros [= _ <-].
  - unfold bind at 1. unfold gets at 1. unfold bind at 1. unfold remoteAt, defined.
    destruct (_remotes s !! _gettingFromRemote s) as [r|] eqn:Hr; [|done].
    unfold bind at 1. unfold invariant at 1.
    destruct (isOK (status r)); [|done].
    unfold hasNext at 1. destruct (docBuffer r) as [|front rest] eqn:Hbuf.
    + unfoldM. intros H. by apply IH in H.
    + clear IH. unfold updRemote, remoteAt. intros H. monad_inv H.
      all: simpl in *; by simplify_eq.
Qed.

Lemma nextReady_executor (s s' : AsyncResultsMerger)
    (res : StatusWith ClusterQueryResult) :
  nextReady s = Some (res, s') ->
  _executor s' = _executor s /\ _currentEvent s' = _currentEvent s.
Proof.
  unfold nextReady. unfoldM.
  destruct (negb (bool_decide (_lifecycleState s = kAlive))); [by intros [= _ <-]|].
  destruct (negb (isOK (_status s))); [by intros [= _ <-]|].
  destruct (_eofNext s); [by intros [= _ <-]|].
  destruct (negb (isEmpty (sort (_params s)))); cbv beta iota.
  - destruct (_nextReadySorted s) as [[res0 s0]|] eqn:Hn; [|done].
    intros [= _ <-].
    by apply nextReadySorted_inv in Hn
      as [_ [(_ & _ & ->)|(t & r & rest & _ & _ & _ & _ & ->)]].
  - unfold _nextReadyUnsorted. unfoldM.
    destruct (nextReadyUnsorted_loop _ s) as [[res0 s0]|] eqn:Hn; [|done].
    intros [= _ <-]. by apply nextReadyUnsorted_loop_executor in Hn.
Qed.

Lemma nextEvent_events (s s' : AsyncResultsMerger) (res : StatusWith EventHandle) :
  Events s -> nextEvent s = Some (res, s') -> Events s'.
Proof.
  intros HE. unfold nextEvent. unfoldM.
  destruct (negb (bool_decide (_lifecycleState s = kAlive))); [by intros [= _ <-]|].
  destruct (isValid (_currentEvent s)); [by intros [= _ <-]|].
  destruct (nextEvent_loop _ 0 s) as [[early s1]|] eqn:Hloop; [|done].
  pose proof (nextEvent_loop_grows _ _ _ _ _ Hloop) as Hg.
  pose proof (nextEvent_loop_status _ _ _ _ _ Hloop) as [_ Ec].
  pose proof (nextEvent_loop_settings _ _ _ _ _ Hloop) as Hs.
  unfold settings in Hs. injection Hs as _ _ _ _ _ Elc Ek.
  assert (HE1 : Events s1).
  { eapply Events_grows; [exact HE|done..|]. intros _ ?. congruence. }
  clear Hloop HE Hg Ec Elc Ek.
  destruct early as [st|]; [by intros [= _ <-]|].
  destruct (makeEvent (_executor s1)) as [[e|st] ex] eqn:Hmake.
  - destruct (Events_make _ _ _ HE1 Hmake) as (He & Hg & Hid & Hfresh).
    destruct (_signalCurrentEventIfReady _) as [[u s2]|] eqn:Hsig; [|done].
    intros [= _ <-]. eapply signalCurrentEventIfReady_events; [|exact Hsig].
    destruct HE1 as [[Hb Hn] Hc Hk Hd]. destruct Hg as [Hle Hsg]. split; simpl.
    + split; rewrite Hsg; [|done]. intros x Hx. specialize (Hb x Hx). lia.
    + intros x [= <-]. split; [lia|]. intros Hin. specialize (Hfresh _ Hin). lia.
    + intros k Hkk. destruct (Hk k Hkk) as [H1 H2]. rewrite Hsg. split; [lia|done].
    + intros x [= <-] Hkk. destruct (Hk e Hkk) as [H1 _]. lia.
  - unfold makeEvent in Hmake. destruct (inShutdown (_executor s1)); [|done].
    injection Hmake as _ <-. intros [= _ <-].
    eapply Events_grows; [exact HE1|apply grows_refl|done..].
Qed.

Lemma callback_alive_events (response : RemoteCommandResponse) (i : nat)
    (s s' : AsyncResultsMerger) (u : unit) :
  Events s -> _lifecycleState s = kAlive ->
  callback response i s = Some (u, s') -> Events s'.
Proof.
  intros HE Hlc. unfold callback. unfold bind at 1. unfold remoteAt, defined.
  destruct (_remotes s !! i) as [r|] eqn:Hr; [|done].
  destruct (isValid (cbHandle r)); [|done].
  unfold _handleBatchResponse. unfold bind at 1. rewrite (updRemote_Some _ _ _ _ Hr).
  unfold bind at 1, gets at 1.
  change (_lifecycleState (set_remotes _ s)) with (_lifecycleState s).
  rewrite (bool_decide_eq_true_2 _ Hlc). cbv beta iota delta [negb]. unfold bind at 1.
  destruct (_processBatchResults response i _) as [[u2 s2]|] eqn:H2; [|done].
  pose proof (processBatchResults_grows _ _ _ _ _ H2) as Hg.
  pose proof (processBatchResults_status _ _ _ _ _ H2) as [_ Ec].
  apply processBatchResults_settings in H2 as [Hs _].
  unfold settings in Hs. injection Hs as _ _ _ _ _ Elc Ek. simpl in *.
  intros H3. eapply signalCurrentEventIfReady_events; [|exact H3].
  eapply Events_grows; [exact HE|done..|]. intros _ ?. congruence.
Qed.

Lemma Events_signal_kill (s s' : AsyncResultsMerger) (e : nat) :
  Events s ->
  _killCursorsScheduledEvent s = Some e ->
  e ∉ signalled (_executor s) ->
  _executor s' = accept (Signalled e) (_executor s) ->
  _currentEvent s' = _currentEvent s ->
  _killCursorsScheduledEvent s' = Some e ->
  _lifecycleState s' = kKillComplete ->
  Events s'.
Proof.
  intros [[Hb Hn] Hc Hk Hd] He Hnot Eex Ec Ek Elc.
  destruct (Hk e He) as [Hlt _]. split; rewrite ?Eex, ?Ec, ?Ek, ?Elc.
  - split; rewrite signalled_accept; simpl.
    + intros x Hx. apply elem_of_app in Hx as [Hx|Hx]; [by apply Hb|].
      by apply list_elem_of_singleton in Hx as ->.
    + apply NoDup_app. split; [done|]. split; [|apply NoDup_singleton].
      intros x Hx Hx'. by apply list_elem_of_singleton in Hx' as ->.
  - intros x Hx. destruct (Hc x Hx) as [H1 H2]. split; [done|].
    rewrite signalled_accept. simpl. intros Hin.
    apply elem_of_app in Hin as [Hin|Hin]; [done|].
    apply list_elem_of_singleton in Hin as ->. by destruct (Hd e Hx).
  - intros k [= <-]. done.
  - intros x Hx. rewrite <- He. by apply Hd.
Qed.

Lemma scheduleKillCursors_loop_grows (ctx : option nat) (rs : list RemoteCursorData)
    (s s' : AsyncResultsMerger) (u : unit) :
  scheduleKillCursors_loop ctx rs s = Some (u, s') ->
  exists ex, s' = set_executor ex s /\ grows (_executor s) ex.
Proof.
  apply (scheduleKillCursors_loop_executor grows grows_refl grows_trans).
  intros. apply grows_schedule.
Qed.

Lemma callback_killed_events (response : RemoteCommandResponse) (i : nat)
    (s s' : AsyncResultsMerger) (u : unit) :
  Events s -> _lifecycleState s <> kAlive ->
  callback response i s = Some (u, s') -> Events s'.
Proof.
  intros HE Hlc. unfold callback. unfold bind at 1. unfold remoteAt, defined.
  destruct (_remotes s !! i) as [r|] eqn:Hr; [|done].
  destruct (cbHandle r) as [h|] eqn:Hcb; cbv beta iota delta [isValid]; [|done].
  unfold _handleBatchResponse. unfold bind at 1. rewrite (updRemote_Some _ _ _ _ Hr).
  set (s1 := set_remotes (<[i := with_cbHandle None r]> (_remotes s)) s).
  assert (Hlc1 : _lifecycleState s1 <> kAlive) by done.
  unfold bind at 1, gets at 1.
  rewrite (bool_decide_eq_false_2 _ Hlc1). cbv beta iota delta [negb].
  unfold bind at 1.
  rewrite (signalCurrentEventIfReady_killed _ Hlc1).
  set (s2 := set_currentEvent None _).
  assert (HE2 : Events s2).
  { subst s2. destruct (_currentEvent s1) as [e|] eqn:He.
    - eapply Events_signal_current with (s := s) (e := e); [exact HE|done..].
    - eapply Events_grows; [exact HE|apply grows_refl|done..]. }
  assert (Hk2 : _killCursorsScheduledEvent s2 = _killCursorsScheduledEvent s) by done.
  assert (Hl2 : _lifecycleState s2 = _lifecycleState s) by done.
  assert (Hr2 : _remotes s2 = _remotes s1) by done.
  assert (Hc2 : _currentEvent s2 = None) by done.
  clearbody s2. clear HE.
  unfold _cleanUpKilledBatch, _haveOutstandingBatchRequests, _scheduleKillCursors.
  unfoldM. rewrite Hl2.
  destruct (bool_decide (_lifecycleState s = kKillStarted)) eqn:Hk; simpl; [|done].
  apply bool_decide_eq_true in Hk.
  destruct (existsb _ _); simpl; [by intros [= _ <-]|].
  rewrite Hk2. destruct (_killCursorsScheduledEvent s) as [e|] eqn:Hev; simpl.
  - rewrite Hl2, (bool_decide_eq_true_2 _ Hk). simpl. rewrite ?Hk2. simpl.
    match goal with |- context [scheduleKillCursors_loop ?a ?b ?c] =>
      destruct (scheduleKillCursors_loop a b c) as [[u3 s3]|] eqn:H3; [|done] end.
    apply scheduleKillCursors_loop_grows in H3 as (ex3 & -> & Hg). simpl.
    rewrite ?Hk2. simpl. intros [= _ <-].
    assert (HE3 : Events (set_executor ex3 s2)).
    { eapply Events_grows; [exact HE2|done..]. }
    eapply Events_signal_kill with (s := set_executor ex3 s2) (e := e);
      [exact HE3|simpl; congruence| |done|done|simpl; congruence|done].
    simpl. intros Hin.
    destruct (ev_kill _ HE3 e) as [_ Hcomplete]; [simpl; congruence|].
    specialize (Hcomplete Hin). simpl in Hcomplete. congruence.
  - intros [= _ <-].
    eapply Events_grows; [exact HE2|apply grows_refl|done|done|].
    by rewrite Hk2.
Qed.

Lemma kill_events (ctx : option nat) (s s' : AsyncResultsMerger) (e : EventHandle) :
  Events s -> kill ctx s = Some (e, s') -> Events s'.
Proof.
  intros HE.
  unfold kill, _haveOutstandingBatchRequests, _scheduleKillCursors, cancelOutstanding.
  unfoldM.
  destruct (_killCursorsScheduledEvent s) as [e0|] eqn:Hev; simpl.
  { destruct (negb _); [|done]. by intros [= _ <-]. }
  destruct (makeEvent (_executor s)) as [[e1|st] ex1] eqn:Hm; simpl.
  - destruct (Events_make _ _ _ HE Hm) as (He1 & Hg & Hid & Hfresh).
    assert (HE1 : Events (set_killCursorsScheduledEvent (Some e1)
                            (set_executor ex1 (set_lifecycleState kKillStarted s)))).
    { destruct HE as [[Hb Hn] Hc Hk Hd]. destruct Hg as [Hle Hsg]. split; simpl.
      - split; rewrite Hsg; [|done]. intros x Hx. specialize (Hb x Hx). lia.
      - intros x Hx. destruct (Hc x Hx). rewrite Hsg. split; [lia|done].
      - intros x [= <-]. split; [lia|]. intros Hin. specialize (Hfresh _ Hin). lia.
      - intros x Hx [= <-]. destruct (Hc e1 Hx). lia. }
    destruct (negb _); simpl.
    + match goal with |- context [scheduleKillCursors_loop ?a ?b ?c] =>
        destruct (scheduleKillCursors_loop a b c) as [[u3 s3]|] eqn:H3; [|done] end.
      apply scheduleKillCursors_loop_grows in H3 as (ex3 & -> & Hg3). simpl in *.
      intros [= _ <-].
      match goal with |- Events ?t =>
        eapply Events_signal_kill with
          (s := set_executor ex3
                  (set_killCursorsScheduledEvent (Some e1)
                     (set_executor ex1 (set_lifecycleState kKillStarted s))))
          (e := e1)
      end; try done.
      * eapply Events_grows; [exact HE1|done..].
      * simpl. destruct Hg3 as [_ ->]. intros Hin. specialize (Hfresh _ Hin). lia.
    + intros [= _ <-].
      eapply Events_grows; [exact HE1| |done..]. simpl.
      apply (cancelOutstanding_executor grows grows_refl grows_trans
               (fun ex h => grows_cancel h ex)).
  - destruct (isShutdownError st); [|done].
    unfold makeEvent in Hm. destruct (inShutdown (_executor s)); [|done].
    injection Hm as _ <-.
    destruct (negb _); simpl; intros [= _ <-];
      (eapply Events_grows; [exact HE|apply grows_refl|done|done|]);
      simpl; by rewrite Hev.
Qed.

Lemma Events_step (o : Op) (s s' : AsyncResultsMerger) (out : Out) :
  Events s -> step o s = Some (out, s') -> Events s'.
Proof.
  intros HE Hstep.
  apply step_cases in Hstep
    as [(b & -> & -> & H)
       |[(res & -> & -> & H)
        |[(res & -> & -> & H)
         |[(i & response & -> & -> & H)
          |[(ctx & e & -> & -> & H)
           |[(-> & -> & ->)
            |[(ctx & -> & -> & _ & ->)
             |[(t & -> & [(_ & -> & ->)|(_ & -> & ->)])
              |[(-> & -> & ->)|(-> & -> & ->)]]]]]]]]];
    try done;
    try (eapply Events_grows; [exact HE|apply grows_refl|done..]).
  - apply ready_inv in H as [st ->].
    eapply Events_grows; [exact HE|apply grows_refl|done..].
  - destruct (nextReady_executor _ _ _ H) as [Eex Ec].
    destruct (nextReady_alive _ _ _ H) as (Elc & Ek & _).
    eapply Events_grows; [exact HE|rewrite Eex; apply grows_refl|done|done|].
    intros _ ?. congruence.
  - by eapply nextEvent_events.
  - destruct (decide (_lifecycleState s = kAlive)).
    + by eapply callback_alive_events.
    + by eapply callback_killed_events.
  - by eapply kill_events.
  - eapply Events_grows; [exact HE|by split|done..].
Qed.

Lemma Events_new (ctx : option nat) (executor : TaskExecutor)
    (params : ClusterClientCursorParams) (s : AsyncResultsMerger) :
  tidy executor ->
  newAsyncResultsMerger ctx executor params = Some s -> Events s.
Proof.
  intros Htidy Hnew.
  unfold newAsyncResultsMerger, construct in Hnew. unfold bind in Hnew.
  destruct (construct_loop 0 (remotes params) _) as [[u s1]|] eqn:Hloop; [|done].
  unfold modify in Hnew. injection Hnew as <-.
  pose proof (construct_loop_settings _ _ _ _ _ Hloop) as (Hs & Hex & _).
  assert (Hc : _currentEvent s1 = None).
  { clear Hs Hex. revert Hloop. generalize 0.
    assert (Hgen : forall rs k t, _currentEvent t = None ->
              construct_loop k rs t = Some (u, s1) -> _currentEvent s1 = None).
    { induction rs as [|remote rs IH]; intros k t Ht; simpl.
      - unfoldM. by intros [= _ <-].
      - unfold bind at 1, modify at 1. unfold bind at 1.
        destruct (_addBatchToBuffer k _ _) as [[ok t1]|] eqn:H1; [|done].
        apply IH.
        match type of H1 with _addBatchToBuffer _ _ ?t0 = _ =>
          destruct (_remotes t0 !! k) as [x|] eqn:Hx end.
        + rewrite (addBatchToBuffer_spec _ _ _ _ Hx) in H1. cbv zeta in H1.
          injection H1 as _ <-. by destruct (_ && _).
        + unfold _addBatchToBuffer, remoteAt in H1. unfoldM_in H1.
          by rewrite Hx in H1. }
    intros k. by apply Hgen. }
  unfold settings in Hs. injection Hs as _ _ _ _ _ Elc Ek. simpl in *.
  split; simpl; rewrite ?Hex, ?Hc, ?Ek; done.
Qed.

(** X12.  No event is signalled twice.  Take a merger built on an
    executor whose signalled events are events it has made, each signalled
    once.  After any run, the executor still has every event signalled at
    most once; the event [nextEvent] has handed out and that is still
    current has not been signalled yet; and the kill event has been
    signalled only if the kill is complete. *)
Theorem events_signalled_once (ctx : option nat) (executor : TaskExecutor)
    (params : ClusterClientCursorParams) (s0 s' : AsyncResultsMerger)
    (ops : list Op) (outs : list Out) :
  tidy executor ->
  newAsyncResultsMerger ctx executor params = Some s0 ->
  runOps ops s0 = Some (outs, s') ->
  NoDup (signalled (_executor s'))
  /\ (forall e, _currentEvent s' = Some e -> e ∉ signalled (_executor s'))
  /\ (forall e, _killCursorsScheduledEvent s' = Some e ->
                e ∈ signalled (_executor s') -> _lifecycleState s' = kKillComplete).
Proof.
  intros Htidy Hnew Hrun.
  assert (HE : Events s').
  { pose proof (Events_new _ _ _ _ Htidy Hnew) as HE0. clear Hnew.
    revert s0 outs HE0 Hrun. induction ops as [|o ops IH]; intros s outs HE; simpl.
    - unfoldM. by intros [= _ <-].
    - unfold bind at 1. destruct (step o s) as [[out s1]|] eqn:Hstep; [|done].
      unfold bind at 1. destruct (runOps ops s1) as [[outs1 s2]|] eqn:Hrun; [|done].
      unfoldM. intros [= _ <-]. eapply IH; [|exact Hrun]. by eapply Events_step. }
  split; [apply HE|]. split.
  - intros e He. by destruct (ev_current _ HE e He).
  - intros e He. by destruct (ev_kill _ HE e He).
Qed.

(** ** What [nextEvent] schedules *)

Lemma getMoreRequest_settings (s s' : AsyncResultsMerger) (r : RemoteCursorData) :
  settings s' = settings s -> getMoreRequest s' r = getMoreRequest s r.
Proof.
  unfold settings. intros [= E1 E2 E3 E4 _ _ _]. unfold getMoreRequest.
  by rewrite E1, E2, E3, E4.
Qed.

Lemma scheduling_keeps (rs rs' : list RemoteCursorData) (j : nat)
    (r : RemoteCursorData) :
  scheduling rs rs' -> rs !! j = Some r -> needsBatch r = false ->
  rs' !! j = Some r.
Proof.
  intros [_ Hsch] Hr Hn. destruct (Hsch j r Hr) as [?|(h & _ & Hst & Hb & Hc & Hcb)];
    [done|].
  exfalso. unfold needsBatch, hasNext, exhausted in Hn. rewrite Hb, Hcb in Hn.
  simpl in Hn. apply Z.eqb_neq in Hc. by rewrite Hc in Hn.
Qed.

Lemma nextEvent_loop_exact (todo : nat) :
  forall (i : nat) (s : AsyncResultsMerger),
    inShutdown (_executor s) = false ->
    i + todo <= length (_remotes s) ->
    (forall j r, i <= j -> _remotes s !! j = Some r -> status r = OK) ->
    exists s' reqs,
      nextEvent_loop todo i s = Some (None, s')
      /\ inShutdown (_executor s') = false
      /\ scheduled (_executor s') = scheduled (_executor s) ++ reqs
      /\ snd <$> reqs
         = getMoreRequest s
             <$> filter (fun r => needsBatch r = true) (take todo (drop i (_remotes s)))
      /\ (forall j r', i <= j < i + todo -> _remotes s' !! j = Some r' ->
                       needsBatch r' = false).
Proof.
  induction todo as [|todo IH]; intros i s Hsd Hlen Hok; simpl.
  - exists s, []. unfoldM. rewrite app_nil_r. do 4 (split; [done|]). intros; lia.
  - assert (Hi : i < length (_remotes s)) by lia.
    apply lookup_lt_is_Some in Hi as [r Hr].
    unfold bind at 1. unfold remoteAt, defined. rewrite Hr.
    rewrite (Hok i r) by done. simpl.
    rewrite (drop_S _ _ _ Hr). simpl.
    change (negb (hasNext r) && negb (exhausted r) && negb (isValid (cbHandle r)))
      with (needsBatch r).
    destruct (needsBatch r) eqn:Hneeds.
    + assert (Hcb : cbHandle r = None).
      { unfold needsBatch in Hneeds. by destruct (cbHandle r), (hasNext r), (exhausted r). }
      destruct (askForNextBatch_total i s r Hr Hcb) as (st & s1 & Hask).
      unfold bind at 1. rewrite Hask.
      pose proof (askForNextBatch_settings _ _ _ _ Hask) as Hset.
      apply askForNextBatch_inv in Hask
        as (r0 & Hr0 & _ & [(Hsd' & _)|(_ & -> & ->)]); [congruence|].
      rewrite Hr in Hr0. injection Hr0 as <-. simpl.
      destruct (scheduleRemoteCommand_accepted (getMoreRequest s r) _ Hsd)
        as (_ & _ & Hsched & _ & Hsd1).
      set (s1 := set_remotes _ _) in *.
      destruct (IH (S i) s1) as (s' & reqs & Hloop & Hsd' & Hsch' & Hreqs & Hidle).
      { done. }
      { subst s1. simpl. rewrite length_insert. lia. }
      { intros j x Hj Hx. subst s1. simpl in Hx.
        rewrite list_lookup_insert_ne in Hx by lia. apply (Hok j x); [lia|done]. }
      exists s', ((nextId (_executor s), getMoreRequest s r) :: reqs).
      split; [done|]. split; [done|]. split; [|split].
      * rewrite Hsch'. subst s1. simpl. rewrite Hsched, <- app_assoc. done.
      * rewrite filter_cons_True by done. rewrite !fmap_cons. simpl. rewrite Hreqs.
        apply (f_equal (cons _)).
        subst s1. simpl. rewrite drop_insert_lt by lia.
        apply list_fmap_ext. intros. by apply getMoreRequest_settings.
      * intros j r' Hj Hr'. destruct (decide (j = i)) as [->|Hne]; [|apply (Hidle j); [lia|done]].
        pose proof (nextEvent_loop_spec _ _ _ _ _ Hloop) as (_ & _ & Hs & _).
        assert (Hat : _remotes s1 !! i = Some (with_cbHandle (Some (nextId (_executor s))) r)).
        { subst s1. simpl. rewrite list_lookup_insert_eq; [done|by eapply lookup_lt_Some]. }
        rewrite (scheduling_keeps _ _ _ _ Hs Hat) in Hr'; [|].
        -- by injection Hr' as <-; unfold needsBatch; simpl; rewrite andb_false_r.
        -- unfold needsBatch. simpl. by rewrite andb_false_r.
    + destruct (IH (S i) s) as (s' & reqs & Hloop & Hsd' & Hsch' & Hreqs & Hidle).
      { done. }
      { lia. }
      { intros j x Hj Hx. apply (Hok j x); [lia|done]. }
      exists s', reqs. split; [done|]. split; [done|]. split; [done|]. split.
      * rewrite filter_cons_False by (by rewrite Hneeds). done.
      * intros j r' Hj Hr'. destruct (decide (j = i)) as [->|Hne]; [|apply (Hidle j); [lia|done]].
        pose proof (nextEvent_loop_spec _ _ _ _ _ Hloop) as (_ & _ & Hs & _).
        rewrite (scheduling_keeps _ _ _ _ Hs Hr Hneeds) in Hr'. by injection Hr' as <-.
Qed.

Lemma ready_total (s : AsyncResultsMerger) :
  (sort (_params s) <> [] -> tailableMode (_params s) = kNormal) ->
  exists b st, _ready s = Some (b, set_status st s).
Proof.
  intros Htm. unfold _ready, _readySorted, _readyUnsorted. unfoldM.
  assert (Hsame : set_status (_status s) s = s) by (by destruct s).
  destruct (negb (bool_decide (_lifecycleState s = kAlive)));
    [exists true, (_status s); by rewrite Hsame|].
  destruct (_eofNext s); [exists true, (_status s); by rewrite Hsame|].
  destruct (firstError (_remotes s)) as [st|]; [by exists true, st|].
  destruct (isEmpty (sort (_params s))) eqn:Hs; simpl.
  - eexists _, (_status s). by rewrite Hsame.
  - rewrite Htm by (by destruct (sort (_params s))). simpl.
    eexists _, (_status s). by rewrite Hsame.
Qed.

Lemma scheduled_accept (c : Call) (ex : TaskExecutor) :
  (forall h req, c <> Scheduled h req) -> scheduled (accept c ex) = scheduled ex.
Proof.
  intros Hc. unfold scheduled, accept. simpl. rewrite omap_app. simpl.
  destruct c; simpl; rewrite ?app_nil_r; try done. by destruct (Hc handle request).
Qed.

(** X13.  On a merger that is alive, has no event pending and no failed
    remote, with an executor that accepts work, [nextEvent] returns a new
    event and hands the executor exactly one getMore for each remote that
    has nothing buffered, is not exhausted and has no request outstanding,
    in the order of the remotes and nothing else; each carries the
    merger's current timeout, metadata and operation context.  Afterwards
    no remote is left idle: each has a document buffered, is exhausted, or
    has a request outstanding.  The event is either still current or has
    been signalled already. *)
Theorem nextEvent_schedules (s : AsyncResultsMerger) :
  _lifecycleState s = kAlive ->
  _currentEvent s = None ->
  inShutdown (_executor s) = false ->
  (forall r, r ∈ _remotes s -> status r = OK) ->
  (sort (_params s) <> [] -> tailableMode (_params s) = kNormal) ->
  exists e s' reqs,
    nextEvent s = Some (SWValue (Some e), s')
    /\ scheduled (_executor s') = scheduled (_executor s) ++ reqs
    /\ snd <$> reqs
       = getMoreRequest s <$> filter (fun r => needsBatch r = true) (_remotes s)
    /\ (forall r', r' ∈ _remotes s' -> needsBatch r' = false)
    /\ (_currentEvent s' = Some e
        \/ (_currentEvent s' = None /\ e ∈ signalled (_executor s'))).
Proof.
  intros Hlc Hcur Hsd Hok Htm.
  destruct (nextEvent_loop_exact (length (_remotes s)) 0 s Hsd)
    as (s1 & reqs & Hloop & Hsd1 & Hsch & Hreqs & Hidle); [lia| |].
  { intros j r _ Hr. apply Hok. by eapply list_elem_of_lookup_2. }
  rewrite drop_0, firstn_all in Hreqs.
  pose proof (nextEvent_loop_settings _ _ _ _ _ Hloop) as Hset.
  pose proof (nextEvent_loop_spec _ _ _ _ _ Hloop) as (Hp & _ & Hs & _).
  unfold nextEvent. unfoldM. rewrite (bool_decide_eq_true_2 _ Hlc). simpl.
  rewrite Hcur. simpl. rewrite Hloop. unfold makeEvent. rewrite Hsd1.
  set (e := nextId (_executor s1)).
  set (ex := draw (accept (MadeEvent e) (_executor s1))).
  set (s2 := set_currentEvent (Some e) (set_executor ex s1)).
  destruct (ready_total s2) as (b & st & Hready).
  { subst s2. simpl. by rewrite Hp. }
  assert (Hsch2 : scheduled ex = scheduled (_executor s) ++ reqs).
  { subst ex. change (scheduled (draw ?x)) with (scheduled x).
    by rewrite scheduled_accept. }
  assert (Hidle2 : forall r', r' ∈ _remotes s1 -> needsBatch r' = false).
  { intros r' Hr'. apply list_elem_of_lookup in Hr' as [j Hj].
    apply (Hidle j r'); [|done]. apply lookup_lt_Some in Hj.
    destruct Hs as [Hlen _]. lia. }
  unfold _signalCurrentEventIfReady. unfold bind at 1. rewrite Hready. unfoldM.
  simpl. destruct b; simpl.
  - eexists e, _, reqs. split; [reflexivity|]. simpl.
    rewrite scheduled_accept by done. split; [done|]. split; [done|].
    split; [done|]. right. split; [done|].
    rewrite signalled_accept. apply elem_of_app. right. by apply list_elem_of_singleton.
  - eexists e, _, reqs. split; [reflexivity|]. simpl.
    split; [done|]. split; [done|]. split; [done|]. by left.
Qed.

(** ** An executor that is shutting down *)

Lemma nextEvent_loop_shutdown (todo : nat) :
  forall (i : nat) (s : AsyncResultsMerger),
    inShutdown (_executor s) = true ->
    i + todo <= length (_remotes s) ->
    (forall j r, i <= j -> _remotes s !! j = Some r -> status r = OK) ->
    exists res, nextEvent_loop todo i s = Some (res, s)
                /\ (res = None \/ res = Some ShutdownInProgress).
Proof.
  induction todo as [|todo IH]; intros i s Hsd Hlen Hok; simpl.
  - exists None. by split; [|left].
  - assert (Hi : i < length (_remotes s)) by lia.
    apply lookup_lt_is_Some in Hi as [r Hr].
    unfold bind at 1. unfold remoteAt, defined. rewrite Hr.
    rewrite (Hok i r) by done. simpl.
    assert (Hrest : exists res, nextEvent_loop todo (S i) s = Some (res, s)
                                /\ (res = None \/ res = Some ShutdownInProgress)).
    { apply IH; [done|lia|]. intros j x Hj. apply Hok. lia. }
    destruct (negb (hasNext r) && negb (exhausted r) && negb (isValid (cbHandle r)))
      eqn:Hneeds; [|exact Hrest].
    assert (Hcb : cbHandle r = None).
    { by destruct (cbHandle r), (hasNext r), (exhausted r). }
    destruct (askForNextBatch_total i s r Hr Hcb) as (st & s1 & Hask).
    unfold bind at 1. rewrite Hask.
    apply askForNextBatch_inv in Hask
      as (r0 & _ & _ & [(_ & -> & ->)|(Hsd' & _)]); [|congruence].
    exists (Some ShutdownInProgress). by split; [|right].
Qed.

(** X14.  When the executor is shutting down, [nextEvent] on a merger
    that is alive, has no event pending and no failed remote returns the
    shutdown error instead of an event, whether or not a remote needs a
    batch, and leaves the merger and the executor exactly as they were:
    the consumer is told at once and does not wait on an event that nothing
    would signal. *)
Theorem nextEvent_in_shutdown (s : AsyncResultsMerger) :
  _lifecycleState s = kAlive ->
  _currentEvent s = None ->
  inShutdown (_executor s) = true ->
  (forall r, r ∈ _remotes s -> status r = OK) ->
  nextEvent s = Some (SWError ShutdownInProgress, s).
Proof.
  intros Hlc Hcur Hsd Hok.
  unfold nextEvent. unfoldM. rewrite (bool_decide_eq_true_2 _ Hlc). simpl.
  rewrite Hcur. simpl.
  destruct (nextEvent_loop_shutdown (length (_remotes s)) 0 s Hsd)
    as (res & -> & [-> | ->]); [lia| | |done].
  { intros j r _ Hr. apply Hok. by eapply list_elem_of_lookup_2. }
  unfold makeEvent. rewrite Hsd. by rewrite set_executor_same.
Qed.

(** ** A reply without documents *)

Lemma appended_nil (sorted : bool) (r : RemoteCursorData) : appended sorted [] r = r.
Proof.
  unfold appended. simpl. rewrite app_nil_r, Z.add_0_r. by destruct r.
Qed.

Lemma with_cursorId_same (c : Z) (r : RemoteCursorData) :
  cursorId r = c -> with_cursorId c r = r.
Proof. intros <-. by destruct r. Qed.

(** X15.  A reply that brings no documents from a cursor that is not
    exhausted makes the merger ask again at once.  On a merger that is
    alive and not plainly tailable, when the response for a remote is well
    formed, names the remote's own non-zero cursor and has an empty batch,
    the completion callback hands the executor one more getMore for that
    remote and cursor, and leaves the remote waiting for it with status
    OK; no other remote changes.  If the executor is shutting down
    instead, nothing is scheduled and the remote's status becomes the
    shutdown error, which the next [ready] reports. *)
Theorem empty_batch_refetch (i : nat) (s : AsyncResultsMerger) (r : RemoteCursorData)
    (h : nat) (nss : NamespaceString) :
  _lifecycleState s = kAlive ->
  tailableMode (_params s) <> kTailable ->
  (sort (_params s) <> [] -> tailableMode (_params s) = kNormal) ->
  _remotes s !! i = Some r ->
  cbHandle r = Some h ->
  docBuffer r = [] ->
  cursorId r <> 0%Z ->
  exists s',
    callback {| rstatus := OK;
                data := SWValue {| getNSS := nss; getCursorId := cursorId r;
                                   getBatch := [] |} |} i s
    = Some (tt, s')
    /\ if inShutdown (_executor s)
       then _remotes s'
            = <[i := with_status ShutdownInProgress (with_cbHandle None r)]> (_remotes s)
            /\ scheduled (_executor s') = scheduled (_executor s)
       else _remotes s'
            = <[i := with_status OK (with_cbHandle (Some (nextId (_executor s))) r)]>
                (_remotes s)
            /\ scheduled (_executor s')
               = scheduled (_executor s)
                   ++ [(nextId (_executor s),
                        getMoreRequest s (with_cbHandle None r))].
Proof.
  intros Hlc Htail Htm Hr Hcb Hbuf Hcid.
  apply lookup_lt_Some in Hr as Hlt.
  set (r0 := with_cbHandle None r).
  set (s1 := set_remotes (<[i := r0]> (_remotes s)) s).
  assert (Hr1 : _remotes s1 !! i = Some r0).
  { subst s1. simpl. by rewrite list_lookup_insert_eq. }
  (* the batch is processed *)
  assert (Hproc : exists s2,
            _processBatchResults
              {| rstatus := OK;
                 data := SWValue {| getNSS := nss; getCursorId := cursorId r;
                                    getBatch := [] |} |} i s1 = Some (tt, s2)
            /\ s2 = set_remotes
                      (<[i := if inShutdown (_executor s)
                              then with_status ShutdownInProgress r0
                              else with_status OK
                                     (with_cbHandle (Some (nextId (_executor s))) r0)]>
                         (_remotes s1))
                      (set_executor
                         (if inShutdown (_executor s) then _executor s
                          else snd (scheduleRemoteCommand (getMoreRequest s1 r0)
                                      (_executor s))) s1)).
  { destruct (askForNextBatch_total i s1 r0 Hr1 eq_refl) as (st & s3 & Hask).
    pose proof Hask as Hask'.
    assert (Hparse : (negb (cursorId r =? 0)%Z && negb (cursorId r =? cursorId r)%Z)
                     = false).
    { by rewrite Z.eqb_refl, andb_false_r. }
    assert (Hstart : _processBatchResults
              {| rstatus := OK;
                 data := SWValue {| getNSS := nss; getCursorId := cursorId r;
                                    getBatch := [] |} |} i s1
              = (do st <- _askForNextBatch i in updRemote i (with_status st)) s1).
    { unfold _processBatchResults. unfold bind at 1. unfold remoteAt, defined.
      rewrite Hr1. simpl.
      rewrite Hparse. unfold bind at 1. rewrite (updRemote_Some _ _ _ _ Hr1). simpl.
      rewrite (with_cursorId_same (cursorId r) r0 eq_refl), list_insert_insert_eq.
      unfold bind at 1. fold s1.
      rewrite (addBatchToBuffer_spec _ _ _ _ Hr1). cbv zeta. simpl.
      rewrite andb_false_r, appended_nil. simpl.
      rewrite list_insert_insert_eq.
      change (set_remotes (<[i:=r0]> (_remotes s)) s1) with s1.
      unfold bind at 1. unfold remoteAt, defined. rewrite Hr1.
      unfold bind at 1, gets at 1. simpl.
      rewrite (bool_decide_eq_false_2 _ Htail). simpl.
      unfold hasNext, exhausted. simpl. rewrite Hbuf. simpl.
      rewrite (proj2 (Z.eqb_neq _ _) Hcid). simpl. done. }
    rewrite Hstart. unfold bind at 1. rewrite Hask.
    apply askForNextBatch_inv in Hask'
      as (x & Hx & _ & [(Hsd & -> & ->)|(Hsd & -> & ->)]);
      rewrite Hr1 in Hx; injection Hx as <-; change (_executor s1) with (_executor s) in *;
      rewrite Hsd; simpl.
    - rewrite (updRemote_Some _ _ _ _ Hr1). eexists. split; [reflexivity|].
      by destruct s.
    - match goal with |- context [updRemote i ?f ?t] =>
        rewrite (updRemote_Some i f t (with_cbHandle (Some (nextId (_executor s))) r0))
      end.
      + eexists. split; [reflexivity|]. simpl. by rewrite list_insert_insert_eq.
      + simpl. rewrite list_lookup_insert_eq; [done|]. by rewrite length_insert. }
  destruct Hproc as (s2 & Hproc & Hs2).
  destruct (ready_total s2) as (b & st' & Hready).
  { subst s2. simpl. done. }
  unfold callback. unfold bind at 1. unfold remoteAt, defined. rewrite Hr, Hcb.
  cbv beta iota delta [isValid].
  unfold _handleBatchResponse. unfold bind at 1. rewrite (updRemote_Some _ _ _ _ Hr).
  fold r0. fold s1. unfold bind at 1, gets at 1.
  change (_lifecycleState s1) with (_lifecycleState s).
  rewrite (bool_decide_eq_true_2 _ Hlc). cbv beta iota delta [negb].
  unfold bind at 1. rewrite Hproc.
  unfold _signalCurrentEventIfReady. unfold bind at 1. rewrite Hready. unfoldM.
  assert (Hfinal : forall s', (s' = set_status st' s2
                               \/ exists e, s' = set_currentEvent None
                                                   (set_executor
                                                      (accept (Signalled e) (_executor s2))
                                                      (set_status st' s2))) ->
            if inShutdown (_executor s)
            then _remotes s'
                 = <[i := with_status ShutdownInProgress (with_cbHandle None r)]>
                     (_remotes s)
                 /\ scheduled (_executor s') = scheduled (_executor s)
            else _remotes s'
                 = <[i := with_status OK (with_cbHandle (Some (nextId (_executor s))) r)]>
                (_remotes s)
                 /\ scheduled (_executor s')
                    = scheduled (_executor s)
                        ++ [(nextId (_executor s),
                             getMoreRequest s (with_cbHandle None r))]).
  { intros s' Hs'.
    assert (Hrs : _remotes s' = _remotes s2
                  /\ scheduled (_executor s') = scheduled (_executor s2)).
    { destruct Hs' as [->|(e & ->)]; simpl; [done|]. by rewrite scheduled_accept. }
    destruct Hrs as [-> ->]. subst s2.
    destruct (inShutdown (_executor s)) eqn:Hsd; simpl.
    - by rewrite list_insert_insert_eq.
    - rewrite list_insert_insert_eq.
      destruct (scheduleRemoteCommand_accepted (getMoreRequest s1 r0) _ Hsd)
        as (_ & _ & -> & _).
      split; [|done]. f_equal. }
  simpl. destruct (b && isValid (_currentEvent s2)) eqn:Hb; simpl.
  - eexists. split; [reflexivity|]. apply Hfinal. right.
    destruct (_currentEvent s2) as [e|] eqn:He; [|by rewrite andb_false_r in Hb].
    exists e. simpl. done.
  - eexists. split; [reflexivity|]. apply Hfinal. by left.
Qed.

(** ** The end of a batch of a tailable cursor *)

Lemma nextReady_tailable_front (s : AsyncResultsMerger) (r : RemoteCursorData)
    (d : BSONObj) (rest : list ClusterQueryResult) :
  _lifecycleState s = kAlive -> _status s = OK -> _eofNext s = false ->
  tailableMode (_params s) = kTailable -> sort (_params s) = [] ->
  _gettingFromRemote s = 0 -> _remotes s = [r] -> status r = OK ->
  docBuffer r = Some d :: rest ->
  nextReady s
  = Some (SWValue (Some d),
          set_eofNext (bool_decide (rest = [])) (set_remotes [with_docBuffer rest r] s)).
Proof.
  intros Hlc Hst Heof Htm Hsort Hg Hrs Hok Hbuf.
  unfold nextReady, hasSortM, _nextReadyUnsorted. unfoldM.
  rewrite (bool_decide_eq_true_2 _ Hlc). simpl. rewrite Hst. simpl.
  rewrite Heof. simpl. rewrite Hsort. simpl. rewrite Hrs. simpl.
  unfoldM. unfold remoteAt. unfoldM. rewrite Hg, Hrs. simpl. rewrite Hok. simpl.
  unfold hasNext at 1. rewrite Hbuf. simpl.
  unfold updRemote. unfoldM. unfold remoteAt. unfoldM. rewrite Hrs. simpl.
  rewrite Hbuf. simpl. rewrite Hrs. simpl. rewrite Htm.
  rewrite (bool_decide_eq_true_2 _ eq_refl).
  unfold hasNext. simpl.
  destruct rest as [|x rest]; simpl; [done|].
  do 2 f_equal. destruct s; simpl in *; by subst.
Qed.

(** X16.  A tailable merger marks the end of each batch.  With one remote,
    no sort and the documents [ds] of a batch in the buffer, [length ds + 1]
    calls of [nextReady] hand out the documents in order and then exactly
    one empty result, the end-of-batch marker; the buffer is then empty and
    the merger otherwise as before, so the next call does not repeat the
    marker. *)
Theorem tailable_end_of_batch (ds : list BSONObj) :
  forall (s : AsyncResultsMerger) (r : RemoteCursorData),
    _lifecycleState s = kAlive -> _status s = OK -> _eofNext s = false ->
    tailableMode (_params s) = kTailable -> sort (_params s) = [] ->
    _gettingFromRemote s = 0 -> _remotes s = [r] -> status r = OK ->
    docBuffer r = Some <$> ds -> ds <> [] ->
    runOps (replicate (S (length ds)) OpNextReady) s
    = Some (((fun d => OutNext (SWValue (Some d))) <$> ds) ++ [OutNext (SWValue None)],
            set_remotes [with_docBuffer [] r] s).
Proof.
  induction ds as [|d ds IH]; intros s r Hlc Hst Heof Htm Hsort Hg Hrs Hok Hbuf Hne;
    [done|].
  rewrite fmap_cons in Hbuf.
  change (replicate (S (length (d :: ds))) OpNextReady)
    with (OpNextReady :: replicate (S (length ds)) OpNextReady).
  cbn [runOps step]. unfold bind at 1. unfold bind at 1.
  rewrite (nextReady_tailable_front s r d _ Hlc Hst Heof Htm Hsort Hg Hrs Hok Hbuf).
  unfold ret at 1. unfold bind at 1.
  destruct ds as [|d' ds].
  - simpl. unfold nextReady. unfoldM. simpl.
    rewrite (bool_decide_eq_true_2 _ Hlc). simpl. rewrite Hst. simpl.
    do 2 f_equal. destruct s; simpl in *; by subst.
  - rewrite bool_decide_eq_false_2 by done.
    assert (Hs1 : set_eofNext false
                    (set_remotes [with_docBuffer (Some <$> d' :: ds) r] s)
                  = set_remotes [with_docBuffer (Some <$> d' :: ds) r] s).
    { destruct s; simpl in *; by subst. }
    rewrite Hs1.
    rewrite (IH (set_remotes [with_docBuffer (Some <$> d' :: ds) r] s)
               (with_docBuffer (Some <$> d' :: ds) r)); try done.
Qed.

(** ** The further properties at concrete mergers *)

(** X1: the three-shard merger, killed before any request was made, may
    be destroyed. *)
Lemma destructor_safe_witness :
  reachable (after threeShards [OpKill None])
  /\ destructor (after threeShards [OpKill None])
     = Some (tt, after threeShards [OpKill None])
  /\ outstanding (after threeShards [OpKill None]) = false.
Proof.
  assert (Hr : reachable (after threeShards [OpKill None])).
  { eapply after_reachable; vm_compute; reflexivity. }
  destruct (destructor_safe _ Hr) as (Hiff & Hout & _).
  assert (Hd : destructor (after threeShards [OpKill None])
               = Some (tt, after threeShards [OpKill None])).
  { apply Hiff. right. split; [vm_compute; discriminate|vm_compute; reflexivity]. }
  split; [exact Hr|]. split; [exact Hd|].
  apply Hout. rewrite Hd. discriminate.
Defined.

(** X2: killing the fresh three-shard merger completes at once and
    leaves the remotes alone. *)
Lemma kill_never_aborts_witness :
  reachable (started threeShards)
  /\ exists e s',
       kill None (started threeShards) = Some (e, s')
       /\ e <> None
       /\ _lifecycleState s' = kKillComplete
       /\ _remotes s' = _remotes (started threeShards).
Proof.
  assert (Hr : reachable (started threeShards)).
  { eapply started_reachable; vm_compute; reflexivity. }
  split; [exact Hr|].
  destruct (kill_never_aborts None _ Hr) as (e & s' & Hk & _ & Hiff & Hrs & _ & He).
  exists e, s'. split; [exact Hk|]. split; [|split; [|exact Hrs]].
  - intros Hnone. apply He in Hnone. vm_compute in Hnone. discriminate Hnone.
  - apply Hiff. unfold outstanding. rewrite Hrs. vm_compute. reflexivity.
Defined.

(** X3: shard B answers after the kill; its documents are dropped and
    the kill completes. *)
Lemma response_after_kill_witness :
  reachable (after twoShards killWaiting)
  /\ _lifecycleState (after twoShards killWaiting) = kKillStarted
  /\ exists s',
       callback (reply 12 [doc 9]) 1 (after twoShards killWaiting) = Some (tt, s')
       /\ docBuffer <$> _remotes s' = [[Some (doc 1)]; []]
       /\ _lifecycleState s' = kKillComplete.
Proof.
  assert (Hr : reachable (after twoShards killWaiting)).
  { eapply after_reachable; vm_compute; reflexivity. }
  split; [exact Hr|]. split; [vm_compute; reflexivity|].
  destruct (response_after_kill (reply 12 [doc 9]) 1 (after twoShards killWaiting)
              {| cursorId := 12; cursorNss := ns; shardHostAndPort := "B";
                 docBuffer := []; cbHandle := Some 0; status := OK;
                 fetchedCount := 0 |} Hr)
    as (s' & Hcb & Hrs & _ & _ & _ & _ & Hlc).
  - vm_compute. discriminate.
  - vm_compute. reflexivity.
  - vm_compute. discriminate.
  - exists s'. split; [exact Hcb|]. split.
    + rewrite Hrs. vm_compute. reflexivity.
    + rewrite Hlc. unfold outstanding. rewrite Hrs. vm_compute. reflexivity.
Defined.

(** X4: the fresh three-shard merger is ready, and [nextReady] hands out
    a document. *)
Lemma nextReady_never_aborts_witness :
  reachable (started threeShards)
  /\ _ready (started threeShards) = Some (true, started threeShards)
  /\ exists res s',
       nextReady (started threeShards) = Some (res, s')
       /\ (res = SWValue (Some (doc 1)) ->
           exists g r rest,
             _remotes (started threeShards) !! g = Some r
             /\ docBuffer r = Some (doc 1) :: rest
             /\ _remotes s' = <[g := with_docBuffer rest r]> (_remotes (started threeShards))).
Proof.
  assert (Hr : reachable (started threeShards)).
  { eapply started_reachable; vm_compute; reflexivity. }
  assert (Hready : _ready (started threeShards) = Some (true, started threeShards)).
  { vm_compute. reflexivity. }
  split; [exact Hr|]. split; [exact Hready|].
  destruct (nextReady_never_aborts _ Hr Hready) as (res & s' & Hn & Hdoc & _).
  exists res, s'. split; [exact Hn|]. apply Hdoc.
Defined.

(** X5: the fresh three-shard merger has documents buffered, so
    [nextReady] does not report the end of the stream. *)
Lemma nextReady_end_of_stream_witness :
  reachable (started threeShards)
  /\ exists res s',
       nextReady (started threeShards) = Some (SWValue res, s') /\ res <> None.
Proof.
  assert (Hr : reachable (started threeShards)).
  { eapply started_reachable; vm_compute; reflexivity. }
  split; [exact Hr|].
  destruct (nextReady_end_of_stream (started threeShards) Hr)
    as (res & s' & Hn & Hiff).
  - vm_compute. reflexivity.
  - vm_compute. reflexivity.
  - vm_compute. reflexivity.
  - exists res, s'. split; [exact Hn|]. intros Hnone.
    apply Hiff in Hnone as [Heof|Hall].
    + vm_compute in Heof. discriminate Heof.
    + destruct (Hall (firstRemote true (shard "A" 11 [doc 1; doc 5]))) as [Hbuf _].
      * vm_compute. left.
      * vm_compute in Hbuf. discriminate Hbuf.
Defined.

(** X6: once [ready] has latched the error of the broken first batch,
    nothing is handed out. *)
Lemma error_is_final_witness :
  _status (after brokenBatch [OpReady]) = InternalError
  /\ runOps [OpNextReady; OpNextEvent; OpNextReady] (after brokenBatch [OpReady])
     = Some ([OutNext (SWError InternalError); OutEvent (SWError InternalError);
              OutNext (SWError InternalError)],
             after brokenBatch [OpReady; OpNextReady; OpNextEvent; OpNextReady])
  /\ _status (after brokenBatch [OpReady; OpNextReady; OpNextEvent; OpNextReady]) <> OK.
Proof.
  assert (Hrun : runOps [OpNextReady; OpNextEvent; OpNextReady]
                   (after brokenBatch [OpReady])
                 = Some ([OutNext (SWError InternalError);
                          OutEvent (SWError InternalError);
                          OutNext (SWError InternalError)],
                         after brokenBatch
                           [OpReady; OpNextReady; OpNextEvent; OpNextReady])).
  { vm_compute. reflexivity. }
  split; [vm_compute; reflexivity|]. split; [exact Hrun|].
  refine (proj1 (error_is_final _ _ _ _ _ Hrun)).
  vm_compute. discriminate.
Defined.

(** X8: the merger built from the broken first batch reports the error
    on the first [ready]. *)
Lemma constructor_error_ready_witness :
  exists s,
    newAsyncResultsMerger (Some 0) idle brokenBatch = Some s
    /\ ready s = Some (true, set_status InternalError s)
    /\ nextReady (set_status InternalError s)
       = Some (SWError InternalError, set_status InternalError s).
Proof.
  apply (constructor_error_ready (Some 0) idle brokenBatch
           (shard "A" 11 [doc 1; nokey 2]) (nokey 2)).
  - vm_compute. discriminate.
  - vm_compute. left.
  - vm_compute. right. left.
  - vm_compute. discriminate.
Defined.

(** X9: shard B of the three-shard merger is exhausted after the drain
    and stays so through another [nextEvent] and a kill. *)
Lemma exhausted_forever_witness :
  exists r',
    _remotes (after threeShards (drainThree ++ [OpNextEvent; OpKill None])) !! 1
    = Some r'
    /\ cursorId r' = 0%Z /\ cbHandle r' = None.
Proof.
  destruct (exhausted_forever [OpNextEvent; OpKill None]
              (after threeShards drainThree)
              (after threeShards (drainThree ++ [OpNextEvent; OpKill None]))
              [OutEvent (SWValue (Some 5)); OutHandle (Some 6)] 1
              {| cursorId := 0; cursorNss := ns; shardHostAndPort := "B";
                 docBuffer := []; cbHandle := None; status := OK;
                 fetchedCount := 2 |})
    as (r' & Hr' & Hc & Hcb & _).
  - vm_compute. reflexivity.
  - reflexivity.
  - reflexivity.
  - vm_compute. reflexivity.
  - exists r'. split; [exact Hr'|]. split; [exact Hc|exact Hcb].
Defined.

(** X10: the drain of the three-shard merger hands out six documents,
    all of them from the first batches and the two responses. *)
Lemma documents_accounted_witness :
  documents (outputs threeShards drainThree)
    ++ buffered (_remotes (after threeShards drainThree))
  ⊆+ firstBatches threeShards ++ incoming drainThree.
Proof.
  apply (documents_accounted (Some 0) idle threeShards (started threeShards)).
  - vm_compute. reflexivity.
  - vm_compute. reflexivity.
Defined.

(** X11: the killed three-shard merger answers its consumer with
    [IllegalOperation] and sends no getMore. *)
Lemma killed_is_inert_witness :
  _lifecycleState (after threeShards [OpKill None]) = kKillComplete
  /\ getMores (_executor (after threeShards
                            [OpKill None; OpReady; OpNextReady; OpNextEvent;
                             OpKill (Some 2)]))
     = []
  /\ _lifecycleState (after threeShards
                        [OpKill None; OpReady; OpNextReady; OpNextEvent;
                         OpKill (Some 2)])
     <> kAlive.
Proof.
  destruct (killed_is_inert [OpReady; OpNextReady; OpNextEvent; OpKill (Some 2)]
              (after threeShards [OpKill None])
              (after threeShards
                 [OpKill None; OpReady; OpNextReady; OpNextEvent; OpKill (Some 2)])
              [OutBool true; OutNext (SWError IllegalOperation);
               OutEvent (SWError IllegalOperation); OutHandle (Some 0)])
    as (Hlc & _ & _ & _ & Hget & _).
  - vm_compute. discriminate.
  - vm_compute. reflexivity.
  - split; [vm_compute; reflexivity|]. split; [|exact Hlc].
    rewrite Hget. vm_compute. reflexivity.
Defined.

(** X12: after the drain of the three-shard merger, no event has been
    signalled twice. *)
Lemma events_signalled_once_witness :
  tidy idle /\ NoDup (signalled (_executor (after threeShards drainThree))).
Proof.
  assert (Hidle : tidy idle).
  { split; [intros e He; vm_compute in He; inversion He|vm_compute; constructor]. }
  split; [exact Hidle|].
  refine (proj1 (events_signalled_once (Some 0) idle threeShards
                   (started threeShards) (after threeShards drainThree)
                   drainThree (outputs threeShards drainThree) Hidle _ _)).
  - vm_compute. reflexivity.
  - vm_compute. reflexivity.
Defined.

(** X13: on the fresh two-shard merger [nextEvent] schedules one getMore,
    for shard B. *)
Lemma nextEvent_schedules_witness :
  exists e s' reqs,
    nextEvent (started twoShards) = Some (SWValue (Some e), s')
    /\ scheduled (_executor s') = reqs
    /\ cmdObj <$> (snd <$> reqs) = [GetMore ns 12 None None]
    /\ (forall r', r' ∈ _remotes s' -> needsBatch r' = false).
Proof.
  destruct (nextEvent_schedules (started twoShards))
    as (e & s' & reqs & Hn & Hsch & Hreqs & Hidle & _).
  - vm_compute. reflexivity.
  - vm_compute. reflexivity.
  - vm_compute. reflexivity.
  - apply Forall_forall. vm_compute. repeat constructor.
  - intros Hsort. vm_compute. reflexivity.
  - exists e, s', reqs. split; [exact Hn|]. split; [exact Hsch|].
    split; [|exact Hidle]. rewrite Hreqs. vm_compute. reflexivity.
Defined.

(** X14: with the executor shut down, [nextEvent] on the two-shard
    merger returns the shutdown error. *)
Lemma nextEvent_in_shutdown_witness :
  nextEvent (after twoShards [OpExecutorShutdown])
  = Some (SWError ShutdownInProgress, after twoShards [OpExecutorShutdown]).
Proof.
  apply nextEvent_in_shutdown.
  - vm_compute. reflexivity.
  - vm_compute. reflexivity.
  - vm_compute. reflexivity.
  - apply Forall_forall. vm_compute. repeat constructor.
Defined.

(** X15: shard B answers the first getMore with an empty batch and is
    asked again. *)
Lemma empty_batch_refetch_witness :
  exists s',
    callback (reply 12 []) 1 (after twoShards [OpNextEvent]) = Some (tt, s')
    /\ cbHandle <$> _remotes s' = [None; Some 2]
    /\ commands (_executor s') = [GetMore ns 12 None None; GetMore ns 12 None None].
Proof.
  destruct (empty_batch_refetch 1 (after twoShards [OpNextEvent])
              {| cursorId := 12; cursorNss := ns; shardHostAndPort := "B";
                 docBuffer := []; cbHandle := Some 0; status := OK;
                 fetchedCount := 0 |} 0 ns)
    as (s' & Hcb & Hif).
  - vm_compute. reflexivity.
  - vm_compute. discriminate.
  - intros Hsort. vm_compute. reflexivity.
  - vm_compute. reflexivity.
  - reflexivity.
  - reflexivity.
  - vm_compute. discriminate.
  - exists s'. split; [exact Hcb|].
    assert (Hsd : inShutdown (_executor (after twoShards [OpNextEvent])) = false).
    { vm_compute. reflexivity. }
    rewrite Hsd in Hif. destruct Hif as [Hrs Hsch].
    split; [rewrite Hrs; vm_compute; reflexivity|].
    unfold commands. rewrite Hsch. vm_compute. reflexivity.
Defined.

(** X16: the tailable merger hands out its two documents and then one
    end-of-batch marker. *)
Lemma tailable_end_of_batch_witness :
  runOps [OpNextReady; OpNextReady; OpNextReady] (started tailing)
  = Some ([OutNext (SWValue (Some (doc 1))); OutNext (SWValue (Some (doc 2)));
           OutNext (SWValue None)],
          set_remotes
            [with_docBuffer [] (firstRemote false (shard "A" 11 [doc 1; doc 2]))]
            (started tailing)).
Proof.
  apply (tailable_end_of_batch [doc 1; doc 2] (started tailing)
           (firstRemote false (shard "A" 11 [doc 1; doc 2]))).
  - vm_compute. reflexivity.
  - vm_compute. reflexivity.
  - vm_compute. reflexivity.
  - vm_compute. reflexivity.
  - vm_compute. reflexivity.
  - vm_compute. reflexivity.
  - vm_compute. reflexivity.
  - vm_compute. reflexivity.
  - vm_compute. reflexivity.
  - discriminate.
Defined.
